(** * The resilient translation pipeline of AI-Office-Translator

    A shallow embedding of [src/translator/base_translator.py]
    ([DocumentTranslator.translate_content], [retranslate_failed_content],
    [_retranslate_failed_lines], [_convert_failed_segments_to_json] and
    [_mark_segment_as_failed]) together with the parts of the Python
    runtime these methods rely on: [str] operations, slices and the [json]
    module.

    Conventions.
    - A Python [str] is a Rocq [string] holding its UTF-8 encoding.  A
      file is the [string] of its bytes: FAILED_JSON_PATH is opened with
      [encoding="utf-8"], and a read decodes the bytes, which fails with
      [UnicodeDecodeError] when they are no UTF-8 ([utf8_valid]).
    - The collaborators that live outside the two modelled files (the
      Segmenter [stream_segment_json], the Translation Invoker
      [translate_text], the Result Recorder [process_translation_results]
      and [clean_json]) are parameters of the development.

    The driver [DocumentTranslator.process] with [__init__] and
    [_clear_temp_folder], and the functions of [src/app.py]
    ([find_available_port], [translate_file], [parse_accept_language],
    [get_user_lang], [update_model_list_and_api_input] and the list
    [online_models]) are embedded after the pipeline, with [os.path] as
    [posixpath] has it; the Extractor, the Writer, the validator, the
    floats and the local ports are parameters as well. *)

From Stdlib Require Import String Ascii List ZArith NArith Lia Bool Sorted.
From Stdlib Require Import DecimalString.
From Stdlib Require Decimal DecimalFacts DecimalPos.
Import ListNotations.

Set Warnings "-register-all".

Local Open Scope list_scope.
Local Open Scope string_scope.

(** ** Option helpers *)

Definition obind {A B} (o : option A) (f : A -> option B) : option B :=
  match o with Some a => f a | None => None end.

Notation "x <-? o ;; k" := (obind o (fun x => k))
  (at level 61, o at next level, right associativity).

(** ** Characters *)

Definition code (c : ascii) : N := N_of_ascii c.
Definition chr (n : N) : ascii := ascii_of_N n.

Definition str1 (c : ascii) : string := String c "".

Definition in_range (lo hi : N) (c : ascii) : bool :=
  (lo <=? code c)%N && (code c <=? hi)%N.

Definition is_digit (c : ascii) : bool := in_range 48 57 c.

(** ** JSON values, as [json.loads] builds them *)

Inductive json : Type :=
| JNull
| JBool (b : bool)
| JInt (z : Z)
| JFloat (raw : string)     (* a float, kept as the literal that denotes it *)
| JStr (s : string)
| JArr (items : list json)
| JObj (members : list (string * json)).

(** A Python [dict] keeps one binding per key: storing under a key that
    is present replaces the value in place, a new key goes last. *)
Fixpoint dict_set (k : string) (v : json) (d : list (string * json))
  : list (string * json) :=
  match d with
  | [] => [(k, v)]
  | (k', v') :: d' =>
      if String.eqb k k' then (k, v) :: d' else (k', v') :: dict_set k v d'
  end.

Definition py_dict (pairs : list (string * json)) : list (string * json) :=
  fold_left (fun d kv => dict_set (fst kv) (snd kv) d) pairs [].

Fixpoint dict_get (k : string) (d : list (string * json)) : option json :=
  match d with
  | [] => None
  | (k', v) :: d' => if String.eqb k k' then Some v else dict_get k d'
  end.

(** Truth value of a decoded document ([if not data]). *)
Definition all_zero_mantissa (raw : string) : bool :=
  (fix go (s : string) : bool :=
     match s with
     | "" => true
     | String c r =>
         if (Ascii.eqb c "e" || Ascii.eqb c "E")%bool then true
         else if in_range 49 57 c then false
         else if Ascii.eqb c "N" then false      (* NaN *)
         else if Ascii.eqb c "I" then false      (* Infinity *)
         else go r
     end) raw.

Definition truthy (v : json) : bool :=
  match v with
  | JNull => false
  | JBool b => b
  | JInt z => negb (Z.eqb z 0)
  | JFloat raw => negb (all_zero_mantissa raw)
  | JStr s => negb (String.eqb s "")
  | JArr l => match l with [] => false | _ => true end
  | JObj m => match m with [] => false | _ => true end
  end.

(** ** [int.__repr__] and [int(str)] *)

Definition py_repr_int (z : Z) : string :=
  NilZero.string_of_int (Z.to_int z).

(** ** [json.loads]: lexer *)

Inductive token : Type :=
| TLBrace | TRBrace | TLBrack | TRBrack | TColon | TComma
| TAtom (v : json).

Definition is_json_ws (c : ascii) : bool :=
  (Ascii.eqb c " " || Ascii.eqb c (chr 9) || Ascii.eqb c (chr 10)
   || Ascii.eqb c (chr 13))%bool.

Definition punct (c : ascii) : option token :=
  if Ascii.eqb c "{" then Some TLBrace
  else if Ascii.eqb c "}" then Some TRBrace
  else if Ascii.eqb c "[" then Some TLBrack
  else if Ascii.eqb c "]" then Some TRBrack
  else if Ascii.eqb c ":" then Some TColon
  else if Ascii.eqb c "," then Some TComma
  else None.

(** what may follow a number literal inside a document *)
Definition closer (c : ascii) : option token :=
  if Ascii.eqb c "}" then Some TRBrace
  else if Ascii.eqb c "]" then Some TRBrack
  else if Ascii.eqb c "," then Some TComma
  else None.

Definition quote_char : ascii := chr 34.
Definition backslash : ascii := chr 92.

Definition hex_val (c : ascii) : option N :=
  if in_range 48 57 c then Some (code c - 48)%N
  else if in_range 97 102 c then Some (code c - 87)%N
  else if in_range 65 70 c then Some (code c - 55)%N
  else None.

Definition hex4 (a b c d : ascii) : option N :=
  x <-? hex_val a ;; y <-? hex_val b ;; z <-? hex_val c ;; w <-? hex_val d ;;
  Some (((x * 16 + y) * 16 + z) * 16 + w)%N.

(** UTF-8 encoding of a code point (a lone surrogate is encoded like any
    other three-byte code point) *)
Definition utf8 (cp : N) : string :=
  if (cp <? 128)%N then str1 (chr cp)
  else if (cp <? 2048)%N then
    String (chr (192 + cp / 64)) (str1 (chr (128 + cp mod 64)))
  else if (cp <? 65536)%N then
    String (chr (224 + cp / 4096))
      (String (chr (128 + (cp / 64) mod 64)) (str1 (chr (128 + cp mod 64))))
  else
    String (chr (240 + cp / 262144))
      (String (chr (128 + (cp / 4096) mod 64))
         (String (chr (128 + (cp / 64) mod 64)) (str1 (chr (128 + cp mod 64))))).

Definition is_high_surrogate (cp : N) : bool := (55296 <=? cp)%N && (cp <=? 56319)%N.
Definition is_low_surrogate (cp : N) : bool := (56320 <=? cp)%N && (cp <=? 57343)%N.
Definition join_surrogates (hi lo : N) : N :=
  (65536 + (hi - 55296) * 1024 + (lo - 56320))%N.

(** the one-character escapes of a string literal *)
Definition simple_escape (e : ascii) : option ascii :=
  if Ascii.eqb e quote_char then Some quote_char
  else if Ascii.eqb e backslash then Some backslash
  else if Ascii.eqb e "/" then Some "/"%char
  else if Ascii.eqb e "b" then Some (chr 8)
  else if Ascii.eqb e "f" then Some (chr 12)
  else if Ascii.eqb e "n" then Some (chr 10)
  else if Ascii.eqb e "r" then Some (chr 13)
  else if Ascii.eqb e "t" then Some (chr 9)
  else None.

Fixpoint span_digits (s : string) : string * string :=
  match s with
  | String c r =>
      if is_digit c then let (d, rest) := span_digits r in (String c d, rest)
      else ("", s)
  | "" => ("", "")
  end.

Definition Z_of_digits (neg : bool) (ds : string) : option Z :=
  d <-? NilZero.uint_of_string ds ;;
  Some (if neg then Z.opp (Z.of_uint d) else Z.of_uint d).

(** the number grammar of JSON: an optional minus sign, an integer part
    that is 0 or starts with a non-zero digit, an optional fraction (a dot
    and at least one digit), an optional exponent (e or E, an optional
    sign, at least one digit); an integer when neither fraction nor
    exponent is present *)
Definition number_token (lit : string) : option token :=
  let (neg, s1) :=
    match lit with
    | String c r => if Ascii.eqb c "-" then (true, r) else (false, lit)
    | "" => (false, lit)
    end in
  let (ip, s2) := span_digits s1 in
  let int_ok :=
    match ip with
    | "" => false
    | String c r => if Ascii.eqb c "0" then String.eqb r "" else true
    end in
  if negb int_ok then None else
  match s2 with
  | "" => z <-? Z_of_digits neg ip ;; Some (TAtom (JInt z))
  | _ =>
      let after_frac :=
        match s2 with
        | String c r =>
            if Ascii.eqb c "." then
              let (fp, s3) := span_digits r in
              if String.eqb fp "" then None else Some s3
            else Some s2
        | "" => Some s2
        end in
      s3 <-? after_frac ;;
      let after_exp :=
        match s3 with
        | String c r =>
            if (Ascii.eqb c "e" || Ascii.eqb c "E")%bool then
              let r' :=
                match r with
                | String sg r0 =>
                    if (Ascii.eqb sg "+" || Ascii.eqb sg "-")%bool then r0 else r
                | "" => r
                end in
              let (ep, s4) := span_digits r' in
              if String.eqb ep "" then None else Some s4
            else Some s3
        | "" => Some s3
        end in
      s4 <-? after_exp ;;
      if String.eqb s4 "" then Some (TAtom (JFloat lit)) else None
  end.

Definition is_num_char (c : ascii) : bool :=
  (is_digit c || Ascii.eqb c "-" || Ascii.eqb c "+" || Ascii.eqb c "."
   || Ascii.eqb c "e" || Ascii.eqb c "E")%bool.

Inductive lex_mode : Type :=
| LTop                     (* between tokens *)
| LStr (acc : string)      (* inside a string literal *)
| LNum (acc : string).     (* inside a number literal *)

Definition ocons {A} (a : A) (o : option (list A)) : option (list A) :=
  match o with Some l => Some (a :: l) | None => None end.

Definition chars3 (a b c : ascii) : string := String a (String b (str1 c)).
Definition chars4 (a b c d : ascii) : string := String a (chars3 b c d).

Fixpoint lex (m : lex_mode) (s : string) {struct s} : option (list token) :=
  match s with
  | "" =>
      match m with
      | LTop => Some []
      | LStr _ => None
      | LNum acc => t <-? number_token acc ;; Some [t]
      end
  | String c r =>
      match m with
      | LTop =>
          if is_json_ws c then lex LTop r else
          match punct c with
          | Some t => ocons t (lex LTop r)
          | None =>
              if Ascii.eqb c quote_char then lex (LStr "") r
              else if is_digit c then lex (LNum (str1 c)) r
              else if Ascii.eqb c "-" then
                (* a number, unless the text goes on with Infinity *)
                match r with
                | String c1 r1 =>
                    if negb (Ascii.eqb c1 "I") then lex (LNum (str1 c)) r else
                    match r1 with
                    | String c2 (String c3 (String c4 (String c5
                        (String c6 (String c7 (String c8 r8)))))) =>
                        if String.eqb (chars3 c2 c3 c4 ++ chars4 c5 c6 c7 c8)
                             "nfinity"
                        then ocons (TAtom (JFloat "-Infinity")) (lex LTop r8)
                        else None
                    | _ => None
                    end
                | "" => None
                end
              else
                (* true, false, null, NaN, Infinity *)
                match r with
                | String c1 (String c2 r2) =>
                    if String.eqb (chars3 c c1 c2) "NaN"
                    then ocons (TAtom (JFloat "NaN")) (lex LTop r2) else
                    match r2 with
                    | String c3 r3 =>
                        if String.eqb (chars4 c c1 c2 c3) "true"
                        then ocons (TAtom (JBool true)) (lex LTop r3)
                        else if String.eqb (chars4 c c1 c2 c3) "null"
                        then ocons (TAtom JNull) (lex LTop r3) else
                        match r3 with
                        | String c4 r4 =>
                            if String.eqb (String c (chars4 c1 c2 c3 c4)) "false"
                            then ocons (TAtom (JBool false)) (lex LTop r4) else
                            match r4 with
                            | String c5 (String c6 (String c7 r7)) =>
                                if String.eqb
                                     (chars4 c c1 c2 c3 ++ chars4 c4 c5 c6 c7)
                                     "Infinity"
                                then ocons (TAtom (JFloat "Infinity")) (lex LTop r7)
                                else None
                            | _ => None
                            end
                        | "" => None
                        end
                    | "" => None
                    end
                | _ => None
                end
          end
      | LStr acc =>
          if Ascii.eqb c quote_char then ocons (TAtom (JStr acc)) (lex LTop r)
          else if Ascii.eqb c backslash then
            match r with
            | "" => None
            | String e r1 =>
                match simple_escape e with
                | Some ch => lex (LStr (acc ++ str1 ch)) r1
                | None =>
                    if negb (Ascii.eqb e "u") then None else
                    match r1 with
                    | String h1 (String h2 (String h3 (String h4 r5))) =>
                        match hex4 h1 h2 h3 h4 with
                        | None => None
                        | Some cp =>
                            match r5 with
                            | String b (String u (String k1 (String k2
                                (String k3 (String k4 ((String _ _) as r11)))))) =>
                                if (is_high_surrogate cp && Ascii.eqb b backslash
                                    && Ascii.eqb u "u")%bool then
                                  match hex4 k1 k2 k3 k4 with
                                  | None => None
                                  | Some cp2 =>
                                      if is_low_surrogate cp2
                                      then lex (LStr (acc ++ utf8 (join_surrogates cp cp2)))
                                             r11
                                      else lex (LStr (acc ++ utf8 cp)) r5
                                  end
                                else lex (LStr (acc ++ utf8 cp)) r5
                            | _ => lex (LStr (acc ++ utf8 cp)) r5
                            end
                        end
                    | _ => None
                    end
                end
            end
          else if (code c <? 32)%N then None
          else lex (LStr (acc ++ str1 c)) r
      | LNum acc =>
          if is_num_char c then lex (LNum (acc ++ str1 c)) r else
          match number_token acc with
          | None => None
          | Some t =>
              if is_json_ws c then ocons t (lex LTop r) else
              match closer c with
              | Some p => ocons t (ocons p (lex LTop r))
              | None => None
              end
          end
      end
  end.

(** ** [json.loads]: parser over tokens

    A pushdown automaton: [frame]s are the containers under construction,
    [pstate] says what may come next. *)

Inductive frame : Type :=
| FArr (acc : list json)                          (* items so far, last first *)
| FObj (acc : list (string * json)) (k : string). (* members so far, pending key *)

Inductive pstate : Type :=
| SVal (stk : list frame)                            (* a value *)
| SArrStart (stk : list frame)                       (* a value or ] *)
| SArrNext (acc : list json) (stk : list frame)      (* , or ] *)
| SObjStart (stk : list frame)                       (* a key or } *)
| SKey (acc : list (string * json)) (stk : list frame)            (* a key *)
| SColon (acc : list (string * json)) (k : string) (stk : list frame) (* : *)
| SObjNext (acc : list (string * json)) (stk : list frame)        (* , or } *)
| SDone (v : json).                                  (* end of input *)

(** a complete value goes to the innermost open container *)
Definition reduce (v : json) (stk : list frame) : pstate :=
  match stk with
  | [] => SDone v
  | FArr acc :: stk' => SArrNext (v :: acc) stk'
  | FObj acc k :: stk' => SObjNext ((k, v) :: acc) stk'
  end.

Definition value_step (t : token) (stk : list frame) : option pstate :=
  match t with
  | TAtom v => Some (reduce v stk)
  | TLBrack => Some (SArrStart stk)
  | TLBrace => Some (SObjStart stk)
  | _ => None
  end.

Definition pstep (st : pstate) (t : token) : option pstate :=
  match st with
  | SVal stk => value_step t stk
  | SArrStart stk =>
      match t with
      | TRBrack => Some (reduce (JArr []) stk)
      | _ => value_step t (FArr [] :: stk)
      end
  | SArrNext acc stk =>
      match t with
      | TComma => Some (SVal (FArr acc :: stk))
      | TRBrack => Some (reduce (JArr (rev acc)) stk)
      | _ => None
      end
  | SObjStart stk =>
      match t with
      | TRBrace => Some (reduce (JObj []) stk)
      | TAtom (JStr k) => Some (SColon [] k stk)
      | _ => None
      end
  | SKey acc stk =>
      match t with
      | TAtom (JStr k) => Some (SColon acc k stk)
      | _ => None
      end
  | SColon acc k stk =>
      match t with
      | TColon => Some (SVal (FObj acc k :: stk))
      | _ => None
      end
  | SObjNext acc stk =>
      match t with
      | TComma => Some (SKey acc stk)
      | TRBrace => Some (reduce (JObj (py_dict (rev acc))) stk)
      | _ => None
      end
  | SDone _ => None
  end.

Fixpoint parse_tokens (st : pstate) (ts : list token) : option json :=
  match ts with
  | [] => match st with SDone v => Some v | _ => None end
  | t :: ts' => st' <-? pstep st t ;; parse_tokens st' ts'
  end.

(** [json.loads(s)]: [None] stands for [json.JSONDecodeError] *)
Definition json_loads (s : string) : option json :=
  ts <-? lex LTop s ;; parse_tokens (SVal []) ts.

(** ** [json.dumps(v, indent=4, ensure_ascii=False)] *)

Definition hex_digit (n : N) : ascii :=
  if (n <? 10)%N then chr (48 + n) else chr (87 + n).

Definition escape_char (c : ascii) : string :=
  if Ascii.eqb c quote_char then String backslash (str1 quote_char)
  else if Ascii.eqb c backslash then String backslash (str1 backslash)
  else if Ascii.eqb c (chr 8) then String backslash "b"
  else if Ascii.eqb c (chr 12) then String backslash "f"
  else if Ascii.eqb c (chr 10) then String backslash "n"
  else if Ascii.eqb c (chr 13) then String backslash "r"
  else if Ascii.eqb c (chr 9) then String backslash "t"
  else if (code c <? 32)%N then
    String backslash
      (String "u" (String "0" (String "0"
         (String (hex_digit (code c / 16)) (str1 (hex_digit (code c mod 16)))))))
  else str1 c.

Fixpoint escape (s : string) : string :=
  match s with
  | "" => ""
  | String c r => escape_char c ++ escape r
  end.

Definition json_quote (s : string) : string :=
  String quote_char (escape s ++ str1 quote_char).

Fixpoint spaces (n : nat) : string :=
  match n with O => "" | S n' => String " " (spaces n') end.

(** a line break followed by the indentation of nesting depth [lvl] *)
Definition newline_indent (lvl : nat) : string :=
  String (chr 10) (spaces (4 * lvl)).

Fixpoint json_dumps_at (lvl : nat) (v : json) : string :=
  match v with
  | JNull => "null"
  | JBool true => "true"
  | JBool false => "false"
  | JInt z => py_repr_int z
  | JFloat raw => raw
  | JStr s => json_quote s
  | JArr [] => "[]"
  | JArr (x :: xs) =>
      "[" ++ newline_indent (S lvl) ++ json_dumps_at (S lvl) x
      ++ (fix rest (l : list json) : string :=
            match l with
            | [] => ""
            | y :: l' =>
                "," ++ newline_indent (S lvl) ++ json_dumps_at (S lvl) y ++ rest l'
            end) xs
      ++ newline_indent lvl ++ "]"
  | JObj [] => "{}"
  | JObj ((k, x) :: ms) =>
      "{" ++ newline_indent (S lvl) ++ json_quote k ++ ": " ++ json_dumps_at (S lvl) x
      ++ (fix rest (l : list (string * json)) : string :=
            match l with
            | [] => ""
            | (k', y) :: l' =>
                "," ++ newline_indent (S lvl) ++ json_quote k' ++ ": "
                ++ json_dumps_at (S lvl) y ++ rest l'
            end) ms
      ++ newline_indent lvl ++ "}"
  end.

Definition json_dumps (v : json) : string := json_dumps_at 0 v.

Definition nl : string := str1 (chr 10).

(** ** Python [str] and [list] operations used by the pipeline *)

Fixpoint string_rev (s : string) : string :=
  match s with
  | "" => ""
  | String c r => string_rev r ++ str1 c
  end.

(** [str.splitlines()]: a line ends at LF, CR, CR LF, VT, FF, FS, GS, RS,
    NEL (C2 85), LS (E2 80 A8) or PS (E2 80 A9); no empty last line *)
Definition ascii_line_break (c : ascii) : bool :=
  (in_range 10 13 c || in_range 28 30 c)%bool.

Fixpoint splitlines_from (cur : string) (s : string) : list string :=
  match s with
  | "" => if String.eqb cur "" then [] else [cur]
  | String c r =>
      if Ascii.eqb c (chr 13) then
        match r with
        | String c1 r1 =>
            if Ascii.eqb c1 (chr 10) then cur :: splitlines_from "" r1
            else cur :: splitlines_from "" r
        | "" => [cur]
        end
      else if ascii_line_break c then cur :: splitlines_from "" r
      else
        match r with
        | String c1 r1 =>
            if (Ascii.eqb c (chr 194) && Ascii.eqb c1 (chr 133))%bool
            then cur :: splitlines_from "" r1 else
            match r1 with
            | String c2 r2 =>
                if (Ascii.eqb c (chr 226) && Ascii.eqb c1 (chr 128)
                    && in_range 168 169 c2)%bool
                then cur :: splitlines_from "" r2
                else splitlines_from (cur ++ str1 c) r
            | "" => splitlines_from (cur ++ str1 c) r
            end
        | "" => splitlines_from (cur ++ str1 c) r
        end
  end.

Definition splitlines (s : string) : list string := splitlines_from "" s.

(** [sep.join(lines)] *)
Definition join (sep : string) (lines : list string) : string :=
  String.concat sep lines.

(** [str.strip()]: the characters for which [str.isspace] holds, in
    UTF-8: 09-0D, 1C-1F, 20, U+0085, U+00A0, U+1680, U+2000-U+200A,
    U+2028, U+2029, U+202F, U+205F, U+3000 *)
Definition space1 (c : ascii) : bool :=
  (in_range 9 13 c || in_range 28 32 c)%bool.

Definition space2 (a b : ascii) : bool :=
  (Ascii.eqb a (chr 194) && (Ascii.eqb b (chr 133) || Ascii.eqb b (chr 160)))%bool.

Definition space3 (a b c : ascii) : bool :=
  ((Ascii.eqb a (chr 225) && Ascii.eqb b (chr 154) && Ascii.eqb c (chr 128))
   || (Ascii.eqb a (chr 226) && Ascii.eqb b (chr 128)
       && (in_range 128 138 c || in_range 168 169 c || Ascii.eqb c (chr 175)))
   || (Ascii.eqb a (chr 226) && Ascii.eqb b (chr 129) && Ascii.eqb c (chr 159))
   || (Ascii.eqb a (chr 227) && Ascii.eqb b (chr 128) && Ascii.eqb c (chr 128)))%bool.

Fixpoint lstrip (s : string) : string :=
  match s with
  | "" => ""
  | String a r =>
      if space1 a then lstrip r else
      match r with
      | String b r1 =>
          if space2 a b then lstrip r1 else
          match r1 with
          | String c r2 => if space3 a b c then lstrip r2 else s
          | "" => s
          end
      | "" => s
      end
  end.

(** the same scan over the reversed string, for the right end *)
Fixpoint lstrip_rev (s : string) : string :=
  match s with
  | "" => ""
  | String a r =>
      if space1 a then lstrip_rev r else
      match r with
      | String b r1 =>
          if space2 b a then lstrip_rev r1 else
          match r1 with
          | String c r2 => if space3 c b a then lstrip_rev r2 else s
          | "" => s
          end
      | "" => s
      end
  end.

Definition rstrip (s : string) : string := string_rev (lstrip_rev (string_rev s)).
Definition strip (s : string) : string := rstrip (lstrip s).

(** [int(s)] on a [str], base 10: surrounding white space, an optional
    sign, digits with single underscores between them.  The white space of
    [int] is not that of [str.strip]: of the ASCII characters only 09-0D
    and 20 are skipped (1C-1F are not), while the white space outside
    ASCII is skipped as by [str.strip].  [py_int s = Some n] means
    [int(s) == n] (for a text within the limit that the interpreter sets
    on the digits of an integer text, [sys.set_int_max_str_digits]);
    [None] stands for [ValueError] when [s] is ASCII: the decimal digits
    that Unicode has outside ASCII, which [int] also accepts, are not
    recognised here. *)
Definition int_space1 (c : ascii) : bool :=
  (in_range 9 13 c || Ascii.eqb c " ")%bool.

Fixpoint int_lstrip (s : string) : string :=
  match s with
  | "" => ""
  | String a r =>
      if int_space1 a then int_lstrip r else
      match r with
      | String b r1 =>
          if space2 a b then int_lstrip r1 else
          match r1 with
          | String c r2 => if space3 a b c then int_lstrip r2 else s
          | "" => s
          end
      | "" => s
      end
  end.

Fixpoint int_lstrip_rev (s : string) : string :=
  match s with
  | "" => ""
  | String a r =>
      if int_space1 a then int_lstrip_rev r else
      match r with
      | String b r1 =>
          if space2 b a then int_lstrip_rev r1 else
          match r1 with
          | String c r2 => if space3 c b a then int_lstrip_rev r2 else s
          | "" => s
          end
      | "" => s
      end
  end.

Definition int_strip (s : string) : string :=
  string_rev (int_lstrip_rev (string_rev (int_lstrip s))).

Fixpoint int_digits (s : string) (acc : Z) (after_digit : bool) : option Z :=
  match s with
  | "" => if after_digit then Some acc else None
  | String c r =>
      if is_digit c then int_digits r (acc * 10 + Z.of_N (code c - 48)) true
      else if (Ascii.eqb c "_" && after_digit)%bool then
        match r with
        | String c' _ => if is_digit c' then int_digits r acc false else None
        | "" => None
        end
      else None
  end.

Definition py_int (s : string) : option Z :=
  match int_strip s with
  | String c r =>
      if Ascii.eqb c "-" then option_map Z.opp (int_digits r 0 false)
      else if Ascii.eqb c "+" then int_digits r 0 false
      else int_digits (String c r) 0 false
  | "" => None
  end.

(** [l[start:stop]] with Python's treatment of negative and out-of-range
    bounds *)
Definition slice_index (n i : Z) : Z :=
  if (i <? 0)%Z then Z.max 0 (i + n) else Z.min i n.

Definition py_slice {A} (l : list A) (start stop : Z) : list A :=
  let n := Z.of_nat (length l) in
  let a := slice_index n start in
  let b := slice_index n stop in
  firstn (Z.to_nat (b - a)) (skipn (Z.to_nat a) l).

(** [l[start:]] *)
Definition py_slice_from {A} (l : list A) (start : Z) : list A :=
  skipn (Z.to_nat (slice_index (Z.of_nat (length l)) start)) l.

Fixpoint string_drop (n : nat) (s : string) : string :=
  match n, s with
  | O, _ => s
  | S n', String _ r => string_drop n' r
  | S _, "" => ""
  end.

(** what a file holds after [f.seek(0)] and a write of [new] to a file
    opened in mode [r+]: nothing is truncated *)
Definition overwrite (old new : string) : string :=
  new ++ string_drop (String.length new) old.

(** what [open(path, encoding="utf-8")] needs of the bytes of a file for
    [f.read()], and so [json.load(f)], to decode them: well-formed UTF-8,
    with no overlong form, no surrogate and nothing above U+10FFFF.
    Otherwise the read raises [UnicodeDecodeError]. *)
Definition continuation (c : ascii) : bool := in_range 128 191 c.

Definition second_of_three (a b : ascii) : bool :=
  if Ascii.eqb a (chr 224) then in_range 160 191 b
  else if Ascii.eqb a (chr 237) then in_range 128 159 b
  else continuation b.

Definition second_of_four (a b : ascii) : bool :=
  if Ascii.eqb a (chr 240) then in_range 144 191 b
  else if Ascii.eqb a (chr 244) then in_range 128 143 b
  else continuation b.

Fixpoint utf8_valid (s : string) : bool :=
  match s with
  | "" => true
  | String a r =>
      if (code a <? 128)%N then utf8_valid r
      else if in_range 194 223 a then
        match r with
        | String b r1 => continuation b && utf8_valid r1
        | "" => false
        end
      else if in_range 224 239 a then
        match r with
        | String b (String c r2) =>
            second_of_three a b && continuation c && utf8_valid r2
        | _ => false
        end
      else if in_range 240 244 a then
        match r with
        | String b (String c (String d r3)) =>
            second_of_four a b && continuation c && continuation d
            && utf8_valid r3
        | _ => false
        end
      else false
  end.

(** a value that [json.dump] writes to a file as [json_dumps_at] below
    does: it has no [float] in it, and its texts are well-formed UTF-8.
    [json.dump] writes a [float] as [repr] does ([1e2] comes back as
    [100.0]), while [json_dumps_at] and [dumped_key] keep the literal
    that was read; and a text with a lone surrogate, which a \u escape
    can bring into a [str], cannot be written to a file that is opened
    with [encoding="utf-8"].  What is said of a value that was loaded
    and is written again is said of plain values. *)
Fixpoint plain_value (v : json) : bool :=
  match v with
  | JFloat _ => false
  | JStr s => utf8_valid s
  | JArr l => forallb plain_value l
  | JObj members =>
      forallb (fun m => utf8_valid (fst m) && plain_value (snd m)) members
  | _ => true
  end.

(** ** Exceptions, results and the state of a run *)

Inductive exn : Type :=
| JSONDecodeError         (* json.JSONDecodeError, a ValueError *)
| ValueError              (* any other ValueError, UnicodeDecodeError too *)
| RuntimeError
| UnboundLocalError
| AttributeError
| TypeError
| KeyError
| OSError                 (* connection and file errors *)
| OtherException.

(** the classes named by [except (json.JSONDecodeError, ValueError,
    RuntimeError)] *)
Definition caught_by_retry (x : exn) : bool :=
  match x with
  | JSONDecodeError | ValueError | RuntimeError => true
  | _ => false
  end.

Definition is_JSONDecodeError (x : exn) : bool :=
  match x with JSONDecodeError => true | _ => false end.

Inductive result (A : Type) : Type :=
| Ret (a : A)
| Raise (x : exn).
Arguments Ret {A} a.
Arguments Raise {A} x.

(** a value that is a [str] or [None] *)
Definition pytext : Type := option string.

Definition text_truthy (t : pytext) : bool :=
  match t with
  | Some s => negb (String.eqb s "")
  | None => false
  end.

(** the attributes of a [DocumentTranslator] that never change after
    [__init__] *)
Record config : Type := {
  model : string;
  use_online : bool;
  api_key : string;
  max_token : Z;
  system_prompt : string;
  user_prompt : string;
  previous_prompt : string;
  previous_text_default : string
}.

Inductive json_path : Type := SRC_JSON_PATH | FAILED_JSON_PATH.

(** the records handed to [app_logger], one constructor per call in the
    source *)
Inductive log_record : Type :=
| Info_segmenting
| Warn_failed_to_generate_segments
| Info_translating_segments
| Warn_empty_translation
| Warn_not_enough_lines
| Warn_error_retrying (x : exn) (attempt : nat)
| Warn_all_retries_failed (segment : string)
| Warn_saving_last_valid
| Info_progress
| Warn_final_attempt_line_by_line
| Info_retrying_failed_segments
| Info_no_failed_segments
| Error_failed_to_decode_json
| Info_all_text_translated
| Info_cleared_failed_json
| Info_segment_retranslated
| Error_failed_to_read_queue
| Info_no_failed_segments_left
| Warn_error_in_line (count : json) (x : exn) (attempt : nat)
| Info_saving_last_valid_line
| Warn_some_lines_still_failed
| Info_all_lines_retranslated
| Error_failed_to_decode_segment (segment : string).

(** *** The collaborators

    [World] is everything the collaborators own (the source and result
    stores, the state of the model backend); [Progress] is the type of
    the progress fractions the Segmenter hands out. *)
Record Collaborators (World Progress : Type) : Type := {
  (** [stream_segment_json(path, max_token, system_prompt, user_prompt,
      previous_prompt, previous_text)].  Modelled from the spec: the
      Segmenter reads the file when it is called and the generator it
      returns yields a finite sequence of (segment, progress) pairs over
      that snapshot; [None] is the absent stream.  The second argument is
      the content of FAILED_JSON_PATH at the time of the call. *)
  stream_segment_json :
    World -> option string -> json_path -> config -> string ->
    result (option (list (string * Progress)));

  (** [translate_text(segment, previous_text, model, use_online, api_key,
      system_prompt, user_prompt, previous_prompt)] *)
  translate_text :
    World -> string -> string -> config -> World * result pytext;

  (** [process_translation_results(segment, translated_text)]; it owns the
      result store and may also write FAILED_JSON_PATH (second argument and
      second component of the result); the [bool] is the truth value of
      what it returns *)
  process_translation_results :
    World -> option string -> string -> pytext ->
    World * option string * result bool;

  clean_json : pytext -> result string
}.
Arguments stream_segment_json {World Progress} _.
Arguments translate_text {World Progress} _.
Arguments process_translation_results {World Progress} _.
Arguments clean_json {World Progress} _.

Inductive progress_value (Progress : Type) : Type :=
| Fraction (p : Progress)
| Zero.
Arguments Fraction {Progress} p.
Arguments Zero {Progress}.

(** *** The state of a run *)

Record env (World Progress : Type) : Type := {
  world : World;
  failed_json : option string;   (* FAILED_JSON_PATH; [None]: no such file *)
  previous_text : string;        (* self.previous_text *)
  failed_status : bool;          (* self.failed_status *)
  combined_previous_texts : list pytext;
  app_log : list log_record;     (* latest record first *)
  progress_log : list (progress_value Progress * string)  (* latest call first *)
}.
Arguments world {World Progress} _.
Arguments failed_json {World Progress} _.
Arguments previous_text {World Progress} _.
Arguments failed_status {World Progress} _.
Arguments combined_previous_texts {World Progress} _.
Arguments app_log {World Progress} _.
Arguments progress_log {World Progress} _.

Section Pipeline.

Context {World Progress : Type}.
Variable cfg : config.
Variable K : Collaborators World Progress.

#[local] Abbreviation env := (env World Progress).

Definition M (A : Type) : Type := env -> result A * env.

Definition ret {A} (a : A) : M A := fun e => (Ret a, e).
Definition raise {A} (x : exn) : M A := fun e => (Raise x, e).
Definition lift {A} (r : result A) : M A := fun e => (r, e).

Definition bind {A B} (m : M A) (k : A -> M B) : M B :=
  fun e =>
    match m e with
    | (Ret a, e') => k a e'
    | (Raise x, e') => (Raise x, e')
    end.

(** [try: m  except <classes>: h] *)
Definition try_except {A} (m : M A) (classes : exn -> bool) (h : exn -> M A)
  : M A :=
  fun e =>
    match m e with
    | (Raise x, e') => if classes x then h x e' else (Raise x, e')
    | r => r
    end.

Notation "x <- m ;; k" := (bind m (fun x => k))
  (at level 61, m at next level, right associativity).
Notation "m ;; k" := (bind m (fun _ => k))
  (at level 61, right associativity).

Definition update (f : env -> env) : M unit := fun e => (Ret tt, f e).
Definition get {A} (f : env -> A) : M A := fun e => (Ret (f e), e).

Definition set_world (w : World) (e : env) : env :=
  {| world := w; failed_json := failed_json e;
     previous_text := previous_text e; failed_status := failed_status e;
     combined_previous_texts := combined_previous_texts e;
     app_log := app_log e; progress_log := progress_log e |}.

Definition set_failed_json (f : option string) (e : env) : env :=
  {| world := world e; failed_json := f;
     previous_text := previous_text e; failed_status := failed_status e;
     combined_previous_texts := combined_previous_texts e;
     app_log := app_log e; progress_log := progress_log e |}.

Definition set_previous_text (t : string) (e : env) : env :=
  {| world := world e; failed_json := failed_json e;
     previous_text := t; failed_status := failed_status e;
     combined_previous_texts := combined_previous_texts e;
     app_log := app_log e; progress_log := progress_log e |}.

Definition set_failed_status (b : bool) (e : env) : env :=
  {| world := world e; failed_json := failed_json e;
     previous_text := previous_text e; failed_status := b;
     combined_previous_texts := combined_previous_texts e;
     app_log := app_log e; progress_log := progress_log e |}.

Definition set_combined (l : list pytext) (e : env) : env :=
  {| world := world e; failed_json := failed_json e;
     previous_text := previous_text e; failed_status := failed_status e;
     combined_previous_texts := l;
     app_log := app_log e; progress_log := progress_log e |}.

Definition add_log (r : log_record) (e : env) : env :=
  {| world := world e; failed_json := failed_json e;
     previous_text := previous_text e; failed_status := failed_status e;
     combined_previous_texts := combined_previous_texts e;
     app_log := r :: app_log e; progress_log := progress_log e |}.

Definition add_progress (p : progress_value Progress) (desc : string) (e : env) : env :=
  {| world := world e; failed_json := failed_json e;
     previous_text := previous_text e; failed_status := failed_status e;
     combined_previous_texts := combined_previous_texts e;
     app_log := app_log e; progress_log := (p, desc) :: progress_log e |}.

Definition log (r : log_record) : M unit := update (add_log r).

(** [combined_previous_texts.append(t)] *)
Definition append_combined (t : pytext) : M unit :=
  update (fun e => set_combined (combined_previous_texts e ++ [t])%list e).

(** calls of the collaborators *)
Definition call_translate_text (segment : string) : M (result pytext) :=
  fun e =>
    let '(w, r) := translate_text K (world e) segment (previous_text e) cfg in
    (Ret r, set_world w e).

Definition call_process_translation_results (segment : string) (t : pytext)
  : M bool :=
  fun e =>
    let '(w, f, r) :=
      process_translation_results K (world e) (failed_json e) segment t in
    (r, set_failed_json f (set_world w e)).

Definition call_stream_segment_json (path : json_path)
  : M (option (list (string * Progress))) :=
  fun e =>
    (stream_segment_json K (world e) (failed_json e) path cfg (previous_text e), e).

(** [if progress_callback: progress_callback(p, desc=...)], followed by
    the progress record of the log where the source has one *)
Definition report_progress (progress_callback : bool) (p : progress_value Progress)
    (desc : string) (logged : bool) : M unit :=
  if progress_callback then
    update (add_progress p desc) ;;
    (if logged then log Info_progress else ret tt)
  else ret tt.

(** *** [_mark_segment_as_failed] *)

(** the loop [for count, value in segment_dict.items():
    failed_segments.append({"count": int(count), "value": value.strip()})] *)
Fixpoint append_failed (items : list (string * json)) (failed_segments : json)
  : result json :=
  match items with
  | [] => Ret failed_segments
  | (count, value) :: rest =>
      match failed_segments with
      | JArr l =>
          match py_int count with
          | None => Raise ValueError
          | Some n =>
              match value with
              | JStr s =>
                  append_failed rest
                    (JArr (l ++ [JObj [("count", JInt n);
                                       ("value", JStr (strip s))]])%list)
              | _ => Raise AttributeError
              end
          end
      | _ => Raise AttributeError    (* no [append] on what is not a list *)
      end
  end.

(** [segment_dict.items()] *)
Definition items (segment_dict : json) : result (list (string * json)) :=
  match segment_dict with
  | JObj members => Ret members
  | _ => Raise AttributeError
  end.

Definition _mark_segment_as_failed (segment : string) : M unit :=
  present <- get failed_json ;;
  (match present with
   | None => update (set_failed_json (Some (json_dumps (JArr []))))
   | Some _ => ret tt
   end) ;;
  file <- get failed_json ;;
  let old := match file with Some text => text | None => "" end in
  (* [json.load(f)] reads the file first: bytes that are no UTF-8 raise
     UnicodeDecodeError, which [except json.JSONDecodeError] lets through *)
  (if utf8_valid old then ret tt else raise ValueError) ;;
  let failed_segments :=
    match json_loads old with
    | Some v => v
    | None => JArr []
    end in
  decoded <-
    try_except
      (clean_segment <- lift (clean_json K (Some segment)) ;;
       match json_loads clean_segment with
       | Some segment_dict => ret (Some segment_dict)
       | None => raise JSONDecodeError
       end)
      is_JSONDecodeError
      (fun _ => log (Error_failed_to_decode_segment segment) ;; ret None) ;;
  match decoded with
  | None => ret tt
  | Some segment_dict =>
      members <- lift (items segment_dict) ;;
      failed_segments' <- lift (append_failed members failed_segments) ;;
      update (set_failed_json (Some (overwrite old (json_dumps failed_segments'))))
  end.

(** *** [_convert_failed_segments_to_json] *)

(** [obj[key]] for a [str] key *)
Definition subscript (obj : json) (key : string) : result json :=
  match obj with
  | JObj members =>
      match dict_get key members with
      | Some v => Ret v
      | None => Raise KeyError
      end
  | _ => Raise TypeError
  end.

(** the key [json.dumps] writes for a dictionary key; lists and
    dictionaries cannot be keys at all *)
Definition dumped_key (k : json) : result string :=
  match k with
  | JStr s => Ret s
  | JInt z => Ret (py_repr_int z)
  | JFloat raw => Ret raw
  | JBool true => Ret "true"
  | JBool false => Ret "false"
  | JNull => Ret "null"
  | JArr _ | JObj _ => Raise TypeError
  end.

Definition _convert_failed_segments_to_json (failed_segments : json)
  : result string :=
  match subscript failed_segments "count" with
  | Raise x => Raise x
  | Ret count =>
      match subscript failed_segments "value" with
      | Raise x => Raise x
      | Ret value =>
          match dumped_key count with
          | Raise x => Raise x
          | Ret k => Ret (json_dumps (JObj [(k, value)]))
          end
      end
  end.

(** *** [translate_content]: the primary pass *)

(** the body of the [try] after the call of [translate_text] returned
    [translated_text] *)
Definition primary_try (segment : string) (translated_text : pytext) : M unit :=
  (if text_truthy translated_text then ret tt
   else log Warn_empty_translation ;; raise ValueError) ;;
  call_process_translation_results segment translated_text ;;
  cleaned_text <- lift (clean_json K translated_text) ;;
  let translated_lines := splitlines cleaned_text in
  (if (4 <=? length translated_lines)%nat then
     update (set_previous_text (join nl (py_slice translated_lines (-4) (-1))))
   else
     log Warn_not_enough_lines ;;
     update (set_previous_text (previous_text_default cfg))) ;;
  append_combined translated_text.

(** One round of [for retry_count in range(2)].  [translated_text] is
    the local variable of the method: [None] while it is unbound.  The
    result is the variable afterwards and, unless the round ended in
    [break], the new value of [last_valid_translated_text]. *)
Definition primary_attempt (segment : string) (retry_count : nat)
    (translated_text : option pytext)
  : M (option pytext * option pytext) :=
  r <- call_translate_text segment ;;
  let translated_text' :=
    match r with Ret t => Some t | Raise _ => translated_text end in
  try_except
    (t <- lift r ;;
     primary_try segment t ;;
     ret (translated_text', None))
    caught_by_retry
    (fun x =>
       log (Warn_error_retrying x (S retry_count)) ;;
       match translated_text' with
       | None => raise UnboundLocalError
       | Some last_valid_translated_text =>
           (if Nat.eqb retry_count 1 then
              log (Warn_all_retries_failed segment) ;;
              _mark_segment_as_failed segment
            else ret tt) ;;
           ret (translated_text', Some last_valid_translated_text)
       end).

(** the loop over [range(2)] with its [else] clause *)
Fixpoint primary_retries (retries : list nat) (segment : string)
    (translated_text : option pytext) (last_valid_translated_text : pytext)
  : M (option pytext) :=
  match retries with
  | [] =>
      (if text_truthy last_valid_translated_text then
         log Warn_saving_last_valid ;;
         append_combined last_valid_translated_text
       else ret tt) ;;
      ret translated_text
  | retry_count :: rest =>
      a <- primary_attempt segment retry_count translated_text ;;
      match a with
      | (translated_text', None) => ret translated_text'
      | (translated_text', Some last) =>
          primary_retries rest segment translated_text' last
      end
  end.

Fixpoint primary_pass (progress_callback : bool)
    (segments : list (string * Progress)) (translated_text : option pytext)
  : M unit :=
  match segments with
  | [] => ret tt
  | (segment, segment_progress) :: rest =>
      translated_text' <- primary_retries [0; 1]%nat segment translated_text None ;;
      report_progress progress_callback (Fraction segment_progress)
        "Translating...Please wait." true ;;
      primary_pass progress_callback rest translated_text'
  end.

(** *** [retranslate_failed_content]: one round of the batch retry *)

Definition call_process_translation_results_r (segment : string) (t : pytext)
  : M (result bool) :=
  fun e =>
    let '(w, f, r) :=
      process_translation_results K (world e) (failed_json e) segment t in
    (Ret r, set_failed_json f (set_world w e)).

(** the [except] clause of the batch retry *)
Definition batch_except (retry_count : nat) (translated_text : option pytext)
    (has_translated_success : bool) (x : exn)
  : M (option pytext * bool * option pytext) :=
  log (Warn_error_retrying x (S retry_count)) ;;
  match translated_text with
  | None => raise UnboundLocalError
  | Some last_valid_translated_text =>
      ret (translated_text, has_translated_success,
           Some last_valid_translated_text)
  end.

(** One round of [for retry_count in range(2)]: the local variables
    [translated_text] and [has_translated_success] afterwards and, unless
    the round ended in [break], the new [last_valid_translated_text]. *)
Definition batch_attempt (segment : string) (retry_count : nat)
    (translated_text : option pytext) (has_translated_success : bool)
  : M (option pytext * bool * option pytext) :=
  r <- call_translate_text segment ;;
  match r with
  | Raise x =>
      if caught_by_retry x
      then batch_except retry_count translated_text has_translated_success x
      else raise x
  | Ret t =>
      rr <- call_process_translation_results_r segment t ;;
      let has' :=
        match rr with
        | Ret true => true
        | _ => has_translated_success
        end in
      try_except
        (lift rr ;;
         log Info_segment_retranslated ;;
         cleaned <- lift (clean_json K t) ;;
         let last_3_entries := py_slice (splitlines cleaned) (-4) (-1) in
         update (set_previous_text (join nl last_3_entries)) ;;
         append_combined t ;;
         ret (Some t, has', None))
        caught_by_retry
        (batch_except retry_count (Some t) has')
  end.

Fixpoint batch_retries (retries : list nat) (segment : string)
    (translated_text : option pytext) (has_translated_success : bool)
    (last_valid_translated_text : pytext)
  : M (option pytext * bool) :=
  match retries with
  | [] =>
      (if text_truthy last_valid_translated_text then
         log Warn_saving_last_valid ;;
         append_combined last_valid_translated_text
       else ret tt) ;;
      ret (translated_text, has_translated_success)
  | retry_count :: rest =>
      a <- batch_attempt segment retry_count translated_text
             has_translated_success ;;
      match a with
      | (translated_text', has', None) => ret (translated_text', has')
      | (translated_text', has', Some last) =>
          batch_retries rest segment translated_text' has' last
      end
  end.

Fixpoint batch_segments (progress_callback : bool)
    (segments : list (string * Progress)) (translated_text : option pytext)
    (has_translated_success : bool)
  : M bool :=
  match segments with
  | [] => ret has_translated_success
  | (segment, segment_progress) :: rest =>
      a <- batch_retries [0; 1]%nat segment translated_text
             has_translated_success None ;;
      report_progress progress_callback (Fraction segment_progress)
        "Missing detected! Re-translating..." true ;;
      batch_segments progress_callback rest (fst a) (snd a)
  end.

Definition retranslate_failed_content (progress_callback : bool) : M bool :=
  log Info_retrying_failed_segments ;;
  file <- get failed_json ;;
  match file with
  | None => log Info_no_failed_segments ;; ret false
  | Some text =>
      (* [json.load(f)] reads the file first: bytes that are no UTF-8 raise
         UnicodeDecodeError, which [except json.JSONDecodeError] lets
         through *)
      if negb (utf8_valid text) then raise ValueError else
      match json_loads text with
      | None => log Error_failed_to_decode_json ;; ret false
      | Some data =>
          if negb (truthy data) then log Info_no_failed_segments ;; ret false
          else
            stream_generator_failed <- call_stream_segment_json FAILED_JSON_PATH ;;
            match stream_generator_failed with
            | None => log Info_all_text_translated ;; ret false
            | Some segments =>
                present <- get failed_json ;;
                (match present with
                 | Some _ =>
                     update (set_failed_json (Some "[]")) ;;
                     log Info_cleared_failed_json
                 | None => ret tt
                 end) ;;
                batch_segments progress_callback segments None false
            end
      end
  end.

(** *** [_retranslate_failed_lines] *)

(** the body of the [try] after [translate_text] returned; the result is
    the new [last_valid_line_translation] *)
Definition line_try (text_failed : string) (translated_line : pytext)
  : M string :=
  call_process_translation_results text_failed translated_line ;;
  match translated_line with
  | None => raise AttributeError        (* [None] has no [strip] *)
  | Some s =>
      let last_valid_line_translation := strip s in
      let lines := splitlines last_valid_line_translation in
      (if (3 <=? length lines)%nat then
         update (set_previous_text (join nl (py_slice_from lines (-3))))
       else update (set_previous_text (previous_text_default cfg))) ;;
      ret last_valid_line_translation
  end.

(** one round of [for retry in range(2)]: [Some] of the stored line when
    the round ended in [break] *)
Definition line_attempt (count : json) (text_failed : string) (retry : nat)
  : M (option string) :=
  r <- call_translate_text text_failed ;;
  try_except
    (t <- lift r ;;
     last <- line_try text_failed t ;;
     ret (Some last))
    caught_by_retry
    (fun x => log (Warn_error_in_line count x (S retry)) ;; ret None).

(** the entry that goes back to the queue *)
Definition requeued (count text_value : json) : json :=
  JObj [("count", count); ("value", text_value)].

Fixpoint line_retries (retries : list nat) (count text_value : json)
    (text_failed : string) (last_valid_line_translation : pytext)
    (new_failed_segments : list json)
  : M (list json) :=
  match retries with
  | [] =>
      if text_truthy last_valid_line_translation then
        log Info_saving_last_valid_line ;; ret new_failed_segments
      else ret (new_failed_segments ++ [requeued count text_value])%list
  | retry :: rest =>
      a <- line_attempt count text_failed retry ;;
      match a with
      | Some _ => ret new_failed_segments
      | None =>
          line_retries rest count text_value text_failed
            last_valid_line_translation new_failed_segments
      end
  end.

Fixpoint line_entries (progress_callback : bool) (failed_segments : list json)
    (new_failed_segments : list json)
  : M (list json) :=
  match failed_segments with
  | [] => ret new_failed_segments
  | entry :: rest =>
      count <- lift (subscript entry "count") ;;
      text_value <- lift (subscript entry "value") ;;
      text_failed <- lift (_convert_failed_segments_to_json entry) ;;
      new_failed' <- line_retries [0; 1]%nat count text_value text_failed None
                       new_failed_segments ;;
      report_progress progress_callback Zero "Line-by-line retranslation..."
        false ;;
      line_entries progress_callback rest new_failed'
  end.

Definition _retranslate_failed_lines (progress_callback : bool) : M unit :=
  file <- get failed_json ;;
  match file with
  | None => ret tt
  | Some text =>
      (* UnicodeDecodeError is neither a json.JSONDecodeError nor an
         OSError *)
      if negb (utf8_valid text) then raise ValueError else
      match json_loads text with
      | None => log Error_failed_to_read_queue ;; ret tt
      | Some failed_segments =>
          if negb (truthy failed_segments)
          then log Info_no_failed_segments_left ;; ret tt
          else
            update (set_failed_json (Some "[]")) ;;
            entries <-
              match failed_segments with
              | JArr l => ret l
              | _ => raise TypeError     (* nothing else yields entries *)
              end ;;
            new_failed_segments <- line_entries progress_callback entries [] ;;
            match new_failed_segments with
            | [] => log Info_all_lines_retranslated
            | _ =>
                update (set_failed_json
                          (Some (json_dumps (JArr new_failed_segments)))) ;;
                log Warn_some_lines_still_failed
            end
      end
  end.

(** *** [translate_content] *)

(** [for _ in range(n): if not self.failed_status: break;
    self.failed_status = self.retranslate_failed_content(...)] *)
Fixpoint batch_rounds (progress_callback : bool) (n : nat) : M unit :=
  match n with
  | O => ret tt
  | S n' =>
      failed <- get failed_status ;;
      if negb failed then ret tt
      else
        r <- retranslate_failed_content progress_callback ;;
        update (set_failed_status r) ;;
        batch_rounds progress_callback n'
  end.

(** the statements of [translate_content] after the primary loop *)
Definition recovery_tiers (progress_callback : bool) : M unit :=
  batch_rounds progress_callback 3 ;;
  failed <- get failed_status ;;
  if failed then
    log Warn_final_attempt_line_by_line ;;
    _retranslate_failed_lines progress_callback
  else ret tt.

Definition translate_content (progress_callback : bool) : M unit :=
  log Info_segmenting ;;
  stream_generator <- call_stream_segment_json SRC_JSON_PATH ;;
  match stream_generator with
  | None => log Warn_failed_to_generate_segments ;; ret tt
  | Some segments =>
      log Info_translating_segments ;;
      update (set_combined []) ;;
      primary_pass progress_callback segments None ;;
      recovery_tiers progress_callback
  end.

End Pipeline.


(** ** Scripted collaborators, to run the pipeline on concrete documents *)

Module Demo.

(** The world of the scripted collaborators: the outcomes the model
    backend is going to produce, call after call; the requests it has
    received (segment and context window, latest first); the segments of
    the document with their progress in percent; the result store, which
    maps unit ids to accepted translations. *)
Record state : Type := {
  script : list (result pytext);
  requests : list (string * string);
  source : list (string * nat);
  store : list (string * json)
}.

(** the Translation Invoker replays the script; a backend that has run
    out of answers fails *)
Definition invoker (w : state) (segment previous_text : string) (_ : config)
  : state * result pytext :=
  let asked := (segment, previous_text) :: requests w in
  match script w with
  | r :: rest =>
      ({| script := rest; requests := asked; source := source w;
          store := store w |}, r)
  | [] =>
      ({| script := []; requests := asked; source := source w;
          store := store w |}, Raise RuntimeError)
  end.

(** the Segmenter: the segments of the document for SRC_JSON_PATH, one
    single-unit segment per queue entry for FAILED_JSON_PATH, the absent
    stream when there is no unit *)
Fixpoint queue_segments (entries : list json) (done : nat)
  : result (list (string * nat)) :=
  match entries with
  | [] => Ret []
  | entry :: rest =>
      match _convert_failed_segments_to_json entry with
      | Raise x => Raise x
      | Ret segment =>
          match queue_segments rest (S done) with
          | Raise x => Raise x
          | Ret l => Ret ((segment, S done) :: l)
          end
      end
  end.

Definition segmenter (w : state) (queue : option string) (path : json_path)
    (_ : config) (_ : string)
  : result (option (list (string * nat))) :=
  match path with
  | SRC_JSON_PATH =>
      Ret (match source w with [] => None | l => Some l end)
  | FAILED_JSON_PATH =>
      match queue with
      | None => Raise OSError
      | Some text =>
          match json_loads text with
          | Some (JArr (entry :: rest)) =>
              match queue_segments (entry :: rest) 0 with
              | Raise x => Raise x
              | Ret l => Ret (Some l)
              end
          | _ => Ret None
          end
      end
  end.

(** Modelled from the spec: the Result Recorder, [record(segment,
    translatedText) -> bool], answers whether the call yielded at least
    one new success and is idempotent per unit.  A unit of the segment is
    a success when the output maps its id to a non-empty text.  The
    units of the segment that stay unresolved are returned as well. *)
Fixpoint record_units (units : list (string * json))
    (translated : list (string * json)) (st : list (string * json))
  : list (string * json) * bool * list (string * json) :=
  match units with
  | [] => (st, false, [])
  | (k, v) :: rest =>
      match dict_get k st with
      | Some _ => record_units rest translated st
      | None =>
          match dict_get k translated with
          | Some (JStr t) =>
              if String.eqb t "" then
                let '(st', fresh, unresolved) := record_units rest translated st in
                (st', fresh, (k, v) :: unresolved)
              else
                let '(st', _, unresolved) :=
                  record_units rest translated (st ++ [(k, JStr t)])%list in
                (st', true, unresolved)
          | _ =>
              let '(st', fresh, unresolved) := record_units rest translated st in
              (st', fresh, (k, v) :: unresolved)
          end
      end
  end.

(** what a recorder that re-queues does with the unresolved units: it
    rewrites FAILED_JSON_PATH with its entries followed by theirs *)
Definition requeue_units (queue : option string) (unresolved : list (string * json))
  : option string :=
  match unresolved with
  | [] => queue
  | _ =>
      let entries :=
        match queue with
        | Some text =>
            match json_loads text with Some (JArr l) => l | _ => [] end
        | None => []
        end in
      match append_failed unresolved (JArr entries) with
      | Ret v => Some (json_dumps v)
      | Raise _ => queue
      end
  end.

(** the Result Recorder; with [requeue] it also puts the units it could
    not resolve back in the Failure Queue *)
Definition recorder (requeue : bool) (w : state) (queue : option string)
    (segment : string) (translated_text : pytext)
  : state * option string * result bool :=
  match translated_text with
  | None => (w, queue, Raise ValueError)
  | Some text =>
      match json_loads segment, json_loads text with
      | Some (JObj units), Some (JObj translated) =>
          let '(st, fresh, unresolved) := record_units units translated (store w) in
          ({| script := script w; requests := requests w; source := source w;
              store := st |},
           if requeue then requeue_units queue unresolved else queue,
           Ret fresh)
      | Some (JObj _), Some _ => (w, queue, Raise ValueError)
      | _, _ => (w, queue, Raise JSONDecodeError)
      end
  end.

(** [clean_json] leaves a text as it is *)
Definition cleaner (t : pytext) : result string :=
  match t with
  | Some s => Ret s
  | None => Ret ""
  end.

Definition collaborators (requeue : bool) : Collaborators state nat :=
  {| stream_segment_json := segmenter;
     translate_text := invoker;
     process_translation_results := recorder requeue;
     clean_json := cleaner |}.

Definition settings : config :=
  {| model := "demo"; use_online := false; api_key := "";
     max_token := 768;
     system_prompt := ""; user_prompt := ""; previous_prompt := "";
     previous_text_default := "DEFAULT" |}.

(** a fresh translator ([failed_status] is [True] after [__init__]) over
    a scratch folder that holds [queue] *)
Definition fresh (w : state) (queue : option string) : env state nat :=
  {| world := w; failed_json := queue;
     previous_text := previous_text_default settings;
     failed_status := true; combined_previous_texts := [];
     app_log := []; progress_log := [] |}.

(** a segment, a model output: the JSON text of a mapping from unit ids
    to texts *)
Definition mapping (units : list (string * string)) : string :=
  json_dumps (JObj (map (fun u => (fst u, JStr (snd u))) units)).

Definition answers (units : list (string * string)) : result pytext :=
  Ret (Some (mapping units)).

Definition document (segments : list (list (string * string)))
  : list (string * nat) :=
  map (fun s => (mapping s, 0%nat)) segments.

Definition backend (answers : list (result pytext))
    (segments : list (list (string * string))) : state :=
  {| script := answers; requests := []; source := document segments;
     store := [] |}.

End Demo.


(** ** Units and queue entries *)

(** the entry of the Failure Queue for a unit *)
Definition entry_json (u : Z * string) : json :=
  requeued (JInt (fst u)) (JStr (snd u)).

(** the queue file as the pipeline writes it *)
Definition queue_file (units : list (Z * string)) : string :=
  json_dumps (JArr (map entry_json units)).




(** the tokens of a queue file, the sizes of its parts *)
Definition entry_tokens (u : Z * string) : list token :=
  [TLBrace; TAtom (JStr "count"); TColon; TAtom (JInt (fst u)); TComma;
   TAtom (JStr "value"); TColon; TAtom (JStr (snd u)); TRBrace].

Definition queue_tokens (units : list (Z * string)) : list token :=
  match units with
  | [] => [TLBrack; TRBrack]
  | u :: rest =>
      TLBrack :: entry_tokens u
      ++ flat_map (fun u => TComma :: entry_tokens u) rest ++ [TRBrack]
  end%list.

Definition oapp (ts : list token) (o : option (list token))
  : option (list token) :=
  option_map (List.app ts) o.

Definition entries_size (lvl : nat) (l : list json) : nat :=
  fold_right
    (fun y n => (6 + 4 * lvl + String.length (json_dumps_at (S lvl) y) + n)%nat)
    0%nat l.

Fixpoint all_chars (p : ascii -> bool) (s : string) : bool :=
  match s with
  | "" => true
  | String c r => p c && all_chars p r
  end.

(** a text that may follow a number: nothing, white space, or the end
    of a member or an item *)
Definition delimited (rest : string) : bool :=
  match rest with
  | "" => true
  | String c _ =>
      is_json_ws c || match closer c with Some _ => true | None => false end
  end.

(** the text of FAILED_JSON_PATH once [_mark_segment_as_failed] has made
    sure that the file exists *)
Definition queue_text {W P} (e : env W P) : string :=
  match failed_json e with
  | Some text => text
  | None => "[]"
  end.



(** the state in which [translate_content] enters its loop over the
    segments *)
Definition primary_start {W P} (e : env W P) : env W P :=
  set_combined [] (add_log Info_translating_segments (add_log Info_segmenting e)).

(** ** The runs used in the examples *)

Module Scenario.

(** the text of a queue file that holds the given units *)
Definition queue_of (units : list (Z * string)) : string := queue_file units.

(** a document of one segment whose first request fails in the backend *)
Definition first_call_fails : env Demo.state nat :=
  Demo.fresh (Demo.backend [Raise RuntimeError] [[("1", "hello")]]) None.

(** a document of two segments; the backend fails on the first request
    with a [ValueError] and would answer the following ones *)
Definition first_call_fails_then_answers : env Demo.state nat :=
  Demo.fresh
    (Demo.backend
       [Raise ValueError; Demo.answers [("1", "un")]; Demo.answers [("2", "deux")]]
       [[("1", "one")]; [("2", "two")]])
    None.

(** a queue of two units; the backend answers the first and fails twice
    on the second *)
Definition second_segment_fails : env Demo.state nat :=
  Demo.fresh
    (Demo.backend
       [Demo.answers [("1", "bonjour")]; Raise RuntimeError; Raise RuntimeError] [])
    (Some (queue_of [(1, "hello"); (2, "world")]%Z)).

(** a queue of one unit that the backend answers with a three-line
    mapping *)
Definition short_answer_in_batch : env Demo.state nat :=
  Demo.fresh (Demo.backend [Demo.answers [("1", "bonjour")]] [])
    (Some (queue_of [(1, "hello")]%Z)).

(** the same answer, given in the primary pass *)
Definition short_answer_in_primary : env Demo.state nat :=
  Demo.fresh (Demo.backend [Demo.answers [("1", "bonjour")]] [[("1", "hello")]])
    None.

(** a document of one unit: the backend returns nothing twice, then, in
    the batch retry, a mapping that misses the unit *)
Definition unit_never_resolved : env Demo.state nat :=
  Demo.fresh
    (Demo.backend [Ret (Some ""); Ret (Some ""); Demo.answers [("2", "x")]]
       [[("1", "hello")]])
    None.

(** a queue of four units; each batch round resolves one of them, the
    line-by-line tier the last *)
Definition one_unit_per_round : env Demo.state nat :=
  Demo.fresh
    (Demo.backend
       [Demo.answers [("1", "un")]; Demo.answers [("0", "")];
        Demo.answers [("0", "")]; Demo.answers [("0", "")];
        Demo.answers [("2", "deux")]; Demo.answers [("0", "")];
        Demo.answers [("0", "")];
        Demo.answers [("3", "trois")]; Demo.answers [("0", "")];
        Demo.answers [("4", "quatre")]] [])
    (Some (queue_of [(1, "one"); (2, "two"); (3, "three"); (4, "four")]%Z)).

Definition one_unit_per_round_after_batch : env Demo.state nat :=
  Eval vm_compute in
    snd (batch_rounds Demo.settings (Demo.collaborators true) false 3
           one_unit_per_round).



(** a queue of three units for the line-by-line tier: the backend
    answers unit 1 at once, fails twice on unit 2, and answers unit 3 on
    the second attempt *)
Definition three_lines : env Demo.state nat :=
  Demo.fresh
    (Demo.backend
       [Demo.answers [("1", "un")]; Raise RuntimeError; Raise RuntimeError;
        Raise ValueError; Demo.answers [("3", "trois")]] [])
    (Some (queue_of [(1, "one"); (2, "two"); (3, "three")]%Z)).

Definition three_lines_after : env Demo.state nat :=
  Eval vm_compute in
    snd (_retranslate_failed_lines Demo.settings (Demo.collaborators false) true
           three_lines).


End Scenario.

(** ** The line-by-line tier, seen from outside *)

Inductive subsequence {A : Type} : list A -> list A -> Prop :=
| subsequence_nil : subsequence [] []
| subsequence_skip (x : A) (l l' : list A) :
    subsequence l l' -> subsequence l (x :: l')
| subsequence_keep (x : A) (l l' : list A) :
    subsequence l l' -> subsequence (x :: l) (x :: l').

(** the unit ids for which the log reports that the second of the two
    attempts failed ("Error in line ...: Retrying (2/2)"), latest first *)
Definition exhausted_counts (l : list log_record) : list json :=
  flat_map (fun r =>
              match r with
              | Warn_error_in_line count _ 2 => [count]
              | _ => []
              end) l.

(** a Result Recorder that leaves FAILED_JSON_PATH as it finds it *)
Definition queue_kept {W P} (K : Collaborators W P) : Prop :=
  forall w q s t, snd (fst (process_translation_results K w q s t)) = q.

(** a property of the content of FAILED_JSON_PATH that no call of the
    Result Recorder destroys *)
Definition recorder_invariant {W P} (K : Collaborators W P)
    (I : option string -> Prop) : Prop :=
  forall w q s t, I q -> I (snd (fst (process_translation_results K w q s t))).


(** a step of the pipeline that leaves FAILED_JSON_PATH as it finds it *)
Definition keeps_queue {W P A} (m : M (World:=W) (Progress:=P) A) : Prop :=
  forall e, failed_json (snd (m e)) = failed_json e.

(** ** What a run leaves in the log *)

Definition count_records (p : log_record -> bool) (l : list log_record) : nat :=
  length (filter p l).

(** a round of the batch retry starts with this record *)
Definition is_round_start (r : log_record) : bool :=
  match r with Info_retrying_failed_segments => true | _ => false end.

(** the line-by-line tier is announced by this record *)
Definition is_line_tier_start (r : log_record) : bool :=
  match r with Warn_final_attempt_line_by_line => true | _ => false end.

Definition rounds_started {W P} (e : env W P) : nat :=
  count_records is_round_start (app_log e).

Definition line_tiers_started {W P} (e : env W P) : nat :=
  count_records is_line_tier_start (app_log e).

(** a test that only tells the starts of the recovery tiers apart *)
Definition tier_test (p : log_record -> bool) : Prop :=
  forall r, p r = true ->
            r = Info_retrying_failed_segments \/ r = Warn_final_attempt_line_by_line.

(** a computation that adds no record the test counts *)
Definition silent {W P A} (p : log_record -> bool) (m : M (World:=W) (Progress:=P) A) : Prop :=
  forall e, count_records p (app_log (snd (m e))) = count_records p (app_log e).


(** FAILED_JSON_PATH is there and its bytes are no UTF-8 *)
Definition undecodable (queue : option string) : bool :=
  match queue with
  | None => false
  | Some text => negb (utf8_valid text)
  end.


(** ** Further observations of a run *)

(** a step of the pipeline that leaves an attribute of the state as it
    finds it *)
Definition keeps {W P A X} (f : env W P -> X) (m : M (World:=W) (Progress:=P) A)
  : Prop :=
  forall e, f (snd (m e)) = f e.

(** an attribute that is neither the world of the collaborators nor the
    queue file, the log or the progress reports *)
Definition own_attribute {W P X} (f : env W P -> X) : Prop :=
  (forall w e, f (set_world w e) = f e)
  /\ (forall q e, f (set_failed_json q e) = f e)
  /\ (forall l e, f (set_combined l e) = f e)
  /\ (forall r e, f (add_log r e) = f e)
  /\ (forall p d e, f (add_progress p d e) = f e).

(** the collaborators with a counter of the calls of [translate_text]
    beside their world *)
Definition counting {W P} (K : Collaborators W P) : Collaborators (W * nat) P :=
  {| stream_segment_json := fun w => stream_segment_json K (fst w);
     translate_text :=
       fun w segment previous cfg =>
         let '(w', r) := translate_text K (fst w) segment previous cfg in
         ((w', S (snd w)), r);
     process_translation_results :=
       fun w queue segment t =>
         let '(w', queue', r) :=
           process_translation_results K (fst w) queue segment t in
         ((w', snd w), queue', r);
     clean_json := clean_json K |}.

Definition calls {W P} (e : env (W * nat) P) : nat := snd (world e).

(** a step that makes at most [k] calls of [translate_text] *)
Definition costs {W P A} (k : nat) (m : M (World:=W * nat) (Progress:=P) A)
  : Prop :=
  forall e, (calls (snd (m e)) <= calls e + k)%nat.

Module Cases.



(** a document of two segments; the connection to the backend breaks at
    the first request *)
Definition connection_lost : env Demo.state nat :=
  Demo.fresh
    (Demo.backend [Raise OSError; Demo.answers [("1", "un")]]
       [[("1", "one")]; [("2", "two")]])
    None.

(** a translator that has finished a document, given another one whose
    only segment the backend answers with nothing *)
Definition second_document : env Demo.state nat :=
  set_failed_status false
    (Demo.fresh (Demo.backend [Ret (Some ""); Ret (Some "")] [[("1", "one")]])
       None).

(** a Result Recorder that stores what it is given and never answers
    that a call yielded a new success *)
Definition deaf_recorder (w : Demo.state) (queue : option string)
    (segment : string) (t : pytext)
  : Demo.state * option string * result bool :=
  match Demo.recorder false w queue segment t with
  | (w', queue', Ret _) => (w', queue', Ret false)
  | r => r
  end.

Definition deaf : Collaborators Demo.state nat :=
  {| stream_segment_json := Demo.segmenter;
     translate_text := Demo.invoker;
     process_translation_results := deaf_recorder;
     clean_json := Demo.cleaner |}.

(** a queue that holds unit 1; the backend answers a line with a mapping
    that has no text for the unit *)
Definition answer_without_the_unit : env Demo.state nat :=
  Demo.fresh (Demo.backend [Demo.answers [("2", "x")]] [])
    (Some (Scenario.queue_of [(1, "one")]%Z)).

(** a scratch folder whose queue file is no UTF-8: the bytes FF FE, with
    which a file saved as UTF-16 starts *)
Definition undecodable_queue : env Demo.state nat :=
  Demo.fresh (Demo.backend [] []) (Some (String (chr 255) (String (chr 254) ""))).

(** a queue file that was cut inside a character: the file of a unit
    whose text ends in U+00E9, up to the first of the two bytes of that
    character *)
Definition cut_text : string :=
  substring 0 50 (Scenario.queue_of [(1, "caf" ++ utf8 233)]%Z).

Definition cut_queue : env Demo.state nat :=
  Demo.fresh (Demo.backend [] []) (Some cut_text).

(** forty times U+4F60, as a text and as [json.dump] writes it with
    [ensure_ascii=True] *)
Fixpoint times (n : nat) (s : string) : string :=
  match n with
  | O => ""
  | S n' => s ++ times n' s
  end.

Definition forty_characters : string := times 40 (utf8 20320).

(** a queue file that holds unit 1 on one line, its text in \u escapes *)
Definition escaped_text : string :=
  "[{" ++ json_quote "count" ++ ": 1, " ++ json_quote "value" ++ ": "
  ++ str1 quote_char ++ times 40 "\u4f60" ++ str1 quote_char ++ "}]".

Definition escaped_queue : env Demo.state nat :=
  Demo.fresh (Demo.backend [] []) (Some escaped_text).

Definition segment_2 : string := Demo.mapping [("2", "two")].

End Cases.

(** ** The application, [src/app.py] *)

Module App.

(** *** Texts *)

(** [str.lower()] on the letters of ASCII; it is applied here to texts
    that are compared with ASCII texts, and the theorems that depend on
    it are stated for ASCII texts.  The one exception is the extension
    of an upload, which is looked up in a table of extensions without
    the letter k: no character outside ASCII has a lower case made of
    ASCII letters other than k (the Kelvin sign), so that a text with
    such a character is in the table neither here nor in Python. *)
Definition lower_char (c : ascii) : ascii :=
  if in_range 65 90 c then chr (code c + 32) else c.

Fixpoint lower (s : string) : string :=
  match s with
  | "" => ""
  | String c r => String (lower_char c) (lower r)
  end.

Definition is_ascii (s : string) : bool :=
  all_chars (fun c => (code c <? 128)%N) s.

(** [s.startswith(p)], [s.endswith(p)], [sub in s] *)
Definition startswith (s p : string) : bool := String.prefix p s.

Definition endswith (s p : string) : bool :=
  ((String.length p <=? String.length s)%nat
   && String.eqb (string_drop (String.length s - String.length p) s) p)%bool.

Fixpoint contains (sub s : string) : bool :=
  (String.prefix sub s
   || match s with
      | "" => false
      | String _ r => contains sub r
      end)%bool.

(** [s.split(sep)] for a separator that is not empty: the occurrences of
    [sep] are found from the left and do not overlap; [skip] counts the
    characters of an occurrence that are still to pass *)
Fixpoint split_from (sep : string) (skip : nat) (cur s : string) : list string :=
  match s with
  | "" => [cur]
  | String c r =>
      match skip with
      | S k => split_from sep k cur r
      | O =>
          if String.prefix sep s
          then cur :: split_from sep (String.length sep - 1) "" r
          else split_from sep 0 (cur ++ str1 c) r
      end
  end.

Definition split (s sep : string) : list string := split_from sep 0 "" s.

(** [range(a, b)] *)
Definition py_range (a b : Z) : list Z :=
  map (fun i => (a + Z.of_nat i)%Z) (seq 0 (Z.to_nat (b - a))).

(** *** [find_available_port] *)

Section Ports.

(** what [s.connect_ex(("127.0.0.1", port))] returns for a port between 0
    and 65535: 0 when the connection is accepted, an error number when it
    is refused or timed out *)
Variable connect_ex : Z -> Z.

(** the loop [for port in ...]; a port outside 0..65535 makes
    [connect_ex] raise [OverflowError] *)
Fixpoint probe (ports : list Z) : result Z :=
  match ports with
  | [] => Raise RuntimeError              (* "No available port found." *)
  | port :: rest =>
      if ((0 <=? port) && (port <=? 65535))%Z then
        if negb (connect_ex port =? 0)%Z then Ret port else probe rest
      else Raise OtherException           (* OverflowError *)
  end.

Definition find_available_port (start_port max_attempts : Z) : result Z :=
  probe (py_range start_port (start_port + max_attempts)).

End Ports.

(** *** [parse_accept_language] *)

(** [sorted(l, key=key, reverse=True)] for keys that [<] orders totally:
    the greatest key first, items of equal keys in the order they have
    in [l] *)
Section Sorted.

Context {A F : Type}.
Variable lt : F -> F -> bool.
Variable key : A -> F.

Fixpoint insert_reverse (x : A) (l : list A) : list A :=
  match l with
  | [] => [x]
  | y :: l' =>
      if lt (key x) (key y) then y :: insert_reverse x l' else x :: l
  end.

Definition sorted_reverse (l : list A) : list A :=
  fold_right insert_reverse [] l.

End Sorted.

Section AcceptLanguage.

(** the floats: [float(s)] with [None] for [ValueError], the float [1.0],
    and [<] *)
Context {F : Type}.
Variable float : string -> option F.
Variable one : F.
Variable lt : F -> F -> bool.

(** the body of the loop [for item in accept_language.split(',')] for an
    item: [Ret None] stands for [continue] *)
Definition parse_item (item : string) : result (option (string * F)) :=
  let item := strip item in
  if String.eqb item "" then Ret None
  else if contains ";q=" item then
    match split item ";q=" with
    | [lang; q] =>
        match float q with
        | Some q => Ret (Some (lang, q))
        | None => Raise ValueError
        end
    | _ => Raise ValueError     (* too many values to unpack *)
    end
  else Ret (Some (item, one)).

Fixpoint parse_items (items : list string) (languages : list (string * F))
  : result (list (string * F)) :=
  match items with
  | [] => Ret languages
  | item :: rest =>
      match parse_item item with
      | Raise x => Raise x
      | Ret None => parse_items rest languages
      | Ret (Some language) => parse_items rest (languages ++ [language])
      end
  end.

Definition parse_accept_language (accept_language : string)
  : result (list (string * F)) :=
  if String.eqb accept_language "" then Ret []
  else
    match parse_items (split accept_language ",") [] with
    | Raise x => Raise x
    | Ret languages => Ret (sorted_reverse lt snd languages)
    end.

(** an item that cannot be read: it holds ";q=" more than once, or what
    follows ";q=" is no float *)
Definition malformed (item : string) : bool :=
  let item := strip item in
  (contains ";q=" item
   && match split item ";q=" with
      | [_; q] => match float q with Some _ => false | None => true end
      | _ => true
      end)%bool.

(** *** [get_user_lang] *)

(** the chain of [startswith] tests *)
Definition language_of (highest_lang : string) : string :=
  if startswith highest_lang "ja" then "ja"
  else if (startswith highest_lang "zh-tw" || startswith highest_lang "zh-hk"
           || startswith highest_lang "zh-hant")%bool then "zh-Hant"
  else if (startswith highest_lang "zh-cn" || startswith highest_lang "zh-hans"
           || startswith highest_lang "zh")%bool then "zh"
  else if startswith highest_lang "es" then "es"
  else if startswith highest_lang "fr" then "fr"
  else if startswith highest_lang "de" then "de"
  else if startswith highest_lang "it" then "it"
  else if startswith highest_lang "pt" then "pt"
  else if startswith highest_lang "ru" then "ru"
  else if startswith highest_lang "ko" then "ko"
  else if startswith highest_lang "en" then "en"
  else "en".

(** [header] is the header "accept-language" of the request, if any *)
Definition get_user_lang (header : option string) : result string :=
  let accept_lang :=
    lower (match header with Some h => h | None => "" end) in
  match parse_accept_language accept_lang with
  | Raise x => Raise x
  | Ret [] => Ret "en"
  | Ret ((highest_lang, _) :: _) => Ret (language_of (lower highest_lang))
  end.

End AcceptLanguage.

(** keys that [<] orders as [rank] orders the integers; there is no such
    [rank] when a NaN is among the keys *)
Definition ranked {F : Type} (lt : F -> F -> bool) (rank : F -> Z)
    (keys : list F) : Prop :=
  forall a b, In a keys -> In b keys -> lt a b = (rank a <? rank b)%Z.

(** a reader of the decimal literals of the examples, in thousandths:
    digits, and up to three digits after a point *)
Definition pad3 (s : string) : option string :=
  match s with
  | "" => Some "000"
  | String a "" => Some (String a "00")
  | String a (String b "") => Some (String a (String b "0"))
  | String a (String b (String c "")) => Some s
  | _ => None
  end.

Definition thousandths (s : string) : option Z :=
  match split (strip s) "." with
  | [ip] => option_map (fun n => n * 1000)%Z (int_digits ip 0 false)
  | [ip; fp] =>
      match int_digits ip 0 false, pad3 fp with
      | Some n, Some f =>
          option_map (fun m => n * 1000 + m)%Z (int_digits f 0 false)
      | _, _ => None
      end
  | _ => None
  end.

End App.

(** *** Paths: [os.path] as [posixpath] has it *)

Module Path.

(** [s.rfind(c)] for a character [c]: the index of its last occurrence,
    or -1 *)
Fixpoint rfind_from (c : ascii) (s : string) (i found : Z) : Z :=
  match s with
  | "" => found
  | String x r => rfind_from c r (i + 1) (if Ascii.eqb x c then i else found)
  end.

Definition rfind (c : ascii) (s : string) : Z := rfind_from c s 0 (-1).

(** [c not in s] *)
Definition lacks (c : ascii) (s : string) : bool :=
  all_chars (fun x => negb (Ascii.eqb x c)) s.

(** [os.path.splitext(p)]: the extension starts at the last dot of the
    last component, unless only dots precede it there *)
Definition splitext (p : string) : string * string :=
  let sepIndex := rfind "/" p in
  let dotIndex := rfind "." p in
  if (sepIndex <? dotIndex)%Z then
    let leading :=
      substring (Z.to_nat (sepIndex + 1)) (Z.to_nat (dotIndex - sepIndex - 1)) p in
    if all_chars (Ascii.eqb ".") leading then (p, "")
    else (substring 0 (Z.to_nat dotIndex) p, string_drop (Z.to_nat dotIndex) p)
  else (p, "").

(** [os.path.basename(p)] *)
Definition basename (p : string) : string :=
  string_drop (Z.to_nat (rfind "/" p + 1)) p.

(** [os.path.join(a, b)] *)
Definition join (a b : string) : string :=
  if App.startswith b "/" then b
  else if (String.eqb a "" || App.endswith a "/")%bool then a ++ b
  else a ++ "/" ++ b.

End Path.

(** ** [DocumentTranslator.process] and [__init__] *)

(** the subclasses of [DocumentTranslator] that [translate_file] knows *)
Inductive translator_class : Type :=
| WordTranslator
| PptTranslator
| ExcelTranslator
| PdfTranslator
| SubtitlesTranslator.

(** a translator: its class, the arguments of [__init__] that the
    pipeline does not read, and those that it reads together with the
    prompts *)
Record translator : Type := {
  class_of : translator_class;
  input_file_path : string;
  src_lang : string;
  dst_lang : string;
  settings : config
}.

(** the records that [process] and [_clear_temp_folder] hand to
    [app_logger] *)
Inductive driver_record : Type :=
| Info_clearing_temp_folder
| Info_extracting_content
| Info_translating_content
| Info_writing_translated_content.

(** *** The collaborators of the driver

    Modelled from the spec: the Extractor and the Writer are the methods
    [extract_content_to_json] and [write_translated_json_to_file] of the
    subclass, the validator is [check_and_sort_translations]; they work
    on the world of the collaborators.  [Missing] is the type of the
    missing-unit report. *)
Record Stages (World Missing : Type) : Type := {
  (** [load_prompt(src_lang, dst_lang)]: the system, user and previous
      prompts and the default context window *)
  load_prompt :
    World -> string -> string -> result (string * string * string * string);
  (** [os.path.exists("temp")] *)
  temp_exists : World -> bool;
  (** [shutil.rmtree("temp")]; the second argument and the second
      component of the result are the content of FAILED_JSON_PATH, which
      the record of line 144 of the source places in that folder *)
  rmtree_temp : World -> option string -> World * option string * result unit;
  (** [os.makedirs("temp")] *)
  makedirs_temp : World -> World * result unit;
  extract_content_to_json : translator -> bool -> World -> World * result string;
  check_and_sort_translations : World -> World * result Missing;
  write_translated_json_to_file :
    translator -> string -> bool -> World -> World * result unit;
  (** the truth value of a report, and the text of [sorted(report)] *)
  missing_truthy : Missing -> bool;
  sorted_missing : Missing -> result string
}.
Arguments load_prompt {World Missing} _.
Arguments temp_exists {World Missing} _.
Arguments rmtree_temp {World Missing} _.
Arguments makedirs_temp {World Missing} _.
Arguments extract_content_to_json {World Missing} _.
Arguments check_and_sort_translations {World Missing} _.
Arguments write_translated_json_to_file {World Missing} _.
Arguments missing_truthy {World Missing} _.
Arguments sorted_missing {World Missing} _.

(** the state of the application: that of the pipeline, and the records
    of the driver (latest first), which go to the same logger and are
    kept apart here *)
Record session (World Progress : Type) : Type := {
  run : env World Progress;
  driver_log : list driver_record
}.
Arguments run {World Progress} _.
Arguments driver_log {World Progress} _.

Section Driver.

Context {World Progress Missing : Type}.
Variable K : Collaborators World Progress.
Variable St : Stages World Missing.

#[local] Abbreviation session := (session World Progress).

Definition D (A : Type) : Type := session -> result A * session.

Definition dret {A} (a : A) : D A := fun s => (Ret a, s).

Definition dbind {A B} (m : D A) (k : A -> D B) : D B :=
  fun s =>
    match m s with
    | (Ret a, s') => k a s'
    | (Raise x, s') => (Raise x, s')
    end.

(** [try: m  except Exception as e: h e] *)
Definition dtry {A} (m : D A) (h : exn -> D A) : D A :=
  fun s =>
    match m s with
    | (Raise x, s') => h x s'
    | r => r
    end.

Definition set_run (e : env World Progress) (s : session) : session :=
  {| run := e; driver_log := driver_log s |}.

Definition dlog (r : driver_record) : D unit :=
  fun s => (Ret tt, {| run := run s; driver_log := r :: driver_log s |}).

(** a step of the pipeline *)
Definition pipeline {A} (m : M A) : D A :=
  fun s => let '(r, e) := m (run s) in (r, set_run e s).

(** a call of a collaborator of the driver *)
Definition stage {A} (f : World -> World * result A) : D A :=
  fun s =>
    let '(w, r) := f (world (run s)) in (r, set_run (set_world w (run s)) s).

Definition call_rmtree_temp : D unit :=
  fun s =>
    let '(w, queue, r) := rmtree_temp St (world (run s)) (failed_json (run s)) in
    let queue' := match r with Ret _ => None | Raise _ => queue end in
    (r, set_run (set_failed_json queue' (set_world w (run s))) s).

Definition _clear_temp_folder : D unit :=
  dbind (fun s => (Ret (temp_exists St (world (run s))), s)) (fun present =>
  dbind (if present : bool
         then dbind (dlog Info_clearing_temp_folder) (fun _ => call_rmtree_temp)
         else dret tt) (fun _ =>
  stage (makedirs_temp St))).

(** [process], up to the call of [translate_content]: the folder, the
    extraction *)
Definition process_prepare (self : translator) (progress_callback : bool)
  : D string :=
  dbind _clear_temp_folder (fun _ =>
  dbind (dlog Info_extracting_content) (fun _ =>
  dbind (pipeline (report_progress progress_callback Zero
                     "Extracting text, please wait..." false)) (fun _ =>
  dbind (stage (extract_content_to_json St self progress_callback))
    (fun json_path =>
  dbind (dlog Info_translating_content) (fun _ =>
  dbind (pipeline (report_progress progress_callback Zero
                     "Translating, please wait..." false)) (fun _ =>
  dret json_path)))))).

(** [process], after the call of [translate_content]: the validator, the
    Writer, the path of the output *)
Definition process_finish (self : translator) (file_name file_extension : string)
    (progress_callback : bool) (json_path : string)
  : D (string * Missing) :=
  dbind (pipeline (report_progress progress_callback Zero
                     "Checking for errors..." false)) (fun _ =>
  dbind (stage (check_and_sort_translations St)) (fun missing_counts =>
  dbind (dlog Info_writing_translated_content) (fun _ =>
  dbind (pipeline (report_progress progress_callback Zero
                     "Translation completed, new file being generated..."
                     false)) (fun _ =>
  dbind (stage (write_translated_json_to_file St self json_path
                  progress_callback)) (fun _ =>
  let result_folder := "result" in
  let base_name := Path.basename file_name in
  let final_output_path :=
    Path.join result_folder (base_name ++ "_translated" ++ file_extension) in
  dret (final_output_path, missing_counts)))))).

Definition process (self : translator) (file_name file_extension : string)
    (progress_callback : bool)
  : D (string * Missing) :=
  dbind (process_prepare self progress_callback) (fun json_path =>
  dbind (pipeline (translate_content (settings self) K progress_callback))
    (fun _ =>
  process_finish self file_name file_extension progress_callback json_path)).

(** [__init__]: the flag is set, the prompts are loaded, the context
    window is the default unless one is given *)
Definition __init__ (cls : translator_class) (input_file_path model : string)
    (use_online : bool) (api_key src_lang dst_lang : string) (max_token : Z)
    (previous_text : option string)
  : D translator :=
  fun s =>
    match load_prompt St (world (run s)) src_lang dst_lang with
    | Raise x => (Raise x, s)
    | Ret (system_prompt, user_prompt, previous_prompt, previous_text_default) =>
        let cfg :=
          {| model := model; use_online := use_online; api_key := api_key;
             max_token := max_token; system_prompt := system_prompt;
             user_prompt := user_prompt; previous_prompt := previous_prompt;
             previous_text_default := previous_text_default |} in
        let context :=
          match previous_text with
          | Some t => t
          | None => previous_text_default
          end in
        (Ret {| class_of := cls; input_file_path := input_file_path;
                src_lang := src_lang; dst_lang := dst_lang; settings := cfg |},
         set_run (set_previous_text context (set_failed_status true (run s))) s)
    end.

(** ** [translate_file] *)

(** [gr.update(value=..., visible=...)] *)
Record gr_update : Type := {
  value : option string;
  visible : bool
}.

(** the status messages, one constructor per [return] of the source *)
Inductive status_message : Type :=
| Please_select_a_file
| Api_key_is_required
| Unsupported_file_type (file_extension : string)
| Warning_missing_segments (keys : string)
| Translation_complete
| Translation_failed (e : exn)
| Error_message (e : exn).

Definition hidden : gr_update := {| value := None; visible := false |}.
Definition shown (path : string) : gr_update :=
  {| value := Some path; visible := true |}.

(** the table of the translator classes *)
Definition translator_class_for (file_extension : string)
  : option translator_class :=
  if String.eqb file_extension ".docx" then Some WordTranslator
  else if String.eqb file_extension ".pptx" then Some PptTranslator
  else if String.eqb file_extension ".xlsx" then Some ExcelTranslator
  else if String.eqb file_extension ".pdf" then Some PdfTranslator
  else if String.eqb file_extension ".srt" then Some SubtitlesTranslator
  else None.

(** the classes that [except ValueError] catches *)
Definition is_ValueError (x : exn) : bool :=
  match x with
  | JSONDecodeError | ValueError => true
  | _ => false
  end.

(** [LANGUAGE_MAP] of [config.languages_config], and the progress value 1 *)
Variable LANGUAGE_MAP : list (string * string).
Variable one : Progress.

Definition language_code (lang : string) : string :=
  match List.find (fun kv => String.eqb (fst kv) lang) LANGUAGE_MAP with
  | Some kv => snd kv
  | None => "en"
  end.

(** [file] is the name of the uploaded file, if there is one *)
Definition translate_file (file : option string) (model src_lang dst_lang : string)
    (use_online : bool) (api_key : string) (max_token : Z)
  : D (gr_update * status_message) :=
  match file with
  | None => dret (hidden, Please_select_a_file)
  | Some name =>
      if (use_online && String.eqb api_key "")%bool
      then dret (hidden, Api_key_is_required)
      else
        let src_lang_code := language_code src_lang in
        let dst_lang_code := language_code dst_lang in
        let '(file_name, file_extension) := Path.splitext name in
        match translator_class_for (App.lower file_extension) with
        | None => dret (hidden, Unsupported_file_type file_extension)
        | Some translator_class =>
            dtry
              (dbind (__init__ translator_class name model use_online api_key
                        src_lang_code dst_lang_code max_token None)
                 (fun translator =>
               dbind (pipeline (report_progress true Zero
                                  "Initializing translation..." false))
                 (fun _ =>
               dbind (process translator file_name file_extension true)
                 (fun r =>
               dbind (pipeline (report_progress true (Fraction one)
                                  "Done!" false))
                 (fun _ =>
               if missing_truthy St (snd r) then
                 match sorted_missing St (snd r) with
                 | Ret keys =>
                     dret (shown (fst r), Warning_missing_segments keys)
                 | Raise x => fun s => (Raise x, s)
                 end
               else dret (shown (fst r), Translation_complete))))))
              (fun e =>
                 if is_ValueError e
                 then dret (hidden, Translation_failed e)
                 else dret (hidden, Error_message e))
        end
  end.

End Driver.

(** ** The model lists of [src/app.py] *)

(** [online_models]: the names of the files of [config/api_config], as
    [os.listdir] gives them, that end in ".json" and are not
    "Custom.json", without their extension *)
Definition online_models (listing : list string) : list string :=
  map (fun f => fst (Path.splitext f))
    (filter (fun f => (App.endswith f ".json"
                       && negb (String.eqb f "Custom.json"))%bool)
       listing).

(** [gr.update(choices=..., value=...)] *)
Record choices_update : Type := {
  choices : list string;
  chosen : option string
}.

(** [None] stands for [IndexError]; the second component of the result is
    the visibility of the API key input *)
Definition update_model_list_and_api_input (local_models online_models : list string)
    (use_online : bool)
  : option (choices_update * bool) :=
  if use_online then
    match nth_error online_models 3 with
    | Some m => Some ({| choices := online_models; chosen := Some m |}, true)
    | None => None
    end
  else
    Some ({| choices := local_models; chosen := hd_error local_models |}, false).


(** ** Scripted collaborators of the driver *)

Module Office.

(** the ids of the units of a document *)
Definition unit_keys (segments : list (string * nat)) : list string :=
  flat_map
    (fun sp =>
       match json_loads (fst sp) with
       | Some (JObj members) => map fst members
       | _ => []
       end)
    segments.

(** the temp folder exists and can be cleared, the Extractor and the
    Writer succeed, the validator reports the units without a recorded
    translation *)
Definition stages : Stages Demo.state (list string) :=
  {| load_prompt := fun _ _ _ => Ret ("system", "user", "previous", "DEFAULT");
     temp_exists := fun _ => true;
     rmtree_temp := fun w _ => (w, None, Ret tt);
     makedirs_temp := fun w => (w, Ret tt);
     extract_content_to_json := fun _ _ w => (w, Ret "temp/src.json");
     check_and_sort_translations :=
       fun w =>
         (w,
          Ret (filter
                 (fun k =>
                    match dict_get k (Demo.store w) with
                    | Some _ => false
                    | None => true
                    end)
                 (unit_keys (Demo.source w))));
     write_translated_json_to_file := fun _ _ _ w => (w, Ret tt);
     missing_truthy := fun m => match m with [] => false | _ => true end;
     sorted_missing := fun m => Ret (String.concat ", " m) |}.

Definition LANGUAGE_MAP : list (string * string) :=
  [("English", "en"); ("Deutsch", "de")].

(** the application before an upload, with a queue file left by an
    earlier document *)
Definition start (w : Demo.state) : session Demo.state nat :=
  {| run := Demo.fresh w (Some (queue_file [(7, "left over")]%Z));
     driver_log := [] |}.

(** a document of two units that the backend translates at once *)
Definition two_units : session Demo.state nat :=
  start (Demo.backend [Demo.answers [("1", "eins"); ("2", "zwei")]]
           [[("1", "one"); ("2", "two")]]).

(** the same document when the first request fails in the backend *)
Definition backend_down : session Demo.state nat :=
  start (Demo.backend [Raise RuntimeError; Demo.answers [("1", "eins")]]
           [[("1", "one"); ("2", "two")]]).

Definition upload : string := "/tmp/gradio/Report.final.DOCX".

(** the translator that [translate_file] makes for that upload *)
Definition word_translator : translator :=
  {| class_of := WordTranslator; input_file_path := upload;
     src_lang := "en"; dst_lang := "de";
     settings :=
       {| model := "demo"; use_online := false; api_key := "";
          max_token := 768;
          system_prompt := "system"; user_prompt := "user";
          previous_prompt := "previous"; previous_text_default := "DEFAULT" |} |}.

(** the files of a [config/api_config] *)
Definition api_config : list string :=
  ["OpenAI.json"; "Custom.json"; "notes.txt"; ".json"; "a.b.json"].

End Office.

(** ** Collaborators that never fail *)

Module Obliging.

(** a backend that answers every request with a text that is not empty,
    a Result Recorder that accepts every output and leaves the queue file
    alone *)
Definition collaborators : Collaborators Demo.state nat :=
  {| stream_segment_json := Demo.segmenter;
     translate_text :=
       fun w segment previous cfg =>
         ({| Demo.script := Demo.script w;
             Demo.requests := (segment, previous) :: Demo.requests w;
             Demo.source := Demo.source w;
             Demo.store := Demo.store w |},
          Ret (Some (String "#" segment)));
     process_translation_results := fun w queue _ _ => (w, queue, Ret true);
     clean_json := Demo.cleaner |}.

(** a document of three segments, for the collaborators with a counter *)
Definition three_segments : env (Demo.state * nat) nat :=
  {| world :=
       (Demo.backend [] [[("1", "one")]; [("2", "two")]; [("3", "three")]],
        0%nat);
     failed_json := None;
     previous_text := "DEFAULT";
     failed_status := true; combined_previous_texts := [];
     app_log := []; progress_log := [] |}.

End Obliging.

(** * Facts *)

(** ** The [json] module *)

Lemma string_app_assoc (a b c : string) : (a ++ b) ++ c = a ++ (b ++ c).
Proof. induction a as [|x a IH]; simpl; [reflexivity | now rewrite IH]. Qed.

Lemma string_app_nil_r (a : string) : a ++ "" = a.
Proof. induction a as [|x a IH]; simpl; [reflexivity | now rewrite IH]. Qed.

(** a four-digit escape of a code point that is no high surrogate stands
    for that code point *)
Lemma lex_unicode_escape (acc : string) (h1 h2 h3 h4 : ascii) (cp : N) (r : string) :
  hex4 h1 h2 h3 h4 = Some cp ->
  is_high_surrogate cp = false ->
  lex (LStr acc)
    (String backslash (String "u" (String h1 (String h2 (String h3 (String h4 r))))))
  = lex (LStr (acc ++ utf8 cp)) r.
Proof.
  intros Hh Hs. simpl. rewrite Hh, Hs.
  destruct r as [|b [|u [|k1 [|k2 [|k3 [|k4 [|nx r]]]]]]]; reflexivity.
Qed.

(** reading back what [escape_char] wrote for one character *)
Lemma lex_escape_char (c : ascii) (acc rest : string) :
  lex (LStr acc) (escape_char c ++ rest) = lex (LStr (acc ++ str1 c)) rest.
Proof.
  destruct c as [[] [] [] [] [] [] [] []];
    first [ reflexivity
          | etransitivity;
            [ eapply (lex_unicode_escape acc); reflexivity | reflexivity ] ].
Qed.

(** reading back an escaped string up to its closing quote *)
Lemma lex_escape (s acc rest : string) :
  lex (LStr acc) (escape s ++ String quote_char rest)
  = ocons (TAtom (JStr (acc ++ s))) (lex LTop rest).
Proof.
  revert acc. induction s as [|c s IH]; intro acc.
  - simpl. now rewrite string_app_nil_r.
  - simpl escape. rewrite string_app_assoc, lex_escape_char, IH.
    now rewrite string_app_assoc.
Qed.

Lemma lex_json_quote (s rest : string) :
  lex LTop (json_quote s ++ rest) = ocons (TAtom (JStr s)) (lex LTop rest).
Proof.
  unfold json_quote. simpl. rewrite string_app_assoc. simpl.
  now rewrite lex_escape.
Qed.

Lemma lex_ws (c : ascii) (r : string) :
  is_json_ws c = true -> lex LTop (String c r) = lex LTop r.
Proof. intro H. simpl. now rewrite H. Qed.

Lemma lex_spaces (n : nat) (r : string) : lex LTop (spaces n ++ r) = lex LTop r.
Proof. induction n as [|n IH]; [reflexivity | simpl spaces; simpl append; now rewrite lex_ws]. Qed.

Lemma lex_newline_indent (lvl : nat) (r : string) :
  lex LTop (newline_indent lvl ++ r) = lex LTop r.
Proof. unfold newline_indent. simpl append. rewrite lex_ws by reflexivity. apply lex_spaces. Qed.

Lemma lex_punct (c : ascii) (t : token) (r : string) :
  is_json_ws c = false -> punct c = Some t ->
  lex LTop (String c r) = ocons t (lex LTop r).
Proof. intros Hw Hp. simpl. now rewrite Hw, Hp. Qed.

(** the request of a single unit reads back as the mapping it was made
    from *)
Lemma json_loads_single_unit (k v : string) :
  json_loads (json_dumps (JObj [(k, JStr v)])) = Some (JObj [(k, JStr v)]).
Proof.
  unfold json_loads, json_dumps. cbn [json_dumps_at].
  change ("{" ++ newline_indent 1 ++ json_quote k ++ ": " ++ json_quote v
          ++ "" ++ newline_indent 0 ++ "}")
    with (String "{" (newline_indent 1 ++ json_quote k ++
                      String ":" (String " " (json_quote v ++ String (chr 10) "}")))).
  rewrite (lex_punct "{" TLBrace) by reflexivity.
  rewrite lex_newline_indent, lex_json_quote.
  rewrite (lex_punct ":" TColon) by reflexivity.
  rewrite lex_ws by reflexivity.
  rewrite lex_json_quote.
  reflexivity.
Qed.

(** C10. For a Failure Queue entry, a mapping that has an integer under
    "count" and a text under "value", the string
    [_convert_failed_segments_to_json] produces parses back as JSON to
    the mapping with the single key [str(count)] and the value of the
    entry. *)
Theorem convert_failed_segments_roundtrip
    (entry : list (string * json)) (count : Z) (value : string) :
  dict_get "count" entry = Some (JInt count) ->
  dict_get "value" entry = Some (JStr value) ->
  exists text,
    _convert_failed_segments_to_json (JObj entry) = Ret text /\
    json_loads text = Some (JObj [(py_repr_int count, JStr value)]).
Proof.
  intros Hc Hv. unfold _convert_failed_segments_to_json, subscript.
  rewrite Hc, Hv. cbn [dumped_key].
  eexists. split; [reflexivity | apply json_loads_single_unit].
Qed.

Lemma convert_failed_segments_roundtrip_witness :
  exists text,
    _convert_failed_segments_to_json
      (JObj [("count", JInt 7); ("value", JStr ("say " ++ str1 quote_char ++ "hi" ++ str1 quote_char ++ nl))])
    = Ret text /\
    json_loads text
    = Some (JObj [(py_repr_int 7, JStr ("say " ++ str1 quote_char ++ "hi" ++ str1 quote_char ++ nl))]).
Proof.
  apply (convert_failed_segments_roundtrip
           [("count", JInt 7); ("value", JStr ("say " ++ str1 quote_char ++ "hi" ++ str1 quote_char ++ nl))]
           7 _); reflexivity.
Defined.

(** *** Integers and queue files *)

Lemma digit_is_num_char c : is_digit c = true -> is_num_char c = true.
Proof. intro H. unfold is_num_char. now rewrite H. Qed.

Lemma lex_digit_start (c : ascii) (r : string) :
  is_digit c = true -> lex LTop (String c r) = lex (LNum (str1 c)) r.
Proof.
  destruct c as [[] [] [] [] [] [] [] []]; intro H; try discriminate H; reflexivity.
Qed.

Lemma lex_minus_start (c : ascii) (r : string) :
  is_digit c = true ->
  lex LTop (String "-" (String c r)) = lex (LNum "-") (String c r).
Proof.
  destruct c as [[] [] [] [] [] [] [] []]; intro H; try discriminate H; reflexivity.
Qed.

Lemma lex_number_end (acc rest : string) :
  delimited rest = true ->
  lex (LNum acc) rest
  = obind (number_token acc) (fun t => ocons t (lex LTop rest)).
Proof.
  destruct rest as [|c r]; intro H.
  - simpl. now destruct (number_token acc).
  - unfold delimited in H.
    destruct c as [[] [] [] [] [] [] [] []]; try discriminate H;
      simpl; now destruct (number_token acc).
Qed.

Lemma lex_number_run (ds : string) :
  forall acc rest,
    all_chars is_num_char ds = true ->
    delimited rest = true ->
    lex (LNum acc) (ds ++ rest)
    = obind (number_token (acc ++ ds)) (fun t => ocons t (lex LTop rest)).
Proof.
  induction ds as [|d ds IH]; intros acc rest Hd Hr.
  - simpl append. rewrite string_app_nil_r. now apply lex_number_end.
  - simpl in Hd. apply andb_true_iff in Hd. destruct Hd as [Hd Hds].
    change (String d ds ++ rest) with (String d (ds ++ rest)).
    transitivity (lex (LNum (acc ++ str1 d)) (ds ++ rest)).
    + simpl. now rewrite Hd.
    + rewrite IH by assumption. now rewrite string_app_assoc.
Qed.

Lemma digits_string_of_uint (d : Decimal.uint) :
  all_chars is_digit (NilEmpty.string_of_uint d) = true.
Proof. induction d; simpl; auto. Qed.

Lemma all_chars_weaken (p q : ascii -> bool) (s : string) :
  (forall c, p c = true -> q c = true) ->
  all_chars p s = true -> all_chars q s = true.
Proof.
  intro H. induction s as [|c s IH]; simpl; [auto|].
  intro E. apply andb_true_iff in E. destruct E as [E1 E2].
  now rewrite (H c E1), IH.
Qed.

Lemma span_digits_all (s : string) :
  all_chars is_digit s = true -> span_digits s = (s, "").
Proof.
  induction s as [|c s IH]; simpl; [reflexivity|].
  intro E. apply andb_true_iff in E. destruct E as [E1 E2].
  now rewrite E1, IH.
Qed.

(** the decimal digits of a positive number: at least one, the first
    not 0 *)
Lemma pos_to_uint_head (p : positive) :
  exists c r, NilEmpty.string_of_uint (Pos.to_uint p) = String c r
              /\ is_digit c = true /\ Ascii.eqb c "0" = false.
Proof.
  assert (Hn : Pos.to_uint p = Decimal.unorm (Pos.to_uint p)).
  { pose proof (DecimalPos.Unsigned.to_of (Pos.to_uint p)) as H.
    rewrite DecimalPos.Unsigned.of_to in H. exact H. }
  pose proof (DecimalPos.Unsigned.to_uint_nonzero p) as Hz.
  assert (Hh : forall d', Pos.to_uint p <> Decimal.D0 d').
  { intros d' E. unfold Decimal.unorm in Hn.
    destruct (Decimal.nzhead (Pos.to_uint p)) eqn:En;
      try (rewrite Hn in E; discriminate E).
    - now apply Hz.
    - rewrite <- En in Hn. apply (DecimalFacts.nzhead_nonzero (Pos.to_uint p) d').
      now rewrite <- Hn. }
  pose proof (DecimalPos.Unsigned.to_uint_nonnil p) as Hnil.
  destruct (Pos.to_uint p) as [|d|d|d|d|d|d|d|d|d|d]; simpl.
  1: exfalso; now apply Hnil.
  1: exfalso; now apply (Hh d).
  all: eexists; eexists; repeat split.
Qed.

(** the literal of a non-zero integer *)
Lemma number_token_pos (p : positive) (neg : bool) :
  number_token ((if neg then "-" else "") ++ NilEmpty.string_of_uint (Pos.to_uint p))
  = Some (TAtom (JInt (if neg then Z.neg p else Z.pos p))).
Proof.
  destruct (pos_to_uint_head p) as [c [r [Hs [Hd H0]]]].
  pose proof (digits_string_of_uint (Pos.to_uint p)) as Ha.
  assert (Hm : Ascii.eqb c "-" = false)
    by (destruct c as [[] [] [] [] [] [] [] []]; try discriminate Hd; reflexivity).
  assert (Hu : NilZero.uint_of_string (NilEmpty.string_of_uint (Pos.to_uint p))
               = Some (Pos.to_uint p)).
  { pose proof (NilZero.usu (Pos.to_uint p)
                  (DecimalPos.Unsigned.to_uint_nonnil p)) as H.
    unfold NilZero.string_of_uint in H.
    destruct (Pos.to_uint p); try exact H.
    now destruct (DecimalPos.Unsigned.to_uint_nonnil p). }
  assert (Hz : Z.of_uint (Pos.to_uint p) = Z.pos p).
  { unfold Z.of_uint. now rewrite DecimalPos.Unsigned.of_to. }
  unfold number_token.
  destruct neg; simpl append.
  - simpl. rewrite (span_digits_all _ Ha). rewrite Hs. rewrite H0. simpl.
    rewrite <- Hs. unfold Z_of_digits. rewrite Hu. simpl. now rewrite Hz.
  - rewrite Hs. rewrite Hm. rewrite <- Hs. rewrite (span_digits_all _ Ha).
    rewrite Hs. rewrite H0. simpl negb. cbv iota beta.
    rewrite <- Hs. unfold Z_of_digits. rewrite Hu. simpl. now rewrite Hz.
Qed.

Lemma lex_int (z : Z) (rest : string) :
  delimited rest = true ->
  lex LTop (py_repr_int z ++ rest) = ocons (TAtom (JInt z)) (lex LTop rest).
Proof.
  intro Hr. unfold py_repr_int. destruct z as [|p|p]; simpl Z.to_int.
  - simpl. rewrite lex_number_end by exact Hr. reflexivity.
  - unfold NilZero.string_of_int, NilZero.string_of_uint.
    pose proof (number_token_pos p false) as Ht. simpl append in Ht.
    destruct (pos_to_uint_head p) as [c [r [Hs [Hd H0]]]].
    pose proof (digits_string_of_uint (Pos.to_uint p)) as Ha.
    replace (match Pos.to_uint p with Decimal.Nil => "0" | _ => NilEmpty.string_of_uint (Pos.to_uint p) end)
      with (NilEmpty.string_of_uint (Pos.to_uint p))
      by (destruct (Pos.to_uint p); try reflexivity; discriminate Hs).
    rewrite Hs in *. simpl in Ha. apply andb_true_iff in Ha. destruct Ha as [_ Ha].
    change (String c r ++ rest) with (String c (r ++ rest)).
    rewrite lex_digit_start by exact Hd.
    rewrite lex_number_run;
      [ | now apply (all_chars_weaken is_digit), Ha; apply digit_is_num_char | exact Hr].
    change (str1 c ++ r) with (String c r). now rewrite Ht.
  - unfold NilZero.string_of_int, NilZero.string_of_uint.
    pose proof (number_token_pos p true) as Ht. simpl append in Ht.
    destruct (pos_to_uint_head p) as [c [r [Hs [Hd H0]]]].
    pose proof (digits_string_of_uint (Pos.to_uint p)) as Ha.
    replace (match Pos.to_uint p with Decimal.Nil => "0" | _ => NilEmpty.string_of_uint (Pos.to_uint p) end)
      with (NilEmpty.string_of_uint (Pos.to_uint p))
      by (destruct (Pos.to_uint p); try reflexivity; discriminate Hs).
    rewrite Hs in *.
    change (String "-" (String c r) ++ rest) with (String "-" (String c (r ++ rest))).
    rewrite lex_minus_start by exact Hd.
    change (String c (r ++ rest)) with (String c r ++ rest).
    rewrite lex_number_run;
      [ | now apply (all_chars_weaken is_digit), Ha; apply digit_is_num_char | exact Hr].
    change ("-" ++ String c r) with (String "-" (String c r)). now rewrite Ht.
Qed.

Lemma ocons_oapp t ts o : ocons t (oapp ts o) = oapp (t :: ts) o.
Proof. now destruct o. Qed.

Lemma ocons_as_oapp t o : ocons t o = oapp [t] o.
Proof. now destruct o. Qed.

Lemma oapp_oapp ts us o : oapp ts (oapp us o) = oapp (ts ++ us) o.
Proof. destruct o; simpl; [now rewrite app_assoc | reflexivity]. Qed.

Ltac lex_steps :=
  repeat first
    [ rewrite lex_newline_indent
    | rewrite lex_json_quote
    | rewrite (lex_punct "{" TLBrace) by reflexivity
    | rewrite (lex_punct "}" TRBrace) by reflexivity
    | rewrite (lex_punct "[" TLBrack) by reflexivity
    | rewrite (lex_punct "]" TRBrack) by reflexivity
    | rewrite (lex_punct ":" TColon) by reflexivity
    | rewrite (lex_punct "," TComma) by reflexivity
    | rewrite lex_ws by reflexivity
    | rewrite lex_int by reflexivity ].

Lemma lex_entry (u : Z * string) (lvl : nat) (rest : string) :
  lex LTop (json_dumps_at lvl (entry_json u) ++ rest)
  = oapp (entry_tokens u) (lex LTop rest).
Proof.
  destruct u as [c v]. unfold entry_json, requeued, entry_tokens.
  cbn [json_dumps_at fst snd].
  repeat rewrite string_app_assoc.
  change ("{" ++ ?x) with (String "{" x).
  change ("}" ++ ?x) with (String "}" x).
  change ("" ++ ?x) with x.
  change ("," ++ ?x) with (String "," x).
  repeat change (": " ++ ?x) with (String ":" (String " " x)).
  lex_steps.
  now destruct (lex LTop rest).
Qed.

Lemma lex_more_entries (lvl : nat) (us : list (Z * string)) (tail : string) :
  lex LTop
    ((fix rest (l : list json) : string :=
        match l with
        | [] => ""
        | y :: l' =>
            "," ++ newline_indent (S lvl) ++ json_dumps_at (S lvl) y ++ rest l'
        end) (map entry_json us) ++ tail)
  = oapp (flat_map (fun u => TComma :: entry_tokens u) us) (lex LTop tail).
Proof.
  induction us as [|u us IH]; cbn [map flat_map].
  - simpl. now destruct (lex LTop tail).
  - repeat rewrite string_app_assoc.
    change ("," ++ ?x) with (String "," x).
    lex_steps. rewrite lex_entry, IH.
    rewrite oapp_oapp, ocons_oapp. reflexivity.
Qed.

Lemma lex_queue (us : list (Z * string)) :
  lex LTop (queue_file us) = Some (queue_tokens us).
Proof.
  destruct us as [|u us]; [reflexivity|].
  unfold queue_file, json_dumps. cbn [map json_dumps_at queue_tokens].
  change ("[" ++ ?x) with (String "[" x).
  lex_steps. rewrite lex_entry, lex_more_entries. lex_steps.
  reflexivity.
Qed.

Lemma parse_more_entries (us : list (Z * string)) :
  forall acc stk ts,
    parse_tokens (SArrNext acc stk)
      (flat_map (fun u => TComma :: entry_tokens u) us ++ TRBrack :: ts)%list
    = parse_tokens (reduce (JArr (rev acc ++ map entry_json us)%list) stk) ts.
Proof.
  induction us as [|u us IH]; intros acc stk ts.
  - simpl. now rewrite app_nil_r.
  - cbn [flat_map]. rewrite <- app_assoc. simpl.
    rewrite IH. simpl. now rewrite <- app_assoc.
Qed.

Lemma json_loads_queue (us : list (Z * string)) :
  json_loads (queue_file us) = Some (JArr (map entry_json us)).
Proof.
  unfold json_loads. rewrite lex_queue. destruct us as [|u us]; [reflexivity|].
  cbn [queue_tokens obind]. simpl.
  rewrite parse_more_entries. reflexivity.
Qed.

Lemma string_length_app (a b : string) :
  String.length (a ++ b) = (String.length a + String.length b)%nat.
Proof. induction a as [|c a IH]; simpl; [reflexivity | now rewrite IH]. Qed.

(** the length of a queue file grows with the queue *)
Lemma spaces_length n : String.length (spaces n) = n.
Proof. induction n; simpl; congruence. Qed.

Lemma more_entries_length (lvl : nat) (l : list json) :
  String.length
    ((fix rest (l : list json) : string :=
        match l with
        | [] => ""
        | y :: l' =>
            "," ++ newline_indent (S lvl) ++ json_dumps_at (S lvl) y ++ rest l'
        end) l)
  = entries_size lvl l.
Proof.
  induction l as [|y l IH]; [reflexivity|].
  cbn [entries_size fold_right]. fold (entries_size lvl l). rewrite <- IH.
  repeat rewrite string_length_app. unfold newline_indent.
  cbn [String.length]. rewrite spaces_length. lia.
Qed.

Lemma array_length (l : list json) :
  String.length (json_dumps (JArr l)) = (2 + entries_size 0 l)%nat.
Proof.
  destruct l as [|x l]; [reflexivity|].
  unfold json_dumps. cbn [json_dumps_at].
  repeat rewrite string_length_app. rewrite more_entries_length.
  unfold newline_indent. cbn [String.length entries_size fold_right].
  rewrite !spaces_length. fold (entries_size 0 l). lia.
Qed.

Lemma entries_size_app lvl l l' :
  entries_size lvl (l ++ l') = (entries_size lvl l + entries_size lvl l')%nat.
Proof. induction l as [|y l IH]; simpl; [reflexivity|]. rewrite IH. lia. Qed.

Lemma array_length_mono (l l' : list json) :
  (String.length (json_dumps (JArr l))
   <= String.length (json_dumps (JArr (l ++ l'))))%nat.
Proof. rewrite !array_length, entries_size_app. lia. Qed.

(** ** The log of a run *)

Section LogFacts.

Context {World Progress : Type}.
Variable cfg : config.
Variable K : Collaborators World Progress.
Variable p : log_record -> bool.
Hypothesis p_tiers : tier_test p.

#[local] Abbreviation M' := (M (World:=World) (Progress:=Progress)).

Lemma silent_ret {A} (a : A) : silent p (ret a : M' A).
Proof. intro e. reflexivity. Qed.

Lemma silent_raise {A} (x : exn) : silent p (raise x : M' A).
Proof. intro e. reflexivity. Qed.

Lemma silent_lift {A} (r : result A) : silent p (lift r : M' A).
Proof. intro e. reflexivity. Qed.

Lemma silent_get {A} (f : env World Progress -> A) : silent p (get f).
Proof. intro e. reflexivity. Qed.

Lemma silent_update (f : env World Progress -> env World Progress) :
  (forall e, app_log (f e) = app_log e) -> silent p (update f).
Proof. intros H e. unfold update. simpl. now rewrite H. Qed.

Lemma silent_bind {A B} (m : M' A) (k : A -> M' B) :
  silent p m -> (forall a, silent p (k a)) -> silent p (bind m k).
Proof.
  intros Hm Hk e. unfold bind. specialize (Hm e).
  destruct (m e) as [[a|x] e1]; simpl in *.
  - now rewrite Hk.
  - exact Hm.
Qed.

Lemma silent_try_except {A} (m : M' A) (classes : exn -> bool) (h : exn -> M' A) :
  silent p m -> (forall x, silent p (h x)) -> silent p (try_except m classes h).
Proof.
  intros Hm Hh e. unfold try_except. specialize (Hm e).
  destruct (m e) as [[a|x] e1]; simpl in *.
  - exact Hm.
  - destruct (classes x); simpl; [now rewrite Hh | exact Hm].
Qed.

Lemma silent_log (r : log_record) :
  r <> Info_retrying_failed_segments -> r <> Warn_final_attempt_line_by_line ->
  silent p (log r : M' unit).
Proof.
  intros H1 H2 e. unfold log, update, count_records. simpl.
  destruct (p r) eqn:E; [|reflexivity].
  destruct (p_tiers r E); contradiction.
Qed.

Lemma silent_call_translate_text (segment : string) :
  silent p (call_translate_text cfg K segment).
Proof.
  intro e. unfold call_translate_text.
  now destruct (translate_text K (world e) segment (previous_text e) cfg).
Qed.

Lemma silent_call_process_translation_results (segment : string) (t : pytext) :
  silent p (call_process_translation_results K segment t).
Proof.
  intro e. unfold call_process_translation_results.
  now destruct (process_translation_results K (world e) (failed_json e) segment t)
    as [[w f] r].
Qed.

Lemma silent_call_process_translation_results_r (segment : string) (t : pytext) :
  silent p (call_process_translation_results_r K segment t).
Proof.
  intro e. unfold call_process_translation_results_r.
  now destruct (process_translation_results K (world e) (failed_json e) segment t)
    as [[w f] r].
Qed.

Lemma silent_call_stream_segment_json (path : json_path) :
  silent p (call_stream_segment_json cfg K path).
Proof. intro e. reflexivity. Qed.

Create HintDb silent discriminated.
#[local] Hint Resolve silent_call_translate_text
  silent_call_process_translation_results
  silent_call_process_translation_results_r
  silent_call_stream_segment_json : silent.

Ltac silence :=
  repeat first
    [ apply silent_ret
    | apply silent_raise
    | apply silent_lift
    | apply silent_get
    | apply silent_log; discriminate
    | apply silent_update; intro; reflexivity
    | apply silent_bind; [|intro]
    | apply silent_try_except; [|intro]
    | solve [auto with silent]
    | match goal with
      | |- silent _ (match ?x with _ => _ end) => destruct x
      end ].

Lemma silent_report_progress (cb : bool) (v : progress_value Progress)
    (desc : string) (logged : bool) :
  silent p (report_progress cb v desc logged : M' unit).
Proof. unfold report_progress. silence. Qed.
#[local] Hint Resolve silent_report_progress : silent.

Lemma silent_append_combined (t : pytext) :
  silent p (append_combined t : M' unit).
Proof. unfold append_combined. silence. Qed.
#[local] Hint Resolve silent_append_combined : silent.

Lemma silent_mark_segment_as_failed (segment : string) :
  silent p (_mark_segment_as_failed K segment).
Proof. unfold _mark_segment_as_failed. silence. Qed.
#[local] Hint Resolve silent_mark_segment_as_failed : silent.

Lemma silent_primary_try (segment : string) (t : pytext) :
  silent p (primary_try cfg K segment t).
Proof. unfold primary_try. silence. Qed.
#[local] Hint Resolve silent_primary_try : silent.

Lemma silent_primary_attempt (segment : string) (n : nat) (tt' : option pytext) :
  silent p (primary_attempt cfg K segment n tt').
Proof. unfold primary_attempt. silence. Qed.
#[local] Hint Resolve silent_primary_attempt : silent.

Lemma silent_primary_retries (retries : list nat) (segment : string)
    (t : option pytext) (last : pytext) :
  silent p (primary_retries cfg K retries segment t last).
Proof.
  revert t last. induction retries as [|n retries IH]; intros t last; simpl.
  - silence.
  - silence.
Qed.
#[local] Hint Resolve silent_primary_retries : silent.

Lemma silent_primary_pass (cb : bool) (segments : list (string * Progress))
    (t : option pytext) :
  silent p (primary_pass cfg K cb segments t).
Proof.
  revert t. induction segments as [|[segment pr] segments IH]; intro t; simpl.
  - silence.
  - silence.
Qed.

Lemma silent_batch_except (n : nat) (t : option pytext) (has : bool) (x : exn) :
  silent p (batch_except n t has x : M' _).
Proof. unfold batch_except. silence. Qed.
#[local] Hint Resolve silent_batch_except : silent.

Lemma silent_batch_attempt (segment : string) (n : nat) (t : option pytext)
    (has : bool) :
  silent p (batch_attempt cfg K segment n t has).
Proof. unfold batch_attempt. silence. Qed.
#[local] Hint Resolve silent_batch_attempt : silent.

Lemma silent_batch_retries (retries : list nat) (segment : string)
    (t : option pytext) (has : bool) (last : pytext) :
  silent p (batch_retries cfg K retries segment t has last).
Proof.
  revert t has last. induction retries as [|n retries IH]; intros t has last; simpl.
  - silence.
  - silence.
Qed.
#[local] Hint Resolve silent_batch_retries : silent.

Lemma silent_batch_segments (cb : bool) (segments : list (string * Progress))
    (t : option pytext) (has : bool) :
  silent p (batch_segments cfg K cb segments t has).
Proof.
  revert t has. induction segments as [|[segment pr] segments IH]; intros t has; simpl.
  - silence.
  - silence.
Qed.

Lemma silent_line_try (text_failed : string) (t : pytext) :
  silent p (line_try cfg K text_failed t).
Proof. unfold line_try. silence. Qed.
#[local] Hint Resolve silent_line_try : silent.

Lemma silent_line_attempt (count : json) (text_failed : string) (n : nat) :
  silent p (line_attempt cfg K count text_failed n).
Proof. unfold line_attempt. silence. Qed.
#[local] Hint Resolve silent_line_attempt : silent.

Lemma silent_line_retries (retries : list nat) (count value : json)
    (text_failed : string) (last : pytext) (nf : list json) :
  silent p (line_retries cfg K retries count value text_failed last nf).
Proof.
  revert last nf. induction retries as [|n retries IH]; intros last nf; simpl.
  - silence.
  - silence.
Qed.
#[local] Hint Resolve silent_line_retries : silent.

Lemma silent_line_entries (cb : bool) (entries nf : list json) :
  silent p (line_entries cfg K cb entries nf).
Proof.
  revert nf. induction entries as [|entry entries IH]; intro nf; simpl.
  - silence.
  - silence.
Qed.
#[local] Hint Resolve silent_line_entries : silent.

Lemma silent_retranslate_failed_lines (cb : bool) :
  silent p (_retranslate_failed_lines cfg K cb).
Proof. unfold _retranslate_failed_lines. silence. Qed.

(** a round of the batch retry logs its start and nothing else the test
    counts *)
Lemma count_retranslate_failed_content (cb : bool) (e : env World Progress) :
  count_records p (app_log (snd (retranslate_failed_content cfg K cb e)))
  = count_records p (Info_retrying_failed_segments :: app_log e).
Proof.
  unfold retranslate_failed_content.
  match goal with
  | |- context [bind (log ?r) ?k] =>
      assert (Hs : silent p (k tt)) by (cbv beta; silence; apply silent_batch_segments)
  end.
  unfold bind at 1. unfold log, update. cbn [fst snd]. apply Hs.
Qed.

End LogFacts.

Lemma is_round_start_tiers : tier_test is_round_start.
Proof. intros [] H; try discriminate H; now left. Qed.

Lemma is_line_tier_start_tiers : tier_test is_line_tier_start.
Proof. intros [] H; try discriminate H; now right. Qed.

(** ** The recovery tiers *)

Section PipelineFacts.

Context {World Progress : Type}.
Variable cfg : config.
Variable K : Collaborators World Progress.

#[local] Abbreviation env' := (env World Progress).

Lemma retranslate_starts_one_round (cb : bool) (e : env') :
  rounds_started (snd (retranslate_failed_content cfg K cb e))
  = S (rounds_started e).
Proof.
  unfold rounds_started.
  now rewrite (count_retranslate_failed_content cfg K _ is_round_start_tiers).
Qed.

Lemma retranslate_no_line_tier (cb : bool) (e : env') :
  line_tiers_started (snd (retranslate_failed_content cfg K cb e))
  = line_tiers_started e.
Proof.
  unfold line_tiers_started.
  now rewrite (count_retranslate_failed_content cfg K _ is_line_tier_start_tiers).
Qed.


Lemma batch_rounds_no_line_tier (cb : bool) (n : nat) (e : env') :
  line_tiers_started (snd (batch_rounds cfg K cb n e)) = line_tiers_started e.
Proof.
  revert e. induction n as [|n IH]; intro e; simpl.
  - reflexivity.
  - unfold bind, get. simpl. destruct (failed_status e); simpl; [|reflexivity].
    pose proof (retranslate_no_line_tier cb e) as H1.
    destruct (retranslate_failed_content cfg K cb e) as [[r|x] e1]; simpl in *.
    + unfold update. simpl. now rewrite IH.
    + exact H1.
Qed.




(** when the flag is still set after the loop, every round has run *)
Lemma batch_rounds_all_ran (cb : bool) (n : nat) (e e1 : env') :
  failed_status e = true ->
  batch_rounds cfg K cb n e = (Ret tt, e1) ->
  failed_status e1 = true ->
  rounds_started e1 = (rounds_started e + n)%nat.
Proof.
  revert e. induction n as [|n IH]; intros e Hf Hr H1; simpl in Hr.
  - unfold ret in Hr. inversion Hr; subst. lia.
  - unfold bind, get in Hr. simpl in Hr. rewrite Hf in Hr. simpl in Hr.
    pose proof (retranslate_starts_one_round cb e) as Hc.
    destruct (retranslate_failed_content cfg K cb e) as [[r|x] e2]; simpl in *;
      [|discriminate Hr].
    unfold update in Hr. simpl in Hr. destruct r.
    + apply IH in Hr; [|reflexivity|exact H1].
      change (rounds_started (set_failed_status true e2)) with (rounds_started e2) in Hr.
      lia.
    + destruct n; simpl in Hr.
      * unfold ret in Hr. inversion Hr; subst. discriminate H1.
      * unfold bind, get, ret in Hr. simpl in Hr. inversion Hr; subst.
        discriminate H1.
Qed.






(** C5, as amended. The line-by-line tier is entered on the value of
    [failed_status], not on what the queue holds.  For a translator whose
    flag is set when the recovery starts: if the batch loop ends with the
    flag still set, all three rounds have run and
    [_retranslate_failed_lines] runs once, on the state the loop left; if
    the loop ends with the flag cleared, or by an exception, the tier
    does not run. *)
Theorem line_tier_runs_on_failed_status (cb : bool) (e : env') :
  failed_status e = true ->
  (forall e1,
      batch_rounds cfg K cb 3 e = (Ret tt, e1) -> failed_status e1 = true ->
      recovery_tiers cfg K cb e
      = _retranslate_failed_lines cfg K cb (add_log Warn_final_attempt_line_by_line e1)
      /\ line_tiers_started (snd (recovery_tiers cfg K cb e))
         = S (line_tiers_started e)
      /\ rounds_started e1 = (rounds_started e + 3)%nat)
  /\ (forall e1,
        batch_rounds cfg K cb 3 e = (Ret tt, e1) -> failed_status e1 = false ->
        recovery_tiers cfg K cb e = (Ret tt, e1)
        /\ line_tiers_started e1 = line_tiers_started e)
  /\ (forall x e1,
        batch_rounds cfg K cb 3 e = (Raise x, e1) ->
        recovery_tiers cfg K cb e = (Raise x, e1)
        /\ line_tiers_started e1 = line_tiers_started e).
Proof.
  intro Hf.
  pose proof (batch_rounds_no_line_tier cb 3 e) as Hl.
  repeat split.
  - unfold recovery_tiers, bind at 1. rewrite H. unfold bind at 1, get. simpl.
    rewrite H0. reflexivity.
  - assert (Hrec : recovery_tiers cfg K cb e
                   = _retranslate_failed_lines cfg K cb
                       (add_log Warn_final_attempt_line_by_line e1)).
    { unfold recovery_tiers, bind at 1. rewrite H. unfold bind at 1, get. simpl.
      rewrite H0. reflexivity. }
    rewrite Hrec. unfold line_tiers_started.
    rewrite (silent_retranslate_failed_lines cfg K _ is_line_tier_start_tiers).
    rewrite H in Hl. simpl in Hl. unfold line_tiers_started in Hl. simpl.
    unfold count_records in *. simpl. now rewrite Hl.
  - now apply (batch_rounds_all_ran cb 3 e e1).
  - unfold recovery_tiers, bind at 1. rewrite H. unfold bind, get. simpl.
    now rewrite H0.
  - now rewrite H in Hl.
  - unfold recovery_tiers, bind at 1. now rewrite H.
  - now rewrite H in Hl.
Qed.

End PipelineFacts.

(** ** Runs *)


Lemma line_tier_runs_on_failed_status_witness :
  failed_status Scenario.one_unit_per_round = true
  /\ failed_status Scenario.one_unit_per_round_after_batch = true
  /\ rounds_started Scenario.one_unit_per_round_after_batch = 3%nat
  /\ line_tiers_started
       (snd (recovery_tiers Demo.settings (Demo.collaborators true) false
               Scenario.one_unit_per_round)) = 1%nat.
Proof.
  destruct (line_tier_runs_on_failed_status Demo.settings (Demo.collaborators true)
              false Scenario.one_unit_per_round eq_refl) as [H _].
  assert (Hb : batch_rounds Demo.settings (Demo.collaborators true) false 3
                 Scenario.one_unit_per_round
               = (Ret tt, Scenario.one_unit_per_round_after_batch))
    by (vm_compute; reflexivity).
  destruct (H _ Hb eq_refl) as [_ [H1 H2]].
  split; [reflexivity|]. split; [reflexivity|]. split; [exact H2 | exact H1].
Defined.

(** C5, counterexample. The unit of the document is never resolved and
    the recorder has put it back in the queue; the only batch round
    reports no success, so the flag is cleared and the line-by-line tier
    does not run although the queue holds the unit. *)
Lemma line_tier_skipped_with_entries_left :
  let run :=
    translate_content Demo.settings (Demo.collaborators true) true
      Scenario.unit_never_resolved in
  fst run = Ret tt
  /\ option_map json_loads (failed_json (snd run))
     = Some (Some (JArr [requeued (JInt 1) (JStr "hello")]))
  /\ Demo.store (world (snd run)) = []
  /\ rounds_started (snd run) = 1%nat
  /\ line_tiers_started (snd run) = 0%nat.
Proof. vm_compute. repeat split. Qed.

(** C6, at the failing inputs. A queue file whose bytes are no UTF-8
    does not parse as JSON: the bytes FF FE, and the queue file of a
    unit whose text ends in U+00E9, cut after the first byte of that
    character.  Neither function returns on them:
    [retranslate_failed_content], after the record that announces the
    round, and [_retranslate_failed_lines], at once, raise the
    [UnicodeDecodeError] of [json.load], which is a [ValueError] and
    neither a [json.JSONDecodeError] nor an [OSError]; the file is left
    as it was. *)
Theorem undecodable_queue_raises :
  json_loads (queue_text Cases.undecodable_queue) = None
  /\ retranslate_failed_content Demo.settings (Demo.collaborators false) true
       Cases.undecodable_queue
     = (Raise ValueError,
        add_log Info_retrying_failed_segments Cases.undecodable_queue)
  /\ _retranslate_failed_lines Demo.settings (Demo.collaborators false) true
       Cases.undecodable_queue
     = (Raise ValueError, Cases.undecodable_queue)
  /\ String.prefix Cases.cut_text
       (Scenario.queue_of [(1, "caf" ++ utf8 233)]%Z) = true
  /\ json_loads (queue_text Cases.cut_queue) = None
  /\ retranslate_failed_content Demo.settings (Demo.collaborators false) true
       Cases.cut_queue
     = (Raise ValueError, add_log Info_retrying_failed_segments Cases.cut_queue)
  /\ _retranslate_failed_lines Demo.settings (Demo.collaborators false) true
       Cases.cut_queue
     = (Raise ValueError, Cases.cut_queue).
Proof. vm_compute. repeat split. Qed.

(** C2, at the failing input. The document has two segments, of unit 1
    and of unit 2, and the backend fails with a [ValueError] on the
    first request.  The [except] clause reads [translated_text], which
    is not bound yet, and the [UnboundLocalError] ends the primary pass
    and [translate_content]: the backend was asked once, the Result
    Recorder and [_mark_segment_as_failed] were never called, and
    neither unit is recorded or in the Failure Queue, which does not
    exist. *)
Theorem first_call_error_drops_the_units :
  let run :=
    translate_content Demo.settings (Demo.collaborators true) true
      Scenario.first_call_fails_then_answers in
  map fst (Demo.source (world Scenario.first_call_fails_then_answers))
  = [Demo.mapping [("1", "one")]; Demo.mapping [("2", "two")]]
  /\ fst run = Raise UnboundLocalError
  /\ Demo.requests (world (snd run))
     = [(Demo.mapping [("1", "one")], previous_text_default Demo.settings)]
  /\ Demo.store (world (snd run)) = []
  /\ failed_json (snd run) = None.
Proof. vm_compute. repeat split. Qed.

(** C9, at the failing input. The queue file holds unit 1 in a form that
    is valid JSON and longer than what [json.dump] writes with
    [ensure_ascii=False]: one line, with the forty characters of its
    text written as \u escapes.  The segment of unit 2 is marked as
    failed.  The function returns; it has written the two entries from
    the start of the file, which is opened in mode [r+] and is not
    truncated, so that the end of the old text follows them: the file is
    JSON no more, and the next round of the batch retry, which cannot
    decode it, reports that there is nothing to retry.  Both units are
    lost. *)
Theorem mark_segment_as_failed_corrupts_a_longer_queue :
  let run :=
    _mark_segment_as_failed (Demo.collaborators false) Cases.segment_2
      Cases.escaped_queue in
  let written :=
    json_dumps (JArr [entry_json (1, Cases.forty_characters)%Z;
                      entry_json (2, "two")%Z]) in
  json_loads Cases.escaped_text
  = Some (JArr [entry_json (1, Cases.forty_characters)%Z])
  /\ fst run = Ret tt
  /\ option_map (String.prefix written) (failed_json (snd run)) = Some true
  /\ option_map String.length (failed_json (snd run))
     = Some (String.length Cases.escaped_text)
  /\ (String.length written <? String.length Cases.escaped_text)%nat = true
  /\ option_map json_loads (failed_json (snd run)) = Some None
  /\ fst (retranslate_failed_content Demo.settings (Demo.collaborators false)
            true (snd run)) = Ret false.
Proof. vm_compute. repeat split. Qed.

(** C7, at the failing input. The backend fails with a [RuntimeError] on
    the first request of the first segment: the [except] clause reads
    [translated_text], which is not bound yet, and [translate_content]
    ends in an [UnboundLocalError] that nothing catches. *)
Theorem first_call_error_escapes :
  fst (translate_content Demo.settings (Demo.collaborators false) true
         Scenario.first_call_fails)
  = Raise UnboundLocalError.
Proof. vm_compute. reflexivity. Qed.

(** C1, at the failing input. The second segment of the round fails both
    attempts; the round ends with an empty queue file and unit 2 neither
    recorded nor queued. *)
Theorem batch_round_drops_failed_segment :
  let run :=
    retranslate_failed_content Demo.settings (Demo.collaborators true) true
      Scenario.second_segment_fails in
  fst run = Ret true
  /\ failed_json (snd run) = Some "[]"
  /\ Demo.store (world (snd run)) = [("1", JStr "bonjour")]
  /\ app_log (snd run)
     = [Info_progress; Warn_saving_last_valid;
        Warn_error_retrying RuntimeError 2; Warn_error_retrying RuntimeError 1;
        Info_progress; Info_segment_retranslated; Info_cleared_failed_json;
        Info_retrying_failed_segments].
Proof. vm_compute. repeat split. Qed.

(** C3, at the failing input. The same three-line output resets the
    context window to the default in the primary pass and becomes the
    context window, without its last line, in the batch retry. *)
Theorem batch_retry_context_is_not_reset :
  previous_text
    (snd (translate_content Demo.settings (Demo.collaborators true) true
            Scenario.short_answer_in_primary))
  = previous_text_default Demo.settings
  /\ previous_text
       (snd (retranslate_failed_content Demo.settings (Demo.collaborators true) true
               Scenario.short_answer_in_batch))
     = "{" ++ nl ++ "    " ++ json_quote "1" ++ ": " ++ json_quote "bonjour"
  /\ length (splitlines (Demo.mapping [("1", "bonjour")])) = 3%nat.
Proof. vm_compute. repeat split. Qed.

(** ** [_mark_segment_as_failed] *)







Section MarkFacts.

Context {World Progress : Type}.
Variable K : Collaborators World Progress.


(** an old file whose bytes are no UTF-8 stops the function at
    [json.load], before the segment is looked at *)
Lemma mark_segment_as_failed_undecodable (segment : string)
    (e : env World Progress) :
  undecodable (failed_json e) = true ->
  _mark_segment_as_failed K segment e = (Raise ValueError, e).
Proof.
  unfold undecodable, _mark_segment_as_failed.
  unfold bind, get, update, ret, raise. simpl.
  destruct e as [w [text|] p f c l pl]; simpl; [|discriminate].
  intro H. apply negb_true_iff in H. now rewrite H.
Qed.


End MarkFacts.


(** ** [_retranslate_failed_lines] *)

Section LineFacts.

Context {World Progress : Type}.
Variable cfg : config.
Variable K : Collaborators World Progress.

(** one attempt on a line: the log grows by the retry warning when the
    attempt ends in the [except] clause, and not at all otherwise; the
    queue file changes in the hands of the recorder only *)
Lemma line_attempt_spec (count : json) (text_failed : string) (n : nat)
    (e e' : env World Progress) (r : result (option string)) :
  line_attempt cfg K count text_failed n e = (r, e') ->
  (forall I : option string -> Prop,
      recorder_invariant K I -> I (failed_json e) -> I (failed_json e'))
  /\ match r with
     | Ret None => exists x, app_log e' = Warn_error_in_line count x (S n) :: app_log e
     | _ => app_log e' = app_log e
     end.
Proof.
  unfold line_attempt, line_try, call_translate_text,
    call_process_translation_results.
  unfold bind, try_except, lift, ret, raise, log, update.
  destruct (translate_text K (world e) text_failed (previous_text e) cfg)
    as [w [t|x]] eqn:Et.
  - pose proof (fun (I : option string -> Prop) (HI : recorder_invariant K I) =>
                  HI w (failed_json e) text_failed t) as Hq.
    cbn [world failed_json set_world] in *.
    destruct (process_translation_results K w (failed_json e) text_failed t)
      as [[w' f'] [b|x]]; cbn [fst snd] in Hq.
    + destruct t as [s|].
      * destruct (3 <=? length (splitlines (strip s)))%nat;
          intro H; inversion H; subst; split; auto.
      * intro H; inversion H; subst; split; auto.
    + destruct (caught_by_retry x);
        intro H; inversion H; subst;
          (split; [auto | first [reflexivity | eexists; reflexivity]]).
  - destruct (caught_by_retry x);
      intro H; inversion H; subst;
        (split; [auto | first [reflexivity | eexists; reflexivity]]).
Qed.

Lemma line_retries_spec (count value : json) (text_failed : string)
    (nf nf' : list json) (e e' : env World Progress) :
  line_retries cfg K [0; 1]%nat count value text_failed None nf e = (Ret nf', e') ->
  (forall I : option string -> Prop,
      recorder_invariant K I -> I (failed_json e) -> I (failed_json e'))
  /\ ((nf' = (nf ++ [JObj [("count", count); ("value", value)]])%list
       /\ exhausted_counts (app_log e') = count :: exhausted_counts (app_log e))
      \/ (nf' = nf
          /\ exhausted_counts (app_log e') = exhausted_counts (app_log e))).
Proof.
  simpl. unfold bind at 1.
  destruct (line_attempt cfg K count text_failed 0 e) as [[[last|]|x] e1] eqn:E1;
    try discriminate.
  - apply line_attempt_spec in E1. destruct E1 as [Hq Hl].
    unfold ret. intro H. inversion H; subst. split; [exact Hq|].
    right. split; [reflexivity | now rewrite Hl].
  - apply line_attempt_spec in E1. destruct E1 as [Hq1 [x1 Hl1]].
    unfold bind at 1.
    destruct (line_attempt cfg K count text_failed 1 e1) as [[[last|]|x] e2] eqn:E2;
      try discriminate.
    + apply line_attempt_spec in E2. destruct E2 as [Hq2 Hl2].
      unfold ret. intro H. inversion H; subst. split.
      * intros I HI H0. exact (Hq2 I HI (Hq1 I HI H0)).
      * right. split; [reflexivity | now rewrite Hl2, Hl1].
    + apply line_attempt_spec in E2. destruct E2 as [Hq2 [x2 Hl2]].
      unfold ret. simpl. intro H. inversion H; subst. split.
      * intros I HI H0. exact (Hq2 I HI (Hq1 I HI H0)).
      * left. split; [reflexivity | now rewrite Hl2, Hl1].
Qed.

Lemma bind_Ret_inv {A B} (m : M (World:=World) (Progress:=Progress) A)
    (k : A -> M B) (e e' : env World Progress) (b : B) :
  bind m k e = (Ret b, e') ->
  exists a e1, m e = (Ret a, e1) /\ k a e1 = (Ret b, e').
Proof.
  unfold bind. destruct (m e) as [[a|x] e1]; [eauto | discriminate].
Qed.

Lemma lift_Ret_inv {A} (r : result A) (e e' : env World Progress) (a : A) :
  lift r e = (Ret a, e') -> r = Ret a /\ e' = e.
Proof. unfold lift. intro H. inversion H. auto. Qed.

Lemma try_except_Ret_inv {A} (m : M A) (classes : exn -> bool) (h : exn -> M A)
    (e e' : env World Progress) (a : A) :
  try_except m classes h e = (Ret a, e') ->
  m e = (Ret a, e')
  \/ exists x e1, m e = (Raise x, e1) /\ classes x = true /\ h x e1 = (Ret a, e').
Proof.
  unfold try_except. destruct (m e) as [[a0|x] e1]; intro H.
  - now left.
  - destruct (classes x) eqn:Ec; [|discriminate H]. right. eauto.
Qed.

Lemma subscript_Ret_inv (entry : json) (key : string) (v : json) :
  subscript entry key = Ret v ->
  exists members, entry = JObj members /\ dict_get key members = Some v.
Proof.
  unfold subscript. destruct entry as [| | | | | |members]; try discriminate.
  destruct (dict_get key members) as [v0|] eqn:E; [|discriminate].
  intro H. inversion H; subst. eauto.
Qed.

Lemma line_entries_spec (cb : bool) (entries : list json) :
  forall (nf nf' : list json) (e e' : env World Progress),
    line_entries cfg K cb entries nf e = (Ret nf', e') ->
    exists exhausted : list (list (string * json) * json * json),
      nf' = (nf ++ map (fun '(_, count, value) =>
                          JObj [("count", count); ("value", value)])
                     exhausted)%list
      /\ subsequence (map (fun '(members, _, _) => JObj members) exhausted)
           entries
      /\ Forall (fun '(members, count, value) =>
                   dict_get "count" members = Some count
                   /\ dict_get "value" members = Some value) exhausted
      /\ exhausted_counts (app_log e')
         = (rev (map (fun '(_, count, _) => count) exhausted)
            ++ exhausted_counts (app_log e))%list
      /\ (forall I : option string -> Prop,
             recorder_invariant K I -> I (failed_json e) -> I (failed_json e')).
Proof.
  induction entries as [|entry entries IH]; intros nf nf' e e' H;
    cbn [line_entries map] in *.
  - unfold ret in H. inversion H; subst. exists []. simpl. rewrite app_nil_r.
    repeat split; auto. constructor.
  - apply bind_Ret_inv in H. destruct H as [count [e0 [Hc H]]].
    apply lift_Ret_inv in Hc. destruct Hc as [Hc ->].
    apply bind_Ret_inv in H. destruct H as [value [e0 [Hv H]]].
    apply lift_Ret_inv in Hv. destruct Hv as [Hv ->].
    apply bind_Ret_inv in H. destruct H as [text_failed [e0 [Ht H]]].
    apply lift_Ret_inv in Ht. destruct Ht as [Ht ->].
    apply bind_Ret_inv in H. destruct H as [nf1 [e1 [Hr H]]].
    apply bind_Ret_inv in H. destruct H as [[] [e2 [Hp H]]].
    apply line_retries_spec in Hr. destruct Hr as [Hq Hcase].
    assert (Hl2 : app_log e2 = app_log e1 /\ failed_json e2 = failed_json e1).
    { unfold report_progress in Hp. destruct cb.
      - unfold bind, update, ret in Hp. inversion Hp. now subst.
      - unfold ret in Hp. inversion Hp. now subst. }
    destruct Hl2 as [Hl2 Hf2].
    apply IH in H. destruct H as [exhausted [Hn [Hs [Hd [Hx Hk]]]]].
    apply subscript_Ret_inv in Hc. destruct Hc as [members [-> Hc]].
    apply subscript_Ret_inv in Hv. destruct Hv as [members' [Hm Hv]].
    inversion Hm; subst members'. clear Hm.
    destruct Hcase as [[Hnf Hex]|[Hnf Hex]]; subst nf1.
    + exists ((members, count, value) :: exhausted). repeat split.
      * rewrite Hn. cbn [map]. now rewrite <- app_assoc.
      * cbn [map]. now constructor.
      * constructor; [split; assumption | exact Hd].
      * rewrite Hx, Hl2, Hex. cbn [map rev]. now rewrite <- app_assoc.
      * intros I HI H0. apply (Hk I HI). rewrite Hf2. exact (Hq I HI H0).
    + exists exhausted. repeat split.
      * exact Hn.
      * now constructor.
      * exact Hd.
      * now rewrite Hx, Hl2, Hex.
      * intros I HI H0. apply (Hk I HI). rewrite Hf2. exact (Hq I HI H0).
Qed.

(** C8, as amended. Let the queue file hold a non-empty array of plain
    entries (no float, no lone surrogate in them) and let
    [_retranslate_failed_lines] return.  There
    is a list of entries of the queue, in the order of the queue, each a
    dictionary with a "count" and a "value", such that the counts for
    which the log reports the failure of the second attempt are exactly
    theirs.  If the list is not empty, the queue file holds, whatever
    the Result Recorder wrote to it during the tier, exactly the
    serialisation of one object {count: that count, value: that value}
    per entry of the list.  If the list is empty, the tier writes
    nothing after the empty array it started with: the file holds what
    the Result Recorder made of the empty array, that is, every property
    of the file that holds of the empty array and that no call of the
    recorder destroys holds at the end. *)
Theorem line_tier_requeues_exhausted_entries
    (cb : bool) (e e' : env World Progress) (text : string) (entries : list json) :
  failed_json e = Some text ->
  json_loads text = Some (JArr entries) ->
  entries <> [] ->
  forallb plain_value entries = true ->
  _retranslate_failed_lines cfg K cb e = (Ret tt, e') ->
  exists exhausted : list (list (string * json) * json * json),
    subsequence (map (fun '(members, _, _) => JObj members) exhausted) entries
    /\ Forall (fun '(members, count, value) =>
                 dict_get "count" members = Some count
                 /\ dict_get "value" members = Some value) exhausted
    /\ exhausted_counts (app_log e')
       = (rev (map (fun '(_, count, _) => count) exhausted)
          ++ exhausted_counts (app_log e))%list
    /\ (exhausted <> [] ->
        failed_json e'
        = Some (json_dumps
                  (JArr (map (fun '(_, count, value) =>
                                JObj [("count", count); ("value", value)])
                           exhausted))))
    /\ (exhausted = [] ->
        forall I : option string -> Prop,
          recorder_invariant K I -> I (Some "[]") -> I (failed_json e')).
Proof.
  intros Hf Hp Hne _ H. unfold _retranslate_failed_lines in H.
  apply bind_Ret_inv in H. destruct H as [file [e0 [Hg H]]].
  unfold get in Hg. inversion Hg; subst file e0. clear Hg.
  rewrite Hf in H.
  destruct (utf8_valid text); [|discriminate H]. cbn [negb] in H.
  rewrite Hp in H.
  destruct entries as [|entry entries]; [contradiction|].
  cbn [truthy negb] in H.
  apply bind_Ret_inv in H. destruct H as [[] [e0 [Hu H]]].
  unfold update in Hu. inversion Hu; subst e0. clear Hu.
  apply bind_Ret_inv in H. destruct H as [l [e0 [Hl H]]].
  unfold ret in Hl. inversion Hl; subst l e0. clear Hl.
  apply bind_Ret_inv in H. destruct H as [nf [e1 [El H]]].
  apply line_entries_spec in El.
  destruct El as [exhausted [Hn [Hs [Hd [Hx Hk]]]]].
  simpl in Hn. subst nf. simpl in Hx, Hk.
  exists exhausted.
  destruct exhausted as [|[[members count] value] exhausted].
  - unfold log, update in H. inversion H; subst.
    simpl. repeat split; auto. now intros [].
  - cbn [map] in H.
    apply bind_Ret_inv in H. destruct H as [[] [e2 [Hu H]]].
    unfold update in Hu. inversion Hu; subst e2. clear Hu.
    unfold log, update in H. inversion H; subst.
    simpl. repeat split; auto. discriminate.
Qed.

End LineFacts.

Lemma demo_recorder_keeps_queue : queue_kept (Demo.collaborators false).
Proof.
  intros w q s t. unfold Demo.collaborators, Demo.recorder. simpl.
  destruct t as [text|]; [|reflexivity].
  destruct (json_loads s) as [[| | | | | |units]|]; try reflexivity.
  destruct (json_loads text) as [[| | | | | |translated]|]; try reflexivity.
  now destruct (Demo.record_units units translated (Demo.store w)) as [[st fresh] un].
Qed.


Lemma line_tier_requeues_exhausted_entries_witness :
  failed_json Scenario.three_lines_after
  = Some (Scenario.queue_of [(2, "two")]%Z)
  /\ exists exhausted : list (list (string * json) * json * json),
      subsequence (map (fun '(members, _, _) => JObj members) exhausted)
        [JObj [("count", JInt 1); ("value", JStr "one")];
         JObj [("count", JInt 2); ("value", JStr "two")];
         JObj [("count", JInt 3); ("value", JStr "three")]]
      /\ Forall (fun '(members, count, value) =>
                   dict_get "count" members = Some count
                   /\ dict_get "value" members = Some value) exhausted
      /\ exhausted_counts (app_log Scenario.three_lines_after)
         = (rev (map (fun '(_, count, _) => count) exhausted)
            ++ exhausted_counts (app_log Scenario.three_lines))%list
      /\ (exhausted <> [] ->
          failed_json Scenario.three_lines_after
          = Some (json_dumps
                    (JArr (map (fun '(_, count, value) =>
                                  JObj [("count", count); ("value", value)])
                             exhausted))))
      /\ (exhausted = [] ->
          forall I : option string -> Prop,
            recorder_invariant (Demo.collaborators false) I ->
            I (Some "[]") -> I (failed_json Scenario.three_lines_after)).
Proof.
  split; [reflexivity|].
  apply (line_tier_requeues_exhausted_entries Demo.settings
           (Demo.collaborators false) true Scenario.three_lines
           Scenario.three_lines_after
           (Scenario.queue_of [(1, "one"); (2, "two"); (3, "three")]%Z)).
  - reflexivity.
  - vm_compute. reflexivity.
  - discriminate.
  - reflexivity.
  - vm_compute. reflexivity.
Defined.

(** C8, counterexample. The queue holds unit 1; the backend answers its
    line with a mapping that has no text for it, and a Result Recorder
    that re-queues what it could not resolve puts the unit back in the
    file the tier had emptied.  No attempt ends in the [except] clause,
    so no entry is exhausted and the tier writes nothing more: it logs
    that all lines were retranslated and the file holds unit 1, not the
    empty array. *)
Lemma line_tier_leaves_what_the_recorder_queued :
  let run :=
    _retranslate_failed_lines Demo.settings (Demo.collaborators true) true
      Cases.answer_without_the_unit in
  fst run = Ret tt
  /\ exhausted_counts (app_log (snd run)) = []
  /\ app_log (snd run) = [Info_all_lines_retranslated]
  /\ failed_json (snd run) = Some (Scenario.queue_of [(1, "one")]%Z)
  /\ failed_json (snd run) <> Some "[]"
  /\ Demo.store (world (snd run)) = [].
Proof. vm_compute. repeat split. discriminate. Qed.


(** ** Further facts *)

(** The queue file that [json.dump] writes (indent 4, no ASCII escapes)
    for a list of units is read back by [json.load] as the list of their
    entries, whatever the texts of the units are. *)
Theorem queue_file_roundtrip (units : list (Z * string)) :
  json_loads (json_dumps (JArr (map entry_json units)))
  = Some (JArr (map entry_json units)).
Proof. exact (json_loads_queue units). Qed.

Section QueueFacts.

Context {World Progress : Type}.
Variable cfg : config.
Variable K : Collaborators World Progress.
Hypothesis kept : queue_kept K.

#[local] Abbreviation Mq := (M (World:=World) (Progress:=Progress)).

Lemma keeps_ret {A} (a : A) : keeps_queue (ret a : Mq A).
Proof. intro e. reflexivity. Qed.

Lemma keeps_raise {A} (x : exn) : keeps_queue (raise x : Mq A).
Proof. intro e. reflexivity. Qed.

Lemma keeps_lift {A} (r : result A) : keeps_queue (lift r : Mq A).
Proof. intro e. reflexivity. Qed.

Lemma keeps_update (f : env World Progress -> env World Progress) :
  (forall e, failed_json (f e) = failed_json e) -> keeps_queue (update f).
Proof. intros H e. unfold update. simpl. apply H. Qed.

Lemma keeps_bind {A B} (m : Mq A) (k : A -> Mq B) :
  keeps_queue m -> (forall a, keeps_queue (k a)) -> keeps_queue (bind m k).
Proof.
  intros Hm Hk e. unfold bind. specialize (Hm e).
  destruct (m e) as [[a|x] e1]; simpl in *.
  - now rewrite Hk.
  - exact Hm.
Qed.

Lemma keeps_try_except {A} (m : Mq A) (classes : exn -> bool) (h : exn -> Mq A) :
  keeps_queue m -> (forall x, keeps_queue (h x)) ->
  keeps_queue (try_except m classes h).
Proof.
  intros Hm Hh e. unfold try_except. specialize (Hm e).
  destruct (m e) as [[a|x] e1]; simpl in *.
  - exact Hm.
  - destruct (classes x); simpl; [now rewrite Hh | exact Hm].
Qed.

Lemma keeps_call_translate_text (segment : string) :
  keeps_queue (call_translate_text cfg K segment).
Proof.
  intro e. unfold call_translate_text.
  now destruct (translate_text K (world e) segment (previous_text e) cfg).
Qed.

Lemma keeps_call_process_translation_results_r (segment : string) (t : pytext) :
  keeps_queue (call_process_translation_results_r K segment t).
Proof.
  intro e. unfold call_process_translation_results_r.
  pose proof (kept (world e) (failed_json e) segment t) as H.
  destruct (process_translation_results K (world e) (failed_json e) segment t)
    as [[w f] r].
  exact H.
Qed.

Ltac keeping :=
  repeat first
    [ apply keeps_ret
    | apply keeps_raise
    | apply keeps_lift
    | apply keeps_update; intro; reflexivity
    | apply keeps_call_translate_text
    | apply keeps_call_process_translation_results_r
    | apply keeps_bind; [|intro]
    | apply keeps_try_except; [|intro]
    | assumption
    | match goal with
      | |- keeps_queue (match ?x with _ => _ end) => destruct x
      | |- keeps_queue (if ?x then _ else _) => destruct x
      end ].

Lemma keeps_report_progress (cb : bool) (v : progress_value Progress)
    (desc : string) (logged : bool) :
  keeps_queue (report_progress cb v desc logged : Mq unit).
Proof. unfold report_progress, log. keeping. Qed.

Lemma keeps_batch_attempt (segment : string) (n : nat) (t : option pytext)
    (has : bool) :
  keeps_queue (batch_attempt cfg K segment n t has).
Proof. unfold batch_attempt, batch_except, append_combined, log. keeping. Qed.

Lemma keeps_batch_retries (retries : list nat) (segment : string) :
  forall (t : option pytext) (has : bool) (last : pytext),
    keeps_queue (batch_retries cfg K retries segment t has last).
Proof.
  induction retries as [|n retries IH]; intros t has last; cbn [batch_retries].
  - unfold append_combined, log. keeping.
  - apply keeps_bind; [apply keeps_batch_attempt|].
    intros [[t' has'] [last'|]]; [apply IH | apply keeps_ret].
Qed.

Lemma keeps_batch_segments (cb : bool) (segments : list (string * Progress)) :
  forall (t : option pytext) (has : bool),
    keeps_queue (batch_segments cfg K cb segments t has).
Proof.
  induction segments as [|[segment progress] segments IH]; intros t has;
    cbn [batch_segments].
  - apply keeps_ret.
  - apply keeps_bind; [apply keeps_batch_retries|]. intro a.
    apply keeps_bind; [apply keeps_report_progress|]. intro u. apply IH.
Qed.

(** With a Result Recorder that leaves FAILED_JSON_PATH alone, a round of
    the batch retry ends with the queue file as it found it (the round
    had nothing to do, or the Segmenter gave no stream) or holding the
    empty array: once the file is cleared, the round writes nothing to
    it, however the translation of its segments went. *)
Theorem batch_round_writes_nothing_back (cb : bool) (e : env World Progress) :
  let e' := snd (retranslate_failed_content cfg K cb e) in
  failed_json e' = failed_json e
  \/ (failed_json e' = Some "[]"
      /\ exists segments,
           stream_segment_json K (world e) (failed_json e) FAILED_JSON_PATH cfg
             (previous_text e) = Ret (Some segments)).
Proof.
  intro e'. subst e'.
  remember (retranslate_failed_content cfg K cb e) as run eqn:Hr.
  unfold retranslate_failed_content in Hr.
  unfold bind at 1, log, update in Hr. unfold bind at 1, get in Hr.
  cbn [failed_json add_log] in Hr.
  destruct (failed_json e) as [text|] eqn:Ef.
  2: { left. subst run. simpl. exact Ef. }
  destruct (utf8_valid text); cbn [negb] in Hr;
    [|left; subst run; simpl; exact Ef].
  destruct (json_loads text) as [data|]; [|left; subst run; simpl; exact Ef].
  destruct (negb (truthy data)); [left; subst run; simpl; exact Ef|].
  unfold bind at 1, call_stream_segment_json in Hr.
  cbn [world failed_json previous_text add_log] in Hr. rewrite Ef in Hr.
  destruct (stream_segment_json K (world e) (Some text) FAILED_JSON_PATH cfg
              (previous_text e)) as [[segments|]|x].
  - right. split; [|now exists segments].
    unfold bind at 1, get in Hr. cbn [failed_json add_log] in Hr.
    rewrite Ef in Hr.
    unfold bind at 1 in Hr. unfold bind at 1, update, log in Hr.
    subst run. rewrite keeps_batch_segments. reflexivity.
  - left. subst run. simpl. exact Ef.
  - left. subst run. simpl. exact Ef.
Qed.

End QueueFacts.

Lemma batch_round_writes_nothing_back_witness :
  failed_json
    (snd (retranslate_failed_content Demo.settings (Demo.collaborators false) true
            Scenario.second_segment_fails))
  = Some "[]".
Proof.
  destruct (batch_round_writes_nothing_back Demo.settings (Demo.collaborators false)
              demo_recorder_keeps_queue true Scenario.second_segment_fails)
    as [H|[H _]].
  - vm_compute in H. discriminate H.
  - exact H.
Defined.

(** In the primary pass, when the body of the [try] completes for an
    output, the context window is made of the three lines before the
    last one of the cleaned output when this has at least four lines, and
    is the default of the language pair otherwise. *)
Theorem primary_context_window_rule {World Progress : Type} (cfg : config)
    (K : Collaborators World Progress) (segment : string) (t : pytext)
    (e e' : env World Progress) :
  primary_try cfg K segment t e = (Ret tt, e') ->
  exists cleaned,
    clean_json K t = Ret cleaned
    /\ previous_text e'
       = if (4 <=? length (splitlines cleaned))%nat
         then join nl (py_slice (splitlines cleaned) (-4) (-1))
         else previous_text_default cfg.
Proof.
  unfold primary_try. intro H.
  apply bind_Ret_inv in H as (u1 & e1 & _ & H).
  apply bind_Ret_inv in H as (u2 & e2 & _ & H).
  apply bind_Ret_inv in H as (cleaned & e3 & Hc & H).
  apply lift_Ret_inv in Hc as [Hc ->].
  exists cleaned. split; [exact Hc|].
  apply bind_Ret_inv in H as (u4 & e4 & Hw & H).
  unfold append_combined, update in H. inversion H; subst e'. clear H.
  cbn [previous_text set_combined].
  destruct (4 <=? length (splitlines cleaned))%nat.
  - unfold update in Hw. inversion Hw; subst e4. reflexivity.
  - unfold bind, log, update in Hw. inversion Hw; subst e4. reflexivity.
Qed.

Lemma primary_context_window_rule_witness :
  exists cleaned,
    clean_json (Demo.collaborators false) (Some (Demo.mapping [("1", "bonjour")]))
    = Ret cleaned
    /\ previous_text
         (snd (primary_try Demo.settings (Demo.collaborators false)
                 (Demo.mapping [("1", "hello")])
                 (Some (Demo.mapping [("1", "bonjour")]))
                 Scenario.short_answer_in_primary))
       = if (4 <=? length (splitlines cleaned))%nat
         then join nl (py_slice (splitlines cleaned) (-4) (-1))
         else previous_text_default Demo.settings.
Proof.
  apply (primary_context_window_rule Demo.settings (Demo.collaborators false)
           (Demo.mapping [("1", "hello")]) (Some (Demo.mapping [("1", "bonjour")]))
           Scenario.short_answer_in_primary).
  vm_compute. reflexivity.
Defined.

(** When the first call of [translate_text] in the primary pass raises
    one of the exceptions of the [except] clause, the clause reads the
    unbound [translated_text]: [translate_content] ends in an
    [UnboundLocalError], whatever the other segments and the other
    collaborators are. *)
Theorem first_call_error_always_escapes {World Progress : Type}
    (cfg : config) (K : Collaborators World Progress) (cb : bool)
    (segment : string) (progress : Progress) (rest : list (string * Progress))
    (e : env World Progress) (w : World) (x : exn) :
  stream_segment_json K (world e) (failed_json e) SRC_JSON_PATH cfg (previous_text e)
  = Ret (Some ((segment, progress) :: rest)) ->
  translate_text K (world e) segment (previous_text e) cfg = (w, Raise x) ->
  caught_by_retry x = true ->
  fst (translate_content cfg K cb e) = Raise UnboundLocalError.
Proof.
  intros Hs Ht Hx. unfold translate_content.
  unfold bind at 1, log, update. unfold bind at 1, call_stream_segment_json.
  cbn [world failed_json previous_text add_log]. rewrite Hs.
  unfold bind at 1, log, update. unfold bind at 1, update.
  unfold bind at 1. cbn [primary_pass].
  unfold bind at 1. cbn [primary_retries].
  unfold bind at 1. unfold primary_attempt.
  unfold bind at 1. unfold call_translate_text.
  cbn [world previous_text set_combined add_log]. rewrite Ht.
  unfold try_except, bind, lift, log, update, raise. rewrite Hx. reflexivity.
Qed.

Lemma first_call_error_always_escapes_witness :
  fst (translate_content Demo.settings (Demo.collaborators true) true
         Scenario.first_call_fails_then_answers)
  = Raise UnboundLocalError.
Proof.
  eapply (first_call_error_always_escapes Demo.settings (Demo.collaborators true)
            true _ _ _ Scenario.first_call_fails_then_answers _ ValueError);
    reflexivity.
Defined.

(** ** Attributes that a step leaves alone *)

Section KeepFacts.

Context {World Progress X : Type}.
Variable cfg : config.
Variable K : Collaborators World Progress.
Variable f : env World Progress -> X.
Hypothesis own : own_attribute f.

#[local] Abbreviation Mk := (M (World:=World) (Progress:=Progress)).

Lemma kept_ret {A} (a : A) : keeps f (ret a : Mk A).
Proof. intro e. reflexivity. Qed.

Lemma kept_raise {A} (x : exn) : keeps f (raise x : Mk A).
Proof. intro e. reflexivity. Qed.

Lemma kept_lift {A} (r : result A) : keeps f (lift r : Mk A).
Proof. intro e. reflexivity. Qed.

Lemma kept_get {A} (g : env World Progress -> A) : keeps f (get g).
Proof. intro e. reflexivity. Qed.

Lemma kept_bind {A B} (m : Mk A) (k : A -> Mk B) :
  keeps f m -> (forall a, keeps f (k a)) -> keeps f (bind m k).
Proof.
  intros Hm Hk e. unfold bind. specialize (Hm e).
  destruct (m e) as [[a|x] e1]; simpl in *.
  - now rewrite Hk.
  - exact Hm.
Qed.

Lemma kept_try_except {A} (m : Mk A) (classes : exn -> bool) (h : exn -> Mk A) :
  keeps f m -> (forall x, keeps f (h x)) -> keeps f (try_except m classes h).
Proof.
  intros Hm Hh e. unfold try_except. specialize (Hm e).
  destruct (m e) as [[a|x] e1]; simpl in *.
  - exact Hm.
  - destruct (classes x); simpl; [now rewrite Hh | exact Hm].
Qed.

Lemma kept_log (r : log_record) : keeps f (log r : Mk unit).
Proof. intro e. unfold log, update. simpl. apply own. Qed.

Lemma kept_set_failed_json (q : option string) :
  keeps f (update (set_failed_json q) : Mk unit).
Proof. intro e. unfold update. simpl. apply own. Qed.

Lemma kept_append_combined (t : pytext) : keeps f (append_combined t : Mk unit).
Proof. intro e. unfold append_combined, update. simpl. apply own. Qed.

Lemma kept_report_progress (cb : bool) (v : progress_value Progress)
    (desc : string) (logged : bool) :
  keeps f (report_progress cb v desc logged : Mk unit).
Proof.
  intro e. unfold report_progress.
  destruct cb; [|reflexivity]. unfold bind, update. simpl.
  destruct logged; unfold log, update, ret; simpl.
  - destruct own as (_ & _ & _ & Hl & Hp). now rewrite Hl, Hp.
  - apply own.
Qed.

Lemma kept_call_translate_text (segment : string) :
  keeps f (call_translate_text cfg K segment).
Proof.
  intro e. unfold call_translate_text.
  destruct (translate_text K (world e) segment (previous_text e) cfg).
  simpl. apply own.
Qed.

Lemma kept_call_process_translation_results (segment : string) (t : pytext) :
  keeps f (call_process_translation_results K segment t).
Proof.
  intro e. unfold call_process_translation_results.
  destruct (process_translation_results K (world e) (failed_json e) segment t)
    as [[w q] r].
  simpl. destruct own as (Hw & Hq & _). now rewrite Hq, Hw.
Qed.

Lemma kept_call_process_translation_results_r (segment : string) (t : pytext) :
  keeps f (call_process_translation_results_r K segment t).
Proof.
  intro e. unfold call_process_translation_results_r.
  destruct (process_translation_results K (world e) (failed_json e) segment t)
    as [[w q] r].
  simpl. destruct own as (Hw & Hq & _). now rewrite Hq, Hw.
Qed.

Lemma kept_mark_segment_as_failed (segment : string) :
  keeps f (_mark_segment_as_failed K segment).
Proof.
  unfold _mark_segment_as_failed.
  repeat first
    [ apply kept_ret | apply kept_raise | apply kept_lift | apply kept_get
    | apply kept_log | apply kept_set_failed_json
    | apply kept_bind; [|intro]
    | apply kept_try_except; [|intro]
    | match goal with
      | |- keeps _ (match ?x with _ => _ end) => destruct x
      end ].
Qed.

End KeepFacts.

Lemma own_previous_text {W P} : own_attribute (@previous_text W P).
Proof. repeat split. Qed.

Lemma own_failed_status {W P} : own_attribute (@failed_status W P).
Proof. repeat split. Qed.

Lemma bind_inv {W P A B} (m : M (World:=W) (Progress:=P) A) (k : A -> M B)
    (e e' : env W P) (r : result B) :
  bind m k e = (r, e') ->
  (exists x, m e = (Raise x, e') /\ r = Raise x)
  \/ exists a e1, m e = (Ret a, e1) /\ k a e1 = (r, e').
Proof.
  unfold bind. destruct (m e) as [[a|x] e1]; intro H.
  - right. eauto.
  - left. inversion H; subst. eauto.
Qed.

(** ** The context window *)

Section ContextFacts.

Context {World Progress : Type}.
Variable cfg : config.
Variable K : Collaborators World Progress.

Lemma py_slice_short {A} (l : list A) :
  (length l < 4)%nat -> py_slice l (-4) (-1) = removelast l.
Proof.
  destruct l as [|a [|b [|c [|d l]]]]; simpl; intro H; try reflexivity; lia.
Qed.

Lemma primary_try_raise_keeps (segment : string) (t : pytext)
    (e e' : env World Progress) (x : exn) :
  primary_try cfg K segment t e = (Raise x, e') ->
  previous_text e' = previous_text e.
Proof.
  unfold primary_try. intro H.
  apply bind_inv in H as [(x0 & H & _)|(u1 & e1 & H1 & H)].
  { pose proof (f_equal snd H) as Hs. simpl in Hs. rewrite <- Hs.
    destruct (text_truthy t); [reflexivity|].
    apply (kept_bind previous_text); [apply kept_log, own_previous_text|].
    intro. apply kept_raise. }
  assert (E1 : previous_text e1 = previous_text e).
  { pose proof (f_equal snd H1) as Hs. simpl in Hs. rewrite <- Hs.
    destruct (text_truthy t); [reflexivity|].
    apply (kept_bind previous_text); [apply kept_log, own_previous_text|].
    intro. apply kept_raise. }
  apply bind_inv in H as [(x0 & H & _)|(u2 & e2 & H2 & H)].
  { pose proof (f_equal snd H) as Hs. simpl in Hs. rewrite <- Hs, <- E1.
    apply (kept_call_process_translation_results K previous_text own_previous_text). }
  assert (E2 : previous_text e2 = previous_text e).
  { pose proof (f_equal snd H2) as Hs. simpl in Hs. rewrite <- Hs, <- E1.
    apply (kept_call_process_translation_results K previous_text own_previous_text). }
  apply bind_inv in H as [(x0 & H & _)|(cleaned & e3 & H3 & H)].
  { unfold lift in H. inversion H; subst. exact E2. }
  exfalso. unfold bind, update, log, append_combined in H.
  destruct (4 <=? length (splitlines cleaned))%nat; simpl in H; discriminate H.
Qed.

(** The batch retry takes [splitlines()[-4:-1]] of the cleaned output
    after every attempt that ends in [break], whatever the number of its
    lines: with fewer than four lines the context window becomes the
    lines of the output but the last, joined by newlines (the empty text
    for an output of one line or none); it is never reset to the
    default. *)
Theorem batch_context_window_rule (segment : string) (n : nat)
    (t t' : option pytext) (has has' : bool) (e e' : env World Progress) :
  batch_attempt cfg K segment n t has e = (Ret (t', has', None), e') ->
  exists text cleaned,
    t' = Some text
    /\ clean_json K text = Ret cleaned
    /\ previous_text e' = join nl (py_slice (splitlines cleaned) (-4) (-1))
    /\ ((length (splitlines cleaned) < 4)%nat ->
        previous_text e' = join nl (removelast (splitlines cleaned))).
Proof.
  unfold batch_attempt. intro H.
  apply bind_Ret_inv in H as (r & e1 & _ & H).
  destruct r as [text|x].
  2: { destruct (caught_by_retry x); [|discriminate H].
       unfold batch_except, bind, log, update in H. simpl in H.
       destruct t; inversion H. }
  apply bind_Ret_inv in H as (rr & e2 & _ & H).
  apply try_except_Ret_inv in H as [H|(x & e3 & _ & _ & H)].
  2: { unfold batch_except, bind, log, update in H. simpl in H. inversion H. }
  apply bind_Ret_inv in H as (u1 & e3 & _ & H).
  apply bind_Ret_inv in H as (u2 & e4 & _ & H).
  apply bind_Ret_inv in H as (cleaned & e5 & Hc & H).
  apply lift_Ret_inv in Hc as [Hc ->].
  unfold bind, update, append_combined, ret in H. simpl in H.
  inversion H; subst. clear H.
  exists text, cleaned. repeat split; try assumption.
  intro Hl. simpl. now rewrite py_slice_short.
Qed.

(** The line-by-line tier takes the output itself, stripped and not
    cleaned: after an attempt whose [try] completes, the context window
    is made of its last three lines when it has at least three, and is
    the default of the language pair otherwise. *)
Theorem line_context_window_rule (text_failed : string) (t : pytext)
    (last : string) (e e' : env World Progress) :
  line_try cfg K text_failed t e = (Ret last, e') ->
  exists s,
    t = Some s
    /\ last = strip s
    /\ previous_text e'
       = if (3 <=? length (splitlines (strip s)))%nat
         then join nl (py_slice_from (splitlines (strip s)) (-3))
         else previous_text_default cfg.
Proof.
  unfold line_try. intro H.
  apply bind_Ret_inv in H as (b & e1 & _ & H).
  destruct t as [s|]; [|discriminate H].
  exists s. split; [reflexivity|].
  apply bind_Ret_inv in H as (u & e2 & Hu & H).
  unfold ret in H. inversion H; subst. clear H. split; [reflexivity|].
  destruct (3 <=? length (splitlines (strip s)))%nat;
    unfold update in Hu; inversion Hu; reflexivity.
Qed.

(** An attempt that does not end in [break] leaves the context window as
    it was, in each of the three tiers: the next attempt and the next
    segment are translated in the context of the last success. *)
Theorem failed_attempt_keeps_context_window :
  (forall segment n t e r e',
      primary_attempt cfg K segment n t e = (r, e') ->
      (forall t', r <> Ret (t', None)) ->
      previous_text e' = previous_text e)
  /\ (forall segment n t has e r e',
         batch_attempt cfg K segment n t has e = (r, e') ->
         (forall t' has', r <> Ret (t', has', None)) ->
         previous_text e' = previous_text e)
  /\ (forall count text_failed n e r e',
         line_attempt cfg K count text_failed n e = (r, e') ->
         (forall last, r <> Ret (Some last)) ->
         previous_text e' = previous_text e).
Proof.
  split; [|split].
  - intros segment n t e r e' H Hr. unfold primary_attempt in H.
    apply bind_inv in H as [(x & H & _)|(r0 & e1 & H1 & H)].
    { unfold call_translate_text in H.
      destruct (translate_text K (world e) segment (previous_text e) cfg).
      discriminate H. }
    assert (E1 : previous_text e1 = previous_text e).
    { pose proof (f_equal snd H1) as Hs. simpl in Hs. rewrite <- Hs.
      apply (kept_call_translate_text cfg K previous_text own_previous_text). }
    unfold try_except in H.
    destruct (bind (lift r0) _ e1) as [[a|x] e2] eqn:Hb.
    + exfalso. apply bind_Ret_inv in Hb as (t0 & e3 & _ & Hb).
      apply bind_Ret_inv in Hb as (u & e4 & _ & Hb).
      unfold ret in Hb. inversion Hb; subst. inversion H; subst.
      now apply (Hr (match r0 with Ret t1 => Some t1 | Raise _ => t end)).
    + assert (E2 : previous_text e2 = previous_text e).
      { rewrite <- E1.
        apply bind_inv in Hb as [(x0 & Hb & _)|(t0 & e3 & Hl & Hb)].
        - unfold lift in Hb. now inversion Hb.
        - apply lift_Ret_inv in Hl as [_ ->].
          apply bind_inv in Hb as [(x0 & Hb & _)|(u & e4 & _ & Hb)].
          + now apply primary_try_raise_keeps in Hb.
          + discriminate Hb. }
      destruct (caught_by_retry x).
      * rewrite <- E2.
        pose proof (f_equal snd H) as Hs. simpl in Hs. rewrite <- Hs.
        apply (kept_bind previous_text); [apply kept_log, own_previous_text|].
        intros _.
        destruct (match r0 with Ret t1 => Some t1 | Raise _ => t end);
          [|apply kept_raise].
        apply (kept_bind previous_text); [|intro; apply kept_ret].
        destruct (n =? 1)%nat; [|apply kept_ret].
        apply (kept_bind previous_text); [apply kept_log, own_previous_text|].
        intros _. apply kept_mark_segment_as_failed, own_previous_text.
      * inversion H; subst. exact E2.
  - intros segment n t has e r e' H Hr. unfold batch_attempt in H.
    apply bind_inv in H as [(x & H & _)|(r0 & e1 & H1 & H)].
    { unfold call_translate_text in H.
      destruct (translate_text K (world e) segment (previous_text e) cfg).
      discriminate H. }
    assert (E1 : previous_text e1 = previous_text e).
    { pose proof (f_equal snd H1) as Hs. simpl in Hs. rewrite <- Hs.
      apply (kept_call_translate_text cfg K previous_text own_previous_text). }
    assert (Hx : forall n0 t0 has0 x0 e0 r1 e2,
               batch_except n0 t0 has0 x0 e0 = (r1, e2) ->
               previous_text e2 = previous_text (e0 : env World Progress)).
    { intros n0 t0 has0 x0 e0 r1 e2 Hbx.
      unfold batch_except, bind, log, update in Hbx. simpl in Hbx.
      destruct t0; inversion Hbx; reflexivity. }
    destruct r0 as [text|x].
    2: { destruct (caught_by_retry x).
         - apply Hx in H. congruence.
         - inversion H; subst. exact E1. }
    apply bind_inv in H as [(x & H & _)|(rr & e2 & H2 & H)].
    { unfold call_process_translation_results_r in H.
      destruct (process_translation_results K (world e1) (failed_json e1)
                  segment text) as [[w q] r1].
      discriminate H. }
    assert (E2 : previous_text e2 = previous_text e).
    { rewrite <- E1. pose proof (f_equal snd H2) as Hs. simpl in Hs. rewrite <- Hs.
      apply (kept_call_process_translation_results_r K previous_text
               own_previous_text). }
    unfold try_except in H.
    match type of H with
    | (match ?body e2 with _ => _ end) = _ =>
        destruct (body e2) as [[a|x] e3] eqn:Hb
    end.
    + exfalso.
      apply bind_Ret_inv in Hb as (u1 & e4 & _ & Hb).
      apply bind_Ret_inv in Hb as (u2 & e5 & _ & Hb).
      apply bind_Ret_inv in Hb as (cleaned & e6 & _ & Hb).
      unfold bind, update, append_combined, ret in Hb. simpl in Hb.
      inversion Hb; subst. inversion H; subst. eapply Hr. reflexivity.
    + assert (E3 : previous_text e3 = previous_text e).
      { rewrite <- E2.
        apply bind_inv in Hb as [(x0 & Hb & _)|(u1 & e4 & Hl & Hb)].
        - unfold lift in Hb. now inversion Hb.
        - apply lift_Ret_inv in Hl as [_ ->].
          apply bind_inv in Hb as [(x0 & Hb & _)|(u2 & e5 & Hl & Hb)].
          + unfold log, update in Hb. discriminate Hb.
          + unfold log, update in Hl. inversion Hl; subst. clear Hl.
            apply bind_inv in Hb as [(x0 & Hb & _)|(cleaned & e6 & Hl & Hb)].
            * unfold lift in Hb. now inversion Hb.
            * exfalso. unfold bind, update, append_combined, ret in Hb.
              discriminate Hb. }
      destruct (caught_by_retry x).
      * apply Hx in H. congruence.
      * inversion H; subst. exact E3.
  - intros count text_failed n e r e' H Hr. unfold line_attempt in H.
    apply bind_inv in H as [(x & H & _)|(r0 & e1 & H1 & H)].
    { unfold call_translate_text in H.
      destruct (translate_text K (world e) text_failed (previous_text e) cfg).
      discriminate H. }
    assert (E1 : previous_text e1 = previous_text e).
    { pose proof (f_equal snd H1) as Hs. simpl in Hs. rewrite <- Hs.
      apply (kept_call_translate_text cfg K previous_text own_previous_text). }
    unfold try_except in H.
    match type of H with
    | (match ?body e1 with _ => _ end) = _ =>
        destruct (body e1) as [[a|x] e2] eqn:Hb
    end.
    + exfalso.
      apply bind_Ret_inv in Hb as (t0 & e3 & _ & Hb).
      apply bind_Ret_inv in Hb as (last & e4 & _ & Hb).
      unfold ret in Hb. inversion Hb; subst. inversion H; subst.
      now apply (Hr last).
    + assert (E2 : previous_text e2 = previous_text e).
      { rewrite <- E1.
        apply bind_inv in Hb as [(x0 & Hb & _)|(t0 & e3 & Hl & Hb)].
        - unfold lift in Hb. now inversion Hb.
        - apply lift_Ret_inv in Hl as [_ ->].
          apply bind_inv in Hb as [(x0 & Hb & _)|(last & e4 & _ & Hb)];
            [|discriminate Hb].
          unfold line_try in Hb.
          apply bind_inv in Hb as [(x1 & Hb & _)|(b & e4 & Hp & Hb)].
          + pose proof (f_equal snd Hb) as Hs. simpl in Hs. rewrite <- Hs.
            apply (kept_call_process_translation_results K previous_text
                     own_previous_text).
          + assert (E4 : previous_text e4 = previous_text e1).
            { pose proof (f_equal snd Hp) as Hs. simpl in Hs. rewrite <- Hs.
              apply (kept_call_process_translation_results K previous_text
                       own_previous_text). }
            destruct t0 as [s|].
            * exfalso. unfold bind, update, ret in Hb.
              destruct (3 <=? length (splitlines (strip s)))%nat; discriminate Hb.
            * unfold raise in Hb. inversion Hb; subst. exact E4. }
      destruct (caught_by_retry x).
      * unfold bind, log, update, ret in H. inversion H; subst. exact E2.
      * inversion H; subst. exact E2.
Qed.

End ContextFacts.

(** ** The flag [failed_status] *)

Section FlagFacts.

Context {World Progress : Type}.
Variable cfg : config.
Variable K : Collaborators World Progress.

#[local] Abbreviation Mf := (M (World:=World) (Progress:=Progress)).

Lemma flag_update (g : env World Progress -> env World Progress) :
  (forall e, failed_status (g e) = failed_status e) ->
  keeps failed_status (update g : Mf unit).
Proof. intros H e. unfold update. simpl. apply H. Qed.

Ltac flag :=
  repeat first
    [ apply kept_ret | apply kept_raise | apply kept_lift | apply kept_get
    | apply kept_log; apply own_failed_status
    | apply kept_append_combined; apply own_failed_status
    | apply kept_report_progress; apply own_failed_status
    | apply kept_call_translate_text; apply own_failed_status
    | apply kept_call_process_translation_results; apply own_failed_status
    | apply kept_mark_segment_as_failed; apply own_failed_status
    | apply flag_update; intro; reflexivity
    | apply kept_bind; [|intro]
    | apply kept_try_except; [|intro]
    | match goal with
      | |- keeps _ (match ?x with _ => _ end) => destruct x
      | |- keeps _ (if ?x then _ else _) => destruct x
      end ].

Lemma flag_primary_attempt (segment : string) (n : nat) (t : option pytext) :
  keeps failed_status (primary_attempt cfg K segment n t).
Proof. unfold primary_attempt, primary_try. flag. Qed.

Lemma flag_primary_retries (retries : list nat) (segment : string) :
  forall (t : option pytext) (last : pytext),
    keeps failed_status (primary_retries cfg K retries segment t last).
Proof.
  induction retries as [|n retries IH]; intros t last; cbn [primary_retries].
  - flag.
  - apply kept_bind; [apply flag_primary_attempt|].
    intros [t' [last'|]]; [apply IH | apply kept_ret].
Qed.

Lemma flag_primary_pass (cb : bool) (segments : list (string * Progress)) :
  forall t : option pytext,
    keeps failed_status (primary_pass cfg K cb segments t).
Proof.
  induction segments as [|[segment progress] segments IH]; intro t;
    cbn [primary_pass].
  - apply kept_ret.
  - apply kept_bind; [apply flag_primary_retries|]. intro t'.
    apply kept_bind; [apply kept_report_progress, own_failed_status|].
    intro u. apply IH.
Qed.

(** The recovery tiers run only for a translator whose [failed_status]
    is set, and nothing but [__init__] sets it before they run: on a
    translator whose flag is cleared, as every run leaves it that does
    not enter the line-by-line tier, [translate_content] is the primary
    pass alone.  No round of the batch retry and no line-by-line tier
    follows, and what the primary pass has put in the Failure Queue
    stays there. *)
Theorem recovery_needs_failed_status (cb : bool)
    (segments : list (string * Progress)) (e : env World Progress) :
  stream_segment_json K (world e) (failed_json e) SRC_JSON_PATH cfg (previous_text e)
  = Ret (Some segments) ->
  failed_status e = false ->
  translate_content cfg K cb e
  = primary_pass cfg K cb segments None (primary_start e)
  /\ failed_status (snd (translate_content cfg K cb e)) = false.
Proof.
  intros Hs Hf.
  assert (H : translate_content cfg K cb e
              = primary_pass cfg K cb segments None (primary_start e)).
  { unfold translate_content.
    unfold bind at 1, log, update. unfold bind at 1, call_stream_segment_json.
    cbn [world failed_json previous_text add_log]. rewrite Hs.
    unfold bind at 1, log, update. unfold bind at 1, update.
    fold (primary_start e).
    pose proof (flag_primary_pass cb segments None (primary_start e)) as Hk.
    unfold bind at 1.
    destruct (primary_pass cfg K cb segments None (primary_start e))
      as [[[]|x] e1]; [|reflexivity].
    simpl in Hk. unfold primary_start in Hk. simpl in Hk. rewrite Hf in Hk.
    unfold recovery_tiers. unfold bind at 1. cbn [batch_rounds].
    unfold bind at 1, get. cbn [negb]. rewrite Hk. cbn [negb].
    unfold ret at 1. unfold bind at 1, get. rewrite Hk. reflexivity. }
  split; [exact H|]. rewrite H.
  rewrite (flag_primary_pass cb segments None (primary_start e)). exact Hf.
Qed.

(** Only [JSONDecodeError], [ValueError] and [RuntimeError] are retried.
    When [translate_text] raises anything else for a segment of the
    primary pass, the pass ends at once with that exception: no second
    attempt, no record in the log, nothing put in the Failure Queue, and
    the segments that follow are not translated. *)
Theorem uncaught_error_aborts_primary_pass (cb : bool) (segment : string)
    (progress : Progress) (rest : list (string * Progress)) (t : option pytext)
    (e : env World Progress) (w : World) (x : exn) :
  translate_text K (world e) segment (previous_text e) cfg = (w, Raise x) ->
  caught_by_retry x = false ->
  primary_pass cfg K cb ((segment, progress) :: rest) t e
  = (Raise x, set_world w e).
Proof.
  intros Ht Hx. cbn [primary_pass primary_retries].
  unfold bind at 1. unfold bind at 1. unfold primary_attempt.
  unfold bind at 1, call_translate_text. rewrite Ht.
  unfold try_except, bind, lift. rewrite Hx. reflexivity.
Qed.

End FlagFacts.

(** ** The queue file when a tier fails *)

Section LineQueueFacts.

Context {World Progress : Type}.
Variable cfg : config.
Variable K : Collaborators World Progress.
Variable I : option string -> Prop.
Hypothesis recorder_keeps : recorder_invariant K I.

#[local] Abbreviation Ml := (M (World:=World) (Progress:=Progress)).









End LineQueueFacts.



(** ** Segments that cannot be queued *)

Section MarkRejects.

Context {World Progress : Type}.
Variable K : Collaborators World Progress.



End MarkRejects.

(** ** The calls of the backend *)

Section CallFacts.

Context {World Progress : Type}.
Variable cfg : config.
Variable K : Collaborators World Progress.

#[local] Abbreviation Mc := (M (World:=World * nat) (Progress:=Progress)).

Lemma costs_weaken {A} (a b : nat) (m : Mc A) :
  (a <= b)%nat -> costs a m -> costs b m.
Proof. intros Hab H e. specialize (H e). lia. Qed.

Lemma costs_bind {A B} (a b : nat) (m : Mc A) (k : A -> Mc B) :
  costs a m -> (forall x, costs b (k x)) -> costs (a + b) (bind m k).
Proof.
  intros Hm Hk e. unfold bind. specialize (Hm e).
  destruct (m e) as [[x|x] e1]; simpl in *.
  - specialize (Hk x e1). lia.
  - lia.
Qed.

Lemma free_bind {A B} (m : Mc A) (k : A -> Mc B) :
  costs 0 m -> (forall x, costs 0 (k x)) -> costs 0 (bind m k).
Proof. intros Hm Hk. now apply (costs_bind 0 0). Qed.

Lemma free_try_except {A} (a : nat) (m : Mc A) (classes : exn -> bool)
    (h : exn -> Mc A) :
  costs a m -> (forall x, costs 0 (h x)) -> costs a (try_except m classes h).
Proof.
  intros Hm Hh e. unfold try_except. specialize (Hm e).
  destruct (m e) as [[x|x] e1]; simpl in *; [exact Hm|].
  destruct (classes x); simpl; [|exact Hm].
  specialize (Hh x e1). lia.
Qed.

Lemma free_ret {A} (a : A) : costs 0 (ret a : Mc A).
Proof. intro e. simpl. lia. Qed.

Lemma free_raise {A} (x : exn) : costs 0 (raise x : Mc A).
Proof. intro e. simpl. lia. Qed.

Lemma free_lift {A} (r : result A) : costs 0 (lift r : Mc A).
Proof. intro e. simpl. lia. Qed.

Lemma free_get {A} (g : env (World * nat) Progress -> A) : costs 0 (get g).
Proof. intro e. simpl. lia. Qed.

Lemma free_update (g : env (World * nat) Progress -> env (World * nat) Progress) :
  (forall e, world (g e) = world e) -> costs 0 (update g).
Proof. intros H e. unfold update, calls. simpl. rewrite H. lia. Qed.

Lemma free_call_process_translation_results (segment : string) (t : pytext) :
  costs 0 (call_process_translation_results (counting K) segment t).
Proof.
  intro e. unfold call_process_translation_results, calls. simpl.
  destruct (process_translation_results K (fst (world e)) (failed_json e)
              segment t) as [[w q] r].
  simpl. lia.
Qed.

Lemma free_call_process_translation_results_r (segment : string) (t : pytext) :
  costs 0 (call_process_translation_results_r (counting K) segment t).
Proof.
  intro e. unfold call_process_translation_results_r, calls. simpl.
  destruct (process_translation_results K (fst (world e)) (failed_json e)
              segment t) as [[w q] r].
  simpl. lia.
Qed.

Lemma one_call_translate_text (segment : string) :
  costs 1 (call_translate_text cfg (counting K) segment).
Proof.
  intro e. unfold call_translate_text, calls. simpl.
  destruct (translate_text K (fst (world e)) segment (previous_text e) cfg)
    as [w r].
  simpl. lia.
Qed.

Ltac free :=
  repeat first
    [ apply free_ret | apply free_raise | apply free_lift | apply free_get
    | apply free_update; intro; reflexivity
    | apply free_call_process_translation_results
    | apply free_call_process_translation_results_r
    | apply free_bind; [|intro]
    | apply free_try_except; [|intro]
    | match goal with
      | |- costs _ (match ?x with _ => _ end) => destruct x
      | |- costs _ (if ?x then _ else _) => destruct x
      end ].

Lemma free_report_progress (cb : bool) (v : progress_value Progress)
    (desc : string) (logged : bool) :
  costs 0 (report_progress cb v desc logged : Mc unit).
Proof. unfold report_progress, log. free. Qed.

Lemma free_mark_segment_as_failed (segment : string) :
  costs 0 (_mark_segment_as_failed (counting K) segment).
Proof. unfold _mark_segment_as_failed, log. free. Qed.

Lemma one_call_primary_attempt (segment : string) (n : nat) (t : option pytext) :
  costs 1 (primary_attempt cfg (counting K) segment n t).
Proof.
  unfold primary_attempt.
  apply (costs_bind 1 0); [apply one_call_translate_text|]. intro r.
  apply free_try_except.
  - unfold primary_try, append_combined, log. free.
  - intro x. unfold log.
    apply free_bind; [free|]. intros _.
    destruct (match r with Ret t0 => Some t0 | Raise _ => t end); [|free].
    apply free_bind; [|intro; free].
    destruct (n =? 1)%nat; [|free].
    apply free_bind; [free|]. intros _. apply free_mark_segment_as_failed.
Qed.

Lemma calls_primary_retries (retries : list nat) (segment : string) :
  forall (t : option pytext) (last : pytext),
    costs (length retries) (primary_retries cfg (counting K) retries segment t last).
Proof.
  induction retries as [|n retries IH]; intros t last; cbn [primary_retries length].
  - unfold append_combined, log. free.
  - apply (costs_bind 1 (length retries)); [apply one_call_primary_attempt|].
    intros [t' [last'|]]; [apply IH|].
    apply (costs_weaken 0); [lia | apply free_ret].
Qed.

Lemma calls_primary_pass (cb : bool) (segments : list (string * Progress)) :
  forall t : option pytext,
    costs (2 * length segments) (primary_pass cfg (counting K) cb segments t).
Proof.
  induction segments as [|[segment progress] segments IH]; intro t;
    cbn [primary_pass length].
  - apply free_ret.
  - replace (2 * S (length segments))%nat
      with (2 + (0 + 2 * length segments))%nat by lia.
    apply costs_bind; [apply (calls_primary_retries [0; 1]%nat)|]. intro t'.
    apply costs_bind; [apply free_report_progress|]. intro u. apply IH.
Qed.

Lemma one_call_batch_attempt (segment : string) (n : nat) (t : option pytext)
    (has : bool) :
  costs 1 (batch_attempt cfg (counting K) segment n t has).
Proof.
  unfold batch_attempt.
  apply (costs_bind 1 0); [apply one_call_translate_text|]. intro r.
  unfold batch_except, append_combined, log. free.
Qed.

Lemma calls_batch_retries (retries : list nat) (segment : string) :
  forall (t : option pytext) (has : bool) (last : pytext),
    costs (length retries)
      (batch_retries cfg (counting K) retries segment t has last).
Proof.
  induction retries as [|n retries IH]; intros t has last;
    cbn [batch_retries length].
  - unfold append_combined, log. free.
  - apply (costs_bind 1 (length retries)); [apply one_call_batch_attempt|].
    intros [[t' has'] [last'|]]; [apply IH|].
    apply (costs_weaken 0); [lia | apply free_ret].
Qed.

Lemma calls_batch_segments (cb : bool) (segments : list (string * Progress)) :
  forall (t : option pytext) (has : bool),
    costs (2 * length segments)
      (batch_segments cfg (counting K) cb segments t has).
Proof.
  induction segments as [|[segment progress] segments IH]; intros t has;
    cbn [batch_segments length].
  - apply free_ret.
  - replace (2 * S (length segments))%nat
      with (2 + (0 + 2 * length segments))%nat by lia.
    apply costs_bind; [apply (calls_batch_retries [0; 1]%nat)|]. intro a.
    apply costs_bind; [apply free_report_progress|]. intro u. apply IH.
Qed.

Lemma one_call_line_attempt (count : json) (text_failed : string) (n : nat) :
  costs 1 (line_attempt cfg (counting K) count text_failed n).
Proof.
  unfold line_attempt.
  apply (costs_bind 1 0); [apply one_call_translate_text|]. intro r.
  unfold line_try, log. free.
Qed.

Lemma calls_line_retries (retries : list nat) (count value : json)
    (text_failed : string) (last : pytext) (nf : list json) :
  costs (length retries)
    (line_retries cfg (counting K) retries count value text_failed last nf).
Proof.
  induction retries as [|n retries IH]; cbn [line_retries length].
  - unfold log. free.
  - apply (costs_bind 1 (length retries)); [apply one_call_line_attempt|].
    intros [s|]; [|apply IH].
    apply (costs_weaken 0); [lia | apply free_ret].
Qed.

Lemma calls_line_entries (cb : bool) (entries : list json) :
  forall nf : list json,
    costs (2 * length entries) (line_entries cfg (counting K) cb entries nf).
Proof.
  induction entries as [|entry entries IH]; intro nf; cbn [line_entries length].
  - apply free_ret.
  - replace (2 * S (length entries))%nat
      with (0 + (0 + (0 + (2 + (0 + 2 * length entries)))))%nat by lia.
    apply costs_bind; [apply free_lift|]. intro count.
    apply costs_bind; [apply free_lift|]. intro value.
    apply costs_bind; [apply free_lift|]. intro text_failed.
    apply costs_bind; [apply (calls_line_retries [0; 1]%nat)|]. intro nf'.
    apply costs_bind; [apply free_report_progress|]. intro u. apply IH.
Qed.

(** Whatever the collaborators do, [translate_text] is called at most
    twice for each segment of the primary pass, at most twice for each
    segment of a round of the batch retry, and at most twice for each
    entry of the line-by-line tier; this holds for runs that an exception
    ends as well. *)
Theorem two_calls_per_segment (cb : bool) :
  (forall segments t e,
      calls (snd (primary_pass cfg (counting K) cb segments t e))
      <= calls e + 2 * length segments)%nat
  /\ (forall segments t has e,
         calls (snd (batch_segments cfg (counting K) cb segments t has e))
         <= calls e + 2 * length segments)%nat
  /\ (forall entries nf e,
         calls (snd (line_entries cfg (counting K) cb entries nf e))
         <= calls e + 2 * length entries)%nat.
Proof.
  split; [|split].
  - intros segments t e. apply calls_primary_pass.
  - intros segments t has e. apply calls_batch_segments.
  - intros entries nf e. apply calls_line_entries.
Qed.

End CallFacts.

(** ** Runs *)

Lemma batch_context_window_rule_witness :
  exists text cleaned,
    Some (Some (Demo.mapping [("1", "bonjour")])) = Some text
    /\ clean_json (Demo.collaborators true) text = Ret cleaned
    /\ previous_text
         (snd (batch_attempt Demo.settings (Demo.collaborators true)
                 (Demo.mapping [("1", "hello")]) 0 None false
                 Scenario.short_answer_in_batch))
       = join nl (py_slice (splitlines cleaned) (-4) (-1))
    /\ ((length (splitlines cleaned) < 4)%nat ->
        previous_text
          (snd (batch_attempt Demo.settings (Demo.collaborators true)
                  (Demo.mapping [("1", "hello")]) 0 None false
                  Scenario.short_answer_in_batch))
        = join nl (removelast (splitlines cleaned))).
Proof.
  apply (batch_context_window_rule Demo.settings (Demo.collaborators true)
           (Demo.mapping [("1", "hello")]) 0 None
           (Some (Some (Demo.mapping [("1", "bonjour")]))) false true
           Scenario.short_answer_in_batch).
  vm_compute. reflexivity.
Defined.

Lemma line_context_window_rule_witness :
  exists s,
    Some (Demo.mapping [("1", "un")]) = Some s
    /\ strip (Demo.mapping [("1", "un")]) = strip s
    /\ previous_text
         (snd (line_try Demo.settings (Demo.collaborators false)
                 (Demo.mapping [("1", "one")]) (Some (Demo.mapping [("1", "un")]))
                 Scenario.three_lines))
       = if (3 <=? length (splitlines (strip s)))%nat
         then join nl (py_slice_from (splitlines (strip s)) (-3))
         else previous_text_default Demo.settings.
Proof.
  apply (line_context_window_rule Demo.settings (Demo.collaborators false)
           (Demo.mapping [("1", "one")]) (Some (Demo.mapping [("1", "un")]))
           (strip (Demo.mapping [("1", "un")])) Scenario.three_lines).
  vm_compute. reflexivity.
Defined.

Lemma recovery_needs_failed_status_witness :
  translate_content Demo.settings (Demo.collaborators false) true
    Cases.second_document
  = primary_pass Demo.settings (Demo.collaborators false) true
      (Demo.document [[("1", "one")]]) None (primary_start Cases.second_document)
  /\ failed_status
       (snd (translate_content Demo.settings (Demo.collaborators false) true
               Cases.second_document)) = false.
Proof.
  apply (recovery_needs_failed_status Demo.settings (Demo.collaborators false) true
           (Demo.document [[("1", "one")]]) Cases.second_document);
    reflexivity.
Defined.

Lemma uncaught_error_aborts_primary_pass_witness :
  primary_pass Demo.settings (Demo.collaborators false) true
    (Demo.document [[("1", "one")]; [("2", "two")]]) None Cases.connection_lost
  = (Raise OSError,
     set_world
       (fst (Demo.invoker (world Cases.connection_lost)
               (Demo.mapping [("1", "one")]) (previous_text Cases.connection_lost)
               Demo.settings))
       Cases.connection_lost).
Proof.
  apply (uncaught_error_aborts_primary_pass Demo.settings
           (Demo.collaborators false) true (Demo.mapping [("1", "one")]) 0%nat
           (Demo.document [[("2", "two")]]) None Cases.connection_lost);
    reflexivity.
Defined.



(** ** What a round of the batch retry reports *)

Section RoundFacts.

Context {World Progress : Type}.
Variable cfg : config.
Variable K : Collaborators World Progress.

(** the Result Recorder never answers that a call yielded a new success *)
Hypothesis no_success :
  forall w q segment t,
    snd (process_translation_results K w q segment t) <> Ret true.

Lemma batch_attempt_reports (segment : string) (n : nat) (t t' : option pytext)
    (has has' : bool) (last : option pytext) (e e' : env World Progress) :
  batch_attempt cfg K segment n t has e = (Ret (t', has', last), e') ->
  has' = has.
Proof.
  unfold batch_attempt. intro H.
  apply bind_Ret_inv in H as (r & e1 & _ & H).
  assert (Hx : forall n0 t0 has0 x0 (e0 : env World Progress) e2,
             batch_except n0 t0 has0 x0 e0 = (Ret (t', has', last), e2) ->
             has' = has0).
  { intros n0 t0 has0 x0 e0 e2 Hbx.
    unfold batch_except, bind, log, update in Hbx. simpl in Hbx.
    destruct t0; inversion Hbx; reflexivity. }
  destruct r as [text|x].
  2: { destruct (caught_by_retry x); [now apply Hx in H | discriminate H]. }
  apply bind_Ret_inv in H as (rr & e2 & Hr & H).
  assert (Hrr : rr <> Ret true).
  { unfold call_process_translation_results_r in Hr.
    pose proof (no_success (world e1) (failed_json e1) segment text) as Hn.
    destruct (process_translation_results K (world e1) (failed_json e1)
                segment text) as [[w q] r1].
    inversion Hr; subst. exact Hn. }
  assert (Hh : match rr with Ret true => true | _ => has end = has).
  { destruct rr as [[|]|]; try reflexivity. now contradiction Hrr. }
  rewrite Hh in H.
  apply try_except_Ret_inv in H as [H|(x & e3 & _ & _ & H)];
    [|now apply Hx in H].
  apply bind_Ret_inv in H as (u1 & e3 & _ & H).
  apply bind_Ret_inv in H as (u2 & e4 & _ & H).
  apply bind_Ret_inv in H as (cleaned & e5 & _ & H).
  unfold bind, update, append_combined, ret in H. simpl in H.
  now inversion H.
Qed.

Lemma batch_retries_report (retries : list nat) (segment : string) :
  forall (t t' : option pytext) (has has' : bool) (last : pytext)
         (e e' : env World Progress),
    batch_retries cfg K retries segment t has last e = (Ret (t', has'), e') ->
    has' = has.
Proof.
  induction retries as [|n retries IH]; intros t t' has has' last e e' H;
    cbn [batch_retries] in H.
  - apply bind_Ret_inv in H as (u & e1 & _ & H). unfold ret in H.
    now inversion H.
  - apply bind_Ret_inv in H as ([[t1 has1] last1] & e1 & Ha & H).
    apply batch_attempt_reports in Ha. subst has1.
    destruct last1 as [last1|].
    + now apply IH in H.
    + unfold ret in H. now inversion H.
Qed.

Lemma batch_segments_report (cb : bool) (segments : list (string * Progress)) :
  forall (t : option pytext) (has b : bool) (e e' : env World Progress),
    batch_segments cfg K cb segments t has e = (Ret b, e') ->
    b = has.
Proof.
  induction segments as [|[segment progress] segments IH]; intros t has b e e' H;
    cbn [batch_segments] in H.
  - unfold ret in H. now inversion H.
  - apply bind_Ret_inv in H as ([t1 has1] & e1 & Ha & H).
    apply batch_retries_report in Ha. subst has1.
    apply bind_Ret_inv in H as (u & e2 & _ & H).
    now apply IH in H.
Qed.

(** A round of the batch retry reports a success only if the Result
    Recorder has answered one: with a recorder that never does, whatever
    the backend returns, every round that returns reports [False], so
    that the first round is the last one and the line-by-line tier does
    not run. *)
Theorem batch_round_success_comes_from_the_recorder (cb : bool)
    (e e' : env World Progress) (b : bool) :
  retranslate_failed_content cfg K cb e = (Ret b, e') ->
  b = false.
Proof.
  unfold retranslate_failed_content. intro H.
  apply bind_Ret_inv in H as (u & e1 & _ & H).
  apply bind_Ret_inv in H as (file & e2 & _ & H).
  destruct file as [text|].
  2: { apply bind_Ret_inv in H as (u1 & e3 & _ & H). unfold ret in H.
       now inversion H. }
  destruct (utf8_valid text); [|discriminate H]. cbn [negb] in H.
  destruct (json_loads text) as [data|].
  2: { apply bind_Ret_inv in H as (u1 & e3 & _ & H). unfold ret in H.
       now inversion H. }
  destruct (negb (truthy data)).
  { apply bind_Ret_inv in H as (u1 & e3 & _ & H). unfold ret in H.
    now inversion H. }
  apply bind_Ret_inv in H as (stream & e3 & _ & H).
  destruct stream as [segments|].
  2: { apply bind_Ret_inv in H as (u1 & e4 & _ & H). unfold ret in H.
       now inversion H. }
  apply bind_Ret_inv in H as (present & e4 & _ & H).
  apply bind_Ret_inv in H as (u1 & e5 & _ & H).
  now apply batch_segments_report in H.
Qed.

End RoundFacts.

Lemma deaf_recorder_never_reports :
  forall w q segment t,
    snd (process_translation_results Cases.deaf w q segment t) <> Ret true.
Proof.
  intros w q segment t. simpl. unfold Cases.deaf_recorder.
  destruct (Demo.recorder false w q segment t) as [[w' q'] [b|x]]; discriminate.
Qed.

Lemma batch_round_success_comes_from_the_recorder_witness :
  retranslate_failed_content Demo.settings Cases.deaf true
    Scenario.short_answer_in_batch
  = (Ret false,
     snd (retranslate_failed_content Demo.settings Cases.deaf true
            Scenario.short_answer_in_batch))
  /\ false = false.
Proof.
  split; [vm_compute; reflexivity|].
  apply (batch_round_success_comes_from_the_recorder Demo.settings Cases.deaf
           deaf_recorder_never_reports true Scenario.short_answer_in_batch
           (snd (retranslate_failed_content Demo.settings Cases.deaf true
                   Scenario.short_answer_in_batch))).
  vm_compute. reflexivity.
Defined.

(** ** [find_available_port] *)

Section PortFacts.

Variable connect_ex : Z -> Z.

Lemma py_range_nil (a b : Z) : (b <= a)%Z -> App.py_range a b = [].
Proof.
  intro H. unfold App.py_range. replace (Z.to_nat (b - a)) with 0%nat by lia.
  reflexivity.
Qed.

Lemma py_range_cons (a b : Z) :
  (a < b)%Z -> App.py_range a b = a :: App.py_range (a + 1) b.
Proof.
  intro H. unfold App.py_range.
  replace (Z.to_nat (b - a)) with (S (Z.to_nat (b - (a + 1)))) by lia.
  cbn [seq map]. f_equal; [lia|].
  rewrite <- seq_shift, map_map. apply map_ext. intro i. lia.
Qed.

Lemma probe_range (n : nat) :
  forall a b : Z,
    Z.to_nat (b - a) = n ->
    match App.probe connect_ex (App.py_range a b) with
    | Ret p =>
        (a <= p < b)%Z /\ (0 <= p <= 65535)%Z /\ connect_ex p <> 0%Z
        /\ forall q, (a <= q < p)%Z -> connect_ex q = 0%Z
    | Raise x =>
        (x = RuntimeError /\ forall q, (a <= q < b)%Z -> connect_ex q = 0%Z)
        \/ (x = OtherException
            /\ exists p, (a <= p < b)%Z /\ ~ (0 <= p <= 65535)%Z)
    end.
Proof.
  induction n as [|n IH]; intros a b Hn.
  - rewrite py_range_nil by lia. simpl. left. split; [reflexivity|]. intros q Hq. lia.
  - rewrite py_range_cons by lia. cbn [App.probe].
    destruct ((0 <=? a) && (a <=? 65535))%Z eqn:Hv.
    + apply andb_true_iff in Hv as [H0 H1].
      apply Z.leb_le in H0. apply Z.leb_le in H1.
      destruct (connect_ex a =? 0)%Z eqn:Hc; cbn [negb].
      * apply Z.eqb_eq in Hc. specialize (IH (a + 1)%Z b ltac:(lia)).
        destruct (App.probe connect_ex (App.py_range (a + 1) b)) as [p|x].
        -- destruct IH as (Hp & Hr & Hf & Hl).
           split; [lia|]. split; [lia|]. split; [assumption|].
           intros q Hq. destruct (Z.eq_dec q a) as [->|Hne]; [exact Hc|].
           apply Hl. lia.
        -- destruct IH as [[-> Hall]|[-> (p & Hp & Hbad)]].
           ++ left. split; [reflexivity|]. intros q Hq.
              destruct (Z.eq_dec q a) as [->|Hne]; [exact Hc|]. apply Hall. lia.
           ++ right. split; [reflexivity|]. exists p. split; [lia | exact Hbad].
      * apply Z.eqb_neq in Hc.
        repeat split; try lia; try assumption; intros q Hq; lia.
    + right. split; [reflexivity|]. exists a. split; [lia|].
      intro Hr. apply andb_false_iff in Hv as [Hv|Hv]; apply Z.leb_gt in Hv; lia.
Qed.

(** The port that [find_available_port] returns is the lowest port from
    [start_port] on that does not accept a connection: it lies among the
    [max_attempts] ports tried, and every port tried before it accepted a
    connection. *)
Theorem find_available_port_lowest (start_port max_attempts p : Z) :
  App.find_available_port connect_ex start_port max_attempts = Ret p ->
  (start_port <= p < start_port + max_attempts)%Z
  /\ connect_ex p <> 0%Z
  /\ forall q, (start_port <= q < p)%Z -> connect_ex q = 0%Z.
Proof.
  unfold App.find_available_port. intro H.
  pose proof (probe_range _ start_port (start_port + max_attempts)%Z eq_refl) as Hp.
  rewrite H in Hp. tauto.
Qed.

(** When the ports to try are valid port numbers, [find_available_port]
    raises [RuntimeError] exactly when each of them accepts a connection;
    with [max_attempts] at most 0 there is no port to try and it raises at
    once. *)
Theorem find_available_port_exhausted (start_port max_attempts : Z) :
  (0 <= start_port)%Z ->
  (start_port + max_attempts <= 65536)%Z ->
  App.find_available_port connect_ex start_port max_attempts = Raise RuntimeError
  <-> forall q, (start_port <= q < start_port + max_attempts)%Z ->
                connect_ex q = 0%Z.
Proof.
  intros H0 H1. unfold App.find_available_port.
  pose proof (probe_range _ start_port (start_port + max_attempts)%Z eq_refl) as Hp.
  destruct (App.probe connect_ex
              (App.py_range start_port (start_port + max_attempts))) as [p|x].
  - destruct Hp as (Hr & _ & Hf & _). split; [discriminate|].
    intro Hall. exfalso. apply Hf, Hall. exact Hr.
  - destruct Hp as [[-> Hall]|[-> (p & Hp & Hbad)]].
    + split; [intros _; exact Hall | reflexivity].
    + exfalso. apply Hbad. lia.
Qed.

End PortFacts.

Lemma find_available_port_lowest_witness :
  let connect_ex := fun port : Z => if (port <? 9983)%Z then 0%Z else 111%Z in
  (9980 <= 9983 < 9980 + 20)%Z
  /\ connect_ex 9983%Z <> 0%Z
  /\ forall q, (9980 <= q < 9983)%Z -> connect_ex q = 0%Z.
Proof.
  intro connect_ex.
  apply (find_available_port_lowest connect_ex 9980 20 9983). reflexivity.
Defined.

Lemma find_available_port_exhausted_witness :
  App.find_available_port (fun _ : Z => 0%Z) 9980 20 = Raise RuntimeError
  <-> forall q, (9980 <= q < 9980 + 20)%Z -> (fun _ : Z => 0%Z) q = 0%Z.
Proof.
  apply (find_available_port_exhausted (fun _ : Z => 0%Z) 9980 20); lia.
Defined.

(** ** [parse_accept_language] and [get_user_lang] *)

Lemma StronglySorted_among {A : Type} (R1 R2 : A -> A -> Prop) (l : list A) :
  StronglySorted R1 l ->
  (forall a b, In a l -> In b l -> R1 a b -> R2 a b) ->
  StronglySorted R2 l.
Proof.
  intro Hs. induction Hs as [|y l Hs IH Hy]; intro H; constructor.
  - apply IH. intros a b Ha Hb. apply H; now right.
  - rewrite Forall_forall in *. intros z Hz.
    apply H; [now left | now right | now apply Hy].
Qed.

Section SortedFacts.

Context {A F : Type}.
Variable lt : F -> F -> bool.
Variable key : A -> F.

Lemma insert_reverse_In (x z : A) (l : list A) :
  In z (App.insert_reverse lt key x l) <-> z = x \/ In z l.
Proof.
  induction l as [|y l IH]; simpl.
  - intuition.
  - destruct (lt (key x) (key y)); simpl; [rewrite IH|]; intuition.
Qed.

Lemma sorted_reverse_In (z : A) (l : list A) :
  In z (App.sorted_reverse lt key l) <-> In z l.
Proof.
  induction l as [|x l IH]; simpl; [reflexivity|].
  rewrite insert_reverse_In, IH. intuition.
Qed.

(** the first of the items that no other item outweighs comes first *)
Lemma sorted_reverse_head (before after : list A) (x : A) :
  (forall a, In a before -> lt (key a) (key x) = true) ->
  (forall a, In a after -> lt (key x) (key a) = false) ->
  exists rest, App.sorted_reverse lt key (before ++ x :: after)%list = x :: rest.
Proof.
  intros Hb Ha. induction before as [|b before IH]; simpl.
  - destruct (App.sorted_reverse lt key after) as [|y s] eqn:Es; simpl; [eauto|].
    rewrite Ha; [eauto|]. apply (proj1 (sorted_reverse_In _ _)). rewrite Es. now left.
  - destruct IH as [rest Hr]; [intros a Hin; apply Hb; now right|].
    fold (App.sorted_reverse lt key (before ++ x :: after)%list). rewrite Hr. simpl.
    rewrite Hb by now left. eauto.
Qed.

Variable rank : F -> Z.

Lemma insert_reverse_sorted (x : A) (l : list A) :
  App.ranked lt rank (map key (x :: l)) ->
  StronglySorted (fun a b => (rank (key b) <= rank (key a))%Z) l ->
  StronglySorted (fun a b => (rank (key b) <= rank (key a))%Z)
    (App.insert_reverse lt key x l).
Proof.
  intros Hr Hs. induction Hs as [|y l Hs IH Hy]; simpl.
  - repeat constructor.
  - assert (Hxy : lt (key x) (key y) = (rank (key x) <? rank (key y))%Z).
    { apply Hr; simpl; auto. }
    rewrite Hxy. destruct (rank (key x) <? rank (key y))%Z eqn:E.
    + apply Z.ltb_lt in E. constructor.
      * apply IH. intros a b Ha Hb. apply Hr; simpl in *; intuition.
      * apply Forall_forall. intros z Hz. apply insert_reverse_In in Hz.
        destruct Hz as [->|Hz]; [lia|].
        rewrite Forall_forall in Hy. now apply Hy.
    + apply Z.ltb_ge in E. constructor; [now constructor|].
      constructor; [exact E|].
      rewrite Forall_forall in *. intros z Hz. specialize (Hy z Hz). lia.
Qed.

Lemma sorted_reverse_sorted (l : list A) :
  App.ranked lt rank (map key l) ->
  StronglySorted (fun a b => (rank (key b) <= rank (key a))%Z)
    (App.sorted_reverse lt key l).
Proof.
  induction l as [|x l IH]; intro Hr; simpl; [constructor|].
  apply insert_reverse_sorted.
  - intros a b Ha Hb. apply Hr; simpl in *.
    + destruct Ha as [Ha|Ha]; [now left|]. right.
      apply in_map_iff in Ha as (z & <- & Hz). apply (proj1 (sorted_reverse_In _ _)) in Hz.
      now apply in_map.
    + destruct Hb as [Hb|Hb]; [now left|]. right.
      apply in_map_iff in Hb as (z & <- & Hz). apply (proj1 (sorted_reverse_In _ _)) in Hz.
      now apply in_map.
  - apply IH. intros a b Ha Hb. apply Hr; now right.
Qed.

Lemma insert_reverse_filter (x : A) (l : list A) (z : Z) :
  App.ranked lt rank (map key (x :: l)) ->
  filter (fun a => (rank (key a) =? z)%Z) (App.insert_reverse lt key x l)
  = filter (fun a => (rank (key a) =? z)%Z) (x :: l).
Proof.
  intro Hr. induction l as [|y l IH]; [reflexivity|].
  cbn [App.insert_reverse].
  assert (Hxy : lt (key x) (key y) = (rank (key x) <? rank (key y))%Z).
  { apply Hr; simpl; auto. }
  rewrite Hxy. destruct (rank (key x) <? rank (key y))%Z eqn:E; [|reflexivity].
  apply Z.ltb_lt in E.
  cbn [filter]. rewrite IH.
  2: { intros a b Ha Hb. apply Hr; simpl in *; intuition. }
  cbn [filter].
  destruct (rank (key x) =? z)%Z eqn:Ex, (rank (key y) =? z)%Z eqn:Ey;
    try reflexivity.
  apply Z.eqb_eq in Ex, Ey. lia.
Qed.

Lemma sorted_reverse_filter (l : list A) (z : Z) :
  App.ranked lt rank (map key l) ->
  filter (fun a => (rank (key a) =? z)%Z) (App.sorted_reverse lt key l)
  = filter (fun a => (rank (key a) =? z)%Z) l.
Proof.
  induction l as [|x l IH]; intro Hr; [reflexivity|].
  cbn [App.sorted_reverse fold_right].
  fold (App.sorted_reverse lt key l).
  rewrite insert_reverse_filter.
  - cbn [filter]. rewrite IH; [reflexivity|].
    intros a b Ha Hb. apply Hr; now right.
  - intros a b Ha Hb. apply Hr; simpl in *.
    + destruct Ha as [Ha|Ha]; [now left|]. right.
      apply in_map_iff in Ha as (y & <- & Hy). apply (proj1 (sorted_reverse_In _ _)) in Hy.
      now apply in_map.
    + destruct Hb as [Hb|Hb]; [now left|]. right.
      apply in_map_iff in Hb as (y & <- & Hy). apply (proj1 (sorted_reverse_In _ _)) in Hy.
      now apply in_map.
Qed.

End SortedFacts.

Section AcceptLanguageFacts.

Context {F : Type}.
Variable float : string -> option F.
Variable one : F.
Variable lt : F -> F -> bool.

Lemma parse_items_from (items : list string) :
  forall languages,
    App.parse_items float one items languages
    = match App.parse_items float one items [] with
      | Ret l => Ret (languages ++ l)%list
      | Raise x => Raise x
      end.
Proof.
  induction items as [|item items IH]; intro languages; simpl.
  - now rewrite app_nil_r.
  - destruct (App.parse_item float one item) as [[language|]|x]; try reflexivity.
    + rewrite IH. rewrite (IH [language]).
      destruct (App.parse_items float one items []); [|reflexivity].
      now rewrite <- app_assoc.
    + apply IH.
Qed.

Lemma parse_accept_language_listed (header : string) :
  App.parse_accept_language float one lt header
  = match App.parse_items float one (App.split header ",") [] with
    | Ret listed => Ret (App.sorted_reverse lt snd listed)
    | Raise x => Raise x
    end.
Proof.
  unfold App.parse_accept_language.
  destruct (String.eqb_spec header "") as [->|_]; reflexivity.
Qed.

(** [parse_accept_language] returns the languages that the header lists,
    the heaviest first: no language comes before a language of greater
    weight, and the languages of one weight come in the order of the
    header (so that each listed language is returned once).  This is for
    weights that [<] orders, that is when no weight is a NaN. *)
Theorem parse_accept_language_sorted (header : string)
    (languages : list (string * F)) (rank : F -> Z) :
  App.parse_accept_language float one lt header = Ret languages ->
  App.ranked lt rank (map snd languages) ->
  exists listed,
    App.parse_items float one (App.split header ",") [] = Ret listed
    /\ StronglySorted (fun a b => lt (snd a) (snd b) = false) languages
    /\ forall z,
         filter (fun a => (rank (snd a) =? z)%Z) languages
         = filter (fun a => (rank (snd a) =? z)%Z) listed.
Proof.
  rewrite parse_accept_language_listed. intros H Hr.
  destruct (App.parse_items float one (App.split header ",") []) as [listed|x];
    [|discriminate H].
  inversion H; subst languages. clear H.
  assert (Hl : App.ranked lt rank (map snd listed)).
  { intros a b Ha Hb.
    apply Hr; apply in_map_iff; [apply in_map_iff in Ha as (y & <- & Hy)
                                |apply in_map_iff in Hb as (y & <- & Hy)];
      (exists y; split; [reflexivity | now apply (proj2 (sorted_reverse_In _ _ _ _))]). }
  exists listed. split; [reflexivity|]. split.
  - apply (StronglySorted_among
             (fun a b : string * F => (rank (snd b) <= rank (snd a))%Z)).
    + now apply sorted_reverse_sorted.
    + intros a b Ha Hb Hab. rewrite Hr by now apply in_map.
      now apply Z.ltb_ge.
  - intro z. now apply sorted_reverse_filter.
Qed.

Lemma parse_item_raises (item : string) (x : exn) :
  App.parse_item float one item = Raise x
  <-> x = ValueError /\ App.malformed float item = true.
Proof.
  unfold App.parse_item, App.malformed.
  destruct (String.eqb_spec (strip item) "") as [->|_].
  - split; [discriminate | intros [_ H]; discriminate H].
  - destruct (App.contains ";q=" (strip item)); simpl.
    + destruct (App.split (strip item) ";q=") as [|lang [|q [|more rest]]];
        try (split; [intro H; inversion H; auto | intros [-> _]; reflexivity]).
      destruct (float q);
        (split; [intro H; inversion H; auto | intros [-> H]; try reflexivity;
                                             discriminate H]).
    + split; [discriminate | intros [_ H]; discriminate H].
Qed.

Lemma parse_items_raises (items : list string) (x : exn) :
  App.parse_items float one items [] = Raise x
  <-> x = ValueError /\ existsb (App.malformed float) items = true.
Proof.
  induction items as [|item items IH]; simpl.
  - split; [discriminate | intros [_ H]; discriminate H].
  - pose proof (parse_item_raises item) as Hi.
    destruct (App.parse_item float one item) as [[language|]|y].
    + rewrite parse_items_from.
      destruct (App.malformed float item) eqn:Em.
      * exfalso. destruct (Hi ValueError) as [_ Hi2].
        discriminate (Hi2 (conj eq_refl eq_refl)).
      * simpl. rewrite <- IH.
        destruct (App.parse_items float one items []);
          split; intro H; inversion H; auto.
    + destruct (App.malformed float item) eqn:Em.
      * exfalso. destruct (Hi ValueError) as [_ Hi2].
        discriminate (Hi2 (conj eq_refl eq_refl)).
      * simpl. exact IH.
    + destruct (Hi y) as [Hi1 _]. destruct (Hi1 eq_refl) as [-> Hm].
      rewrite Hm. simpl. split; [intro H; inversion H; auto | intros [-> _]; reflexivity].
Qed.

(** [get_user_lang] has no [except]: it raises [ValueError] exactly when
    an item of the lowered header cannot be read, wherever it stands in
    the header and whatever the other items are, and it raises nothing
    else. *)
Theorem get_user_lang_rejects_malformed_header (header : string) (x : exn) :
  App.is_ascii header = true ->
  App.get_user_lang float one lt (Some header) = Raise x
  <-> x = ValueError
      /\ existsb (App.malformed float) (App.split (App.lower header) ",") = true.
Proof.
  intros _. unfold App.get_user_lang. rewrite parse_accept_language_listed.
  rewrite <- parse_items_raises.
  destruct (App.parse_items float one (App.split (App.lower header) ",") [])
    as [listed|y].
  - destruct (App.sorted_reverse lt snd listed) as [|[lang q] rest];
      split; discriminate.
  - split; intro H; inversion H; reflexivity.
Qed.

(** [get_user_lang] answers for the language of the lowered header that
    no other language outweighs, the first one when there are several:
    its answer is the code of that language tag, whatever else the header
    lists. *)
Theorem get_user_lang_top_language (header : string)
    (before after : list (string * F)) (lang : string) (q : F) (rank : F -> Z) :
  App.is_ascii header = true ->
  App.parse_items float one (App.split (App.lower header) ",") []
  = Ret (before ++ (lang, q) :: after)%list ->
  App.ranked lt rank (map snd (before ++ (lang, q) :: after)%list) ->
  (forall a, In a before -> lt (snd a) q = true) ->
  (forall a, In a after -> lt q (snd a) = false) ->
  App.get_user_lang float one lt (Some header)
  = Ret (App.language_of (App.lower lang)).
Proof.
  intros _ Hp _ Hb Ha. unfold App.get_user_lang.
  rewrite parse_accept_language_listed, Hp.
  destruct (sorted_reverse_head lt snd before after (lang, q) Hb Ha) as [rest Hr].
  now rewrite Hr.
Qed.

End AcceptLanguageFacts.

Lemma parse_accept_language_sorted_witness :
  exists listed,
    App.parse_items App.thousandths 1000%Z
      (App.split "fr;q=0.8, de, en-US;q=0.9 ,ja" ",") [] = Ret listed
    /\ StronglySorted (fun a b => Z.ltb (snd a) (snd b) = false)
         [("de", 1000%Z); ("ja", 1000%Z); ("en-US", 900%Z); ("fr", 800%Z)]
    /\ forall z,
         filter (fun a => (snd a =? z)%Z)
           [("de", 1000%Z); ("ja", 1000%Z); ("en-US", 900%Z); ("fr", 800%Z)]
         = filter (fun a => (snd a =? z)%Z) listed.
Proof.
  apply (parse_accept_language_sorted App.thousandths 1000%Z Z.ltb
           "fr;q=0.8, de, en-US;q=0.9 ,ja"
           [("de", 1000%Z); ("ja", 1000%Z); ("en-US", 900%Z); ("fr", 800%Z)]
           (fun z => z)).
  - vm_compute. reflexivity.
  - intros a b _ _. reflexivity.
Defined.

Lemma get_user_lang_rejects_malformed_header_witness :
  App.get_user_lang App.thousandths 1000%Z Z.ltb (Some "de, FR;q=0.8;q=1")
  = Raise ValueError
  <-> ValueError = ValueError
      /\ existsb (App.malformed App.thousandths)
           (App.split (App.lower "de, FR;q=0.8;q=1") ",") = true.
Proof.
  apply (get_user_lang_rejects_malformed_header App.thousandths 1000%Z Z.ltb
           "de, FR;q=0.8;q=1" ValueError).
  reflexivity.
Defined.

Lemma get_user_lang_top_language_witness :
  App.get_user_lang App.thousandths 1000%Z Z.ltb
    (Some "fr;q=0.8, ZH-TW, en-US;q=0.9 ,ja")
  = Ret (App.language_of (App.lower "zh-tw")).
Proof.
  apply (get_user_lang_top_language App.thousandths 1000%Z Z.ltb
           "fr;q=0.8, ZH-TW, en-US;q=0.9 ,ja"
           [("fr", 800%Z)] [("en-us", 900%Z); ("ja", 1000%Z)] "zh-tw" 1000%Z
           (fun z => z)).
  - reflexivity.
  - vm_compute. reflexivity.
  - intros a b _ _. reflexivity.
  - intros a [<-|[]]. reflexivity.
  - intros a [<-|[<-|[]]]; reflexivity.
Defined.

(** ** Paths *)

Lemma string_drop_app (a b : string) : string_drop (String.length a) (a ++ b) = b.
Proof. induction a as [|c a IH]; simpl; [now destruct b | exact IH]. Qed.

Lemma substring_0_app (a b : string) : substring 0 (String.length a) (a ++ b) = a.
Proof.
  induction a as [|c a IH]; simpl; [now destruct b | now rewrite IH].
Qed.

Lemma string_app_split (a1 : string) :
  forall a2 b1 b2 : string,
    a1 ++ b1 = a2 ++ b2 ->
    (String.length a1 <= String.length a2)%nat ->
    exists m, a2 = a1 ++ m /\ b1 = m ++ b2.
Proof.
  induction a1 as [|c a1 IH]; intros a2 b1 b2 H Hl; simpl in *.
  - exists a2. split; [reflexivity | exact H].
  - destruct a2 as [|c2 a2]; simpl in *; [lia|].
    inversion H; subst c2.
    destruct (IH a2 b1 b2) as (m & -> & ->); [assumption | lia |].
    exists m. split; reflexivity.
Qed.

Lemma lacks_app (c : ascii) (a b : string) :
  Path.lacks c (a ++ b) = (Path.lacks c a && Path.lacks c b)%bool.
Proof.
  unfold Path.lacks. induction a as [|x a IH]; simpl; [reflexivity|].
  rewrite IH. now rewrite andb_assoc.
Qed.

Lemma rfind_from_lacks (c : ascii) (s : string) :
  forall i found, Path.lacks c s = true -> Path.rfind_from c s i found = found.
Proof.
  unfold Path.lacks. induction s as [|x s IH]; intros i found H; simpl in *;
    [reflexivity|].
  apply andb_true_iff in H as [Hx Hs]. rewrite IH by exact Hs.
  now destruct (Ascii.eqb x c).
Qed.

Lemma rfind_from_last (c : ascii) (a b : string) :
  forall i found,
    Path.lacks c b = true ->
    Path.rfind_from c (a ++ String c b) i found = (i + Z.of_nat (String.length a))%Z.
Proof.
  induction a as [|x a IH]; intros i found H; simpl.
  - rewrite Ascii.eqb_refl, rfind_from_lacks by exact H. lia.
  - rewrite IH by exact H. lia.
Qed.

Lemma last_occurrence (c : ascii) (s : string) :
  Path.lacks c s = true
  \/ exists a b, s = a ++ String c b /\ Path.lacks c b = true.
Proof.
  induction s as [|x s IH]; [now left|].
  destruct IH as [H|(a & b & -> & H)].
  - destruct (Ascii.eqb x c) eqn:E.
    + right. apply Ascii.eqb_eq in E. subst x. exists "", s. now split.
    + left. unfold Path.lacks in *. simpl. now rewrite E, H.
  - right. exists (String x a), b. now split.
Qed.

Lemma rfind_lacks (c : ascii) (s : string) :
  Path.lacks c s = true -> Path.rfind c s = (-1)%Z.
Proof. intro H. unfold Path.rfind. now apply rfind_from_lacks. Qed.

Lemma rfind_last (c : ascii) (a b : string) :
  Path.lacks c b = true ->
  Path.rfind c (a ++ String c b) = Z.of_nat (String.length a).
Proof. intro H. unfold Path.rfind. now rewrite rfind_from_last. Qed.

Lemma last_unique (c : ascii) (a1 a2 b1 b2 : string) :
  a1 ++ String c b1 = a2 ++ String c b2 ->
  Path.lacks c b1 = true -> Path.lacks c b2 = true ->
  a1 = a2 /\ b1 = b2.
Proof.
  intros H H1 H2.
  assert (Hl : String.length a1 = String.length a2).
  { pose proof (rfind_last c a1 b1 H1) as R1.
    pose proof (rfind_last c a2 b2 H2) as R2.
    rewrite H in R1. lia. }
  destruct (string_app_split a1 a2 _ _ H) as (m & -> & Hm); [lia|].
  rewrite string_length_app in Hl.
  destruct m; simpl in *; [|lia].
  inversion Hm. now rewrite string_app_nil_r.
Qed.

(** what [splitext] returns: the two parts make up the path, and the
    extension is empty or is the last dot with what follows it, in which
    there is neither a dot nor a separator *)
Lemma splitext_spec (p : string) :
  fst (Path.splitext p) ++ snd (Path.splitext p) = p
  /\ (snd (Path.splitext p) = ""
      \/ exists e, snd (Path.splitext p) = String "." e
                   /\ Path.lacks "." e = true /\ Path.lacks "/" e = true).
Proof.
  unfold Path.splitext.
  destruct (last_occurrence "." p) as [Hd|(a & e & Hp & He)].
  - rewrite (rfind_lacks "." p Hd).
    destruct (last_occurrence "/" p) as [Hs|(d & f & -> & Hf)].
    + rewrite (rfind_lacks "/" p Hs). simpl.
      split; [apply string_app_nil_r | now left].
    + rewrite rfind_last by exact Hf.
      destruct (Z.of_nat (String.length d) <? -1)%Z eqn:E;
        [apply Z.ltb_lt in E; lia|].
      simpl. split; [apply string_app_nil_r | now left].
  - assert (Hdot : Path.rfind "." p = Z.of_nat (String.length a))
      by (subst p; now apply rfind_last).
    rewrite Hdot.
    assert (Hparts : substring 0 (String.length a) p = a
                     /\ string_drop (String.length a) p = String "." e).
    { subst p. split; [apply substring_0_app | apply string_drop_app]. }
    destruct Hparts as [Hroot Hext].
    assert (Hsplit : forall leading,
               Path.lacks "/" e = true ->
               let r := if all_chars (Ascii.eqb ".") leading then (p, "")
                        else (substring 0 (Z.to_nat (Z.of_nat (String.length a))) p,
                              string_drop (Z.to_nat (Z.of_nat (String.length a))) p) in
               fst r ++ snd r = p
               /\ (snd r = ""
                   \/ exists e0, snd r = String "." e0
                                 /\ Path.lacks "." e0 = true
                                 /\ Path.lacks "/" e0 = true)).
    { intros leading Hle. rewrite Nat2Z.id, Hroot, Hext.
      destruct (all_chars (Ascii.eqb ".") leading); simpl.
      - split; [apply string_app_nil_r | now left].
      - split; [now subst p | right; now exists e]. }
    destruct (last_occurrence "/" p) as [Hs|(d & f & Hp2 & Hf)].
    + rewrite (rfind_lacks "/" p Hs).
      destruct (-1 <? Z.of_nat (String.length a))%Z eqn:E;
        [|apply Z.ltb_ge in E; lia].
      apply Hsplit. subst p. rewrite lacks_app in Hs.
      apply andb_true_iff in Hs as [_ Hs]. unfold Path.lacks in *. simpl in Hs.
      exact Hs.
    + assert (Hsep : Path.rfind "/" p = Z.of_nat (String.length d))
        by (rewrite Hp2; now apply rfind_last).
      rewrite Hsep.
      destruct (Z.of_nat (String.length d) <? Z.of_nat (String.length a))%Z eqn:E.
      * apply Z.ltb_lt in E. apply Hsplit.
        assert (Heq : (d ++ "/") ++ f = a ++ String "." e).
        { rewrite string_app_assoc. simpl. congruence. }
        destruct (string_app_split (d ++ "/") a f (String "." e) Heq)
          as (m & _ & Hm).
        { rewrite string_length_app. simpl. lia. }
        subst f. rewrite lacks_app in Hf.
        apply andb_true_iff in Hf as [_ Hf]. unfold Path.lacks in *. simpl in Hf.
        exact Hf.
      * simpl. split; [apply string_app_nil_r | now left].
Qed.

Lemma basename_spec (p : string) :
  (Path.lacks "/" p = true /\ Path.basename p = p)
  \/ exists d f, p = d ++ String "/" f /\ Path.lacks "/" f = true
                 /\ Path.basename p = f.
Proof.
  unfold Path.basename.
  destruct (last_occurrence "/" p) as [Hs|(d & f & -> & Hf)].
  - left. rewrite (rfind_lacks "/" p Hs). now split.
  - right. exists d, f. split; [reflexivity|]. split; [exact Hf|].
    rewrite rfind_last by exact Hf.
    replace (Z.to_nat (Z.of_nat (String.length d) + 1))
      with (String.length (d ++ "/")) by (rewrite string_length_app; simpl; lia).
    replace (d ++ String "/" f) with ((d ++ "/") ++ f)
      by (now rewrite string_app_assoc).
    apply string_drop_app.
Qed.

Lemma basename_lacks_sep (p : string) : Path.lacks "/" (Path.basename p) = true.
Proof.
  destruct (basename_spec p) as [[H ->]|(d & f & _ & H & ->)]; exact H.
Qed.

Lemma basename_app (p x : string) :
  Path.lacks "/" x = true -> Path.basename (p ++ x) = Path.basename p ++ x.
Proof.
  intro Hx. destruct (basename_spec p) as [[H ->]|(d & f & -> & H & ->)].
  - destruct (basename_spec (p ++ x)) as [[_ ->]|(d & f & Hp & Hf & _)];
      [reflexivity|].
    exfalso. assert (Hl : Path.lacks "/" (p ++ x) = true)
      by (rewrite lacks_app, H, Hx; reflexivity).
    rewrite Hp, lacks_app in Hl. apply andb_true_iff in Hl as [_ Hl].
    unfold Path.lacks in Hl. simpl in Hl. discriminate Hl.
  - destruct (basename_spec ((d ++ String "/" f) ++ x))
      as [[Hl _]|(d' & f' & Hp & Hf & ->)].
    + exfalso. rewrite !lacks_app in Hl.
      apply andb_true_iff in Hl as [Hl _]. apply andb_true_iff in Hl as [_ Hl].
      unfold Path.lacks in Hl. simpl in Hl. discriminate Hl.
    + rewrite string_app_assoc in Hp. simpl in Hp.
      symmetry. apply (last_unique "/" d d' (f ++ x) f'); [exact Hp | | exact Hf].
      now rewrite lacks_app, H, Hx.
Qed.

Lemma join_result (name : string) :
  App.startswith name "/" = false -> Path.join "result" name = "result/" ++ name.
Proof. intro H. unfold Path.join. now rewrite H. Qed.

Lemma translated_name_is_relative (file_name file_extension : string) :
  App.startswith (Path.basename file_name ++ "_translated" ++ file_extension) "/"
  = false.
Proof.
  pose proof (basename_lacks_sep file_name) as H.
  destruct (Path.basename file_name) as [|c b]; [reflexivity|].
  unfold Path.lacks in H. simpl in H. apply andb_true_iff in H as [H _].
  unfold App.startswith. cbn [append String.prefix].
  destruct (ascii_dec "/" c) as [<-|Hne]; [|reflexivity].
  rewrite Ascii.eqb_refl in H. discriminate H.
Qed.

(** ** [process] and [translate_file] *)

Section DriverFacts.

Context {World Progress Missing : Type}.
Variable K : Collaborators World Progress.
Variable St : Stages World Missing.
Variable LANGUAGE_MAP : list (string * string).
Variable one : Progress.

Lemma dbind_Ret_inv {A B} (m : D A) (k : A -> D B)
    (s s' : session World Progress) (b : B) :
  dbind m k s = (Ret b, s') ->
  exists a s1, m s = (Ret a, s1) /\ k a s1 = (Ret b, s').
Proof.
  unfold dbind. destruct (m s) as [[a|x] s1]; [eauto | discriminate].
Qed.

(** the path that [process] returns *)
Lemma process_returns_path (self : translator) (file_name file_extension : string)
    (cb : bool) (s s' : session World Progress) (path : string)
    (missing : Missing) :
  process K St self file_name file_extension cb s = (Ret (path, missing), s') ->
  path = "result/" ++ Path.basename file_name ++ "_translated" ++ file_extension
  /\ Path.lacks "/" (Path.basename file_name) = true.
Proof.
  unfold process. intro H.
  apply dbind_Ret_inv in H as (json_path & s1 & _ & H).
  apply dbind_Ret_inv in H as (u & s2 & _ & H).
  unfold process_finish in H.
  apply dbind_Ret_inv in H as (u1 & s3 & _ & H).
  apply dbind_Ret_inv in H as (m & s4 & _ & H).
  apply dbind_Ret_inv in H as (u2 & s5 & _ & H).
  apply dbind_Ret_inv in H as (u3 & s6 & _ & H).
  apply dbind_Ret_inv in H as (u4 & s7 & _ & H).
  unfold dret in H. inversion H; subst. split; [|apply basename_lacks_sep].
  apply join_result, translated_name_is_relative.
Qed.

(** The path that [process] returns is the base name of [file_name]
    followed by "_translated" and the extension, in the folder "result",
    whatever folder the input was in: the separators of [file_name] do
    not reach the output path. *)
Theorem process_output_path (self : translator) (file_name file_extension : string)
    (cb : bool) (s s' : session World Progress) (path : string)
    (missing : Missing) :
  process K St self file_name file_extension cb s = (Ret (path, missing), s') ->
  path = "result/" ++ Path.basename file_name ++ "_translated" ++ file_extension
  /\ Path.lacks "/" (Path.basename file_name) = true.
Proof. apply process_returns_path. Qed.

(** when [translate_content] raises, [process] ends there with the same
    exception: neither the validator nor the Writer runs *)
Lemma process_stops_with_the_pipeline (self : translator)
    (file_name file_extension : string) (cb : bool)
    (s s1 : session World Progress) (json_path : string)
    (x : exn) (e2 : env World Progress) :
  process_prepare St self cb s = (Ret json_path, s1) ->
  translate_content (settings self) K cb (run s1) = (Raise x, e2) ->
  process K St self file_name file_extension cb s = (Raise x, set_run e2 s1).
Proof.
  intros H1 H2. unfold process, dbind. rewrite H1.
  unfold pipeline. now rewrite H2.
Qed.

Lemma first_call_error_state (cfg : config) (cb : bool)
    (segment : string) (progress : Progress) (rest : list (string * Progress))
    (e : env World Progress) (w : World) (x : exn) :
  stream_segment_json K (world e) (failed_json e) SRC_JSON_PATH cfg (previous_text e)
  = Ret (Some ((segment, progress) :: rest)) ->
  translate_text K (world e) segment (previous_text e) cfg = (w, Raise x) ->
  caught_by_retry x = true ->
  exists e2,
    translate_content cfg K cb e = (Raise UnboundLocalError, e2)
    /\ world e2 = w.
Proof.
  intros Hs Ht Hx. unfold translate_content.
  unfold bind at 1, log, update. unfold bind at 1, call_stream_segment_json.
  cbn [world failed_json previous_text add_log]. rewrite Hs.
  unfold bind at 1, log, update. unfold bind at 1, update.
  unfold bind at 1. cbn [primary_pass].
  unfold bind at 1. cbn [primary_retries].
  unfold bind at 1. unfold primary_attempt.
  unfold bind at 1. unfold call_translate_text.
  cbn [world previous_text set_combined add_log]. rewrite Ht.
  unfold try_except, bind, lift, log, update, raise. rewrite Hx.
  eexists. split; reflexivity.
Qed.

(** [translate_file] never raises: what its [try] raises becomes a
    message beside a hidden download, and the download is shown only
    with the message of a translation that is complete or with the
    warning about missing segments. *)
Theorem translate_file_never_raises (file : option string)
    (model src_lang dst_lang : string) (use_online : bool) (api_key : string)
    (max_token : Z) (s : session World Progress) :
  exists u msg s',
    translate_file K St LANGUAGE_MAP one file model src_lang dst_lang use_online
      api_key max_token s = (Ret (u, msg), s')
    /\ ((u = hidden
         /\ msg <> Translation_complete
         /\ forall keys, msg <> Warning_missing_segments keys)
        \/ exists path,
             u = shown path
             /\ (msg = Translation_complete
                 \/ exists keys, msg = Warning_missing_segments keys)).
Proof.
  unfold translate_file.
  destruct file as [name|].
  2: { do 3 eexists. split; [reflexivity|]. left. repeat split; discriminate. }
  destruct (use_online && String.eqb api_key "")%bool.
  { do 3 eexists. split; [reflexivity|]. left. repeat split; discriminate. }
  destruct (Path.splitext name) as [file_name file_extension].
  destruct (translator_class_for (App.lower file_extension)) as [cls|].
  2: { do 3 eexists. split; [reflexivity|]. left. repeat split; discriminate. }
  unfold dtry.
  match goal with
  | |- context [match ?body s with _ => _ end] =>
      destruct (body s) as [[[u msg]|x] s1] eqn:Hb
  end.
  - do 3 eexists. split; [reflexivity|]. right.
    apply dbind_Ret_inv in Hb as (tr & s2 & _ & Hb).
    apply dbind_Ret_inv in Hb as (u1 & s3 & _ & Hb).
    apply dbind_Ret_inv in Hb as (r & s4 & _ & Hb).
    apply dbind_Ret_inv in Hb as (u2 & s5 & _ & Hb).
    destruct (missing_truthy St (snd r)).
    + destruct (sorted_missing St (snd r)) as [keys|y]; [|discriminate Hb].
      unfold dret in Hb. inversion Hb; subst. eauto.
    + unfold dret in Hb. inversion Hb; subst. eauto.
  - destruct (is_ValueError x);
      (do 3 eexists; split; [reflexivity|]; left; repeat split; discriminate).
Qed.

(** Whenever [translate_file] shows a download, its path is the base
    name of the upload with "_translated" put before the extension, in
    the folder "result", and the extension is, letter case apart, one of
    the five of the table. *)
Theorem translate_file_output_name (name model src_lang dst_lang : string)
    (use_online : bool) (api_key : string) (max_token : Z)
    (s s' : session World Progress) (u : gr_update) (msg : status_message) :
  translate_file K St LANGUAGE_MAP one (Some name) model src_lang dst_lang
    use_online api_key max_token s = (Ret (u, msg), s') ->
  visible u = true ->
  exists stem ext,
    Path.basename name = stem ++ ext
    /\ translator_class_for (App.lower ext) <> None
    /\ value u = Some ("result/" ++ stem ++ "_translated" ++ ext).
Proof.
  intros H Hv. unfold translate_file in H.
  destruct (use_online && String.eqb api_key "")%bool.
  { unfold dret in H. inversion H; subst. discriminate Hv. }
  pose proof (splitext_spec name) as [Hparts Hext].
  destruct (Path.splitext name) as [file_name file_extension].
  simpl in Hparts, Hext.
  destruct (translator_class_for (App.lower file_extension)) as [cls|] eqn:Hc.
  2: { unfold dret in H. inversion H; subst. discriminate Hv. }
  unfold dtry in H.
  match type of H with
  | (match ?body s with _ => _ end) = _ =>
      destruct (body s) as [[[u0 msg0]|x] s1] eqn:Hb
  end.
  2: { destruct (is_ValueError x); unfold dret in H; inversion H; subst;
       discriminate Hv. }
  inversion H; subst u0 msg0 s1. clear H.
  apply dbind_Ret_inv in Hb as (tr & s2 & _ & Hb).
  apply dbind_Ret_inv in Hb as (u1 & s3 & _ & Hb).
  apply dbind_Ret_inv in Hb as ([path missing] & s4 & Hp & Hb).
  apply dbind_Ret_inv in Hb as (u2 & s5 & _ & Hb).
  apply process_returns_path in Hp as [-> _].
  exists (Path.basename file_name), file_extension.
  split; [|split].
  - rewrite <- Hparts. destruct Hext as [->|(e & -> & _ & He)].
    + now rewrite !string_app_nil_r.
    + apply basename_app. unfold Path.lacks in *. simpl. exact He.
  - rewrite Hc. discriminate.
  - simpl in Hb. destruct (missing_truthy St missing).
    + destruct (sorted_missing St missing) as [keys|y]; [|discriminate Hb].
      unfold dret in Hb. inversion Hb; subst. reflexivity.
    + unfold dret in Hb. inversion Hb; subst. reflexivity.
Qed.

(** When the request for the first segment of a document fails in the
    backend with an error of the classes that are retried, the user is
    told of an [UnboundLocalError] (the message "Error: ..." beside a
    hidden download), not of that error: the exception of the [except]
    clause of [translate_content] goes through [process] to the handler
    of [translate_file], and neither the validator nor the Writer has
    run. *)
Theorem translate_file_first_call_error (name model src_lang dst_lang : string)
    (use_online : bool) (api_key : string) (max_token : Z)
    (s s0 s1 : session World Progress) (cls : translator_class)
    (tr : translator) (json_path segment : string) (progress : Progress)
    (rest : list (string * Progress)) (w : World) (x : exn) :
  (use_online && String.eqb api_key "")%bool = false ->
  translator_class_for (App.lower (snd (Path.splitext name))) = Some cls ->
  __init__ St cls name model use_online api_key (language_code LANGUAGE_MAP src_lang)
    (language_code LANGUAGE_MAP dst_lang) max_token None s = (Ret tr, s0) ->
  process_prepare St tr true
    (snd (pipeline (report_progress true Zero "Initializing translation..." false)
            s0))
  = (Ret json_path, s1) ->
  stream_segment_json K (world (run s1)) (failed_json (run s1)) SRC_JSON_PATH
    (settings tr) (previous_text (run s1))
  = Ret (Some ((segment, progress) :: rest)) ->
  translate_text K (world (run s1)) segment (previous_text (run s1)) (settings tr)
  = (w, Raise x) ->
  caught_by_retry x = true ->
  exists s',
    translate_file K St LANGUAGE_MAP one (Some name) model src_lang dst_lang
      use_online api_key max_token s
    = (Ret (hidden, Error_message UnboundLocalError), s')
    /\ world (run s') = w.
Proof.
  intros Hk Hc Hi Hp Hs Ht Hx.
  destruct (first_call_error_state (settings tr) true segment progress rest
              (run s1) w x Hs Ht Hx) as (e2 & He & Hw).
  pose proof (process_stops_with_the_pipeline tr (fst (Path.splitext name))
                (snd (Path.splitext name)) true _ s1 json_path _ e2 Hp He) as Hpr.
  unfold translate_file. rewrite Hk.
  destruct (Path.splitext name) as [file_name file_extension].
  cbn [fst snd] in *.
  rewrite Hc. unfold dtry. unfold dbind at 1. rewrite Hi.
  unfold dbind at 1.
  assert (Hq : pipeline (report_progress true Zero "Initializing translation..."
                           false) s0
               = (Ret tt,
                  snd (pipeline (report_progress true Zero
                                   "Initializing translation..." false) s0)))
    by reflexivity.
  rewrite Hq. unfold dbind at 1. rewrite Hpr. cbn [is_ValueError].
  eexists. split; [reflexivity|]. exact Hw.
Qed.

End DriverFacts.

(** ** The model lists *)

Lemma string_take_drop (n : nat) :
  forall s, substring 0 n s ++ string_drop n s = s.
Proof.
  induction n as [|n IH]; intros [|c s]; simpl; try reflexivity.
  now rewrite IH.
Qed.

Lemma endswith_inv (s p : string) :
  App.endswith s p = true -> exists g, s = g ++ p.
Proof.
  unfold App.endswith. intro H. apply andb_true_iff in H as [_ H].
  apply String.eqb_eq in H.
  set (n := (String.length s - String.length p)%nat) in *.
  exists (substring 0 n s).
  rewrite <- H. symmetry. apply string_take_drop.
Qed.

Lemma substring_middle (a m b : string) :
  substring (String.length a) (String.length m) (a ++ m ++ b) = m.
Proof.
  induction a as [|c a IH]; simpl; [apply substring_0_app | exact IH].
Qed.

Lemma app_inv_tail_string (a b c : string) : a ++ c = b ++ c -> a = b.
Proof.
  revert b. induction a as [|x a IH]; intros [|y b] H; simpl in H.
  - reflexivity.
  - exfalso. apply (f_equal String.length) in H. simpl in H.
    rewrite string_length_app in H. lia.
  - exfalso. apply (f_equal String.length) in H. simpl in H.
    rewrite string_length_app in H. lia.
  - inversion H. f_equal. now apply IH.
Qed.

(** [os.path.splitext] on a name that ends in ".json": the ending is cut
    off, unless nothing or only dots precede it in the last component *)
Lemma splitext_json (g : string) :
  fst (Path.splitext (g ++ ".json"))
  = if all_chars (Ascii.eqb ".") (Path.basename g) then g ++ ".json" else g.
Proof.
  unfold Path.splitext.
  assert (Hd : Path.rfind "." (g ++ ".json") = Z.of_nat (String.length g)).
  { change (g ++ ".json") with (g ++ String "." "json").
    now apply rfind_last. }
  rewrite Hd.
  destruct (basename_spec g) as [[Hs Hb]|(d & f & Hg & Hf & Hb)]; rewrite Hb.
  - assert (Hsep : Path.rfind "/" (g ++ ".json") = (-1)%Z).
    { apply rfind_lacks. rewrite lacks_app, Hs. reflexivity. }
    rewrite Hsep.
    replace (-1 <? Z.of_nat (String.length g))%Z with true
      by (symmetry; apply Z.ltb_lt; lia).
    replace (Z.to_nat (-1 + 1)) with 0%nat by reflexivity.
    replace (Z.to_nat (Z.of_nat (String.length g) - -1 - 1))
      with (String.length g) by lia.
    rewrite substring_0_app.
    destruct (all_chars (Ascii.eqb ".") g); [reflexivity|].
    cbn [fst]. rewrite Nat2Z.id. apply substring_0_app.
  - subst g.
    assert (Hsep : Path.rfind "/" ((d ++ String "/" f) ++ ".json")
                   = Z.of_nat (String.length d)).
    { rewrite string_app_assoc. change (String "/" f ++ ".json")
        with (String "/" (f ++ ".json")).
      apply rfind_last. rewrite lacks_app, Hf. reflexivity. }
    rewrite Hsep.
    rewrite string_length_app. cbn [String.length].
    replace (Z.of_nat (String.length d) <? Z.of_nat (String.length d + S (String.length f)))%Z
      with true by (symmetry; apply Z.ltb_lt; lia).
    replace (Z.to_nat (Z.of_nat (String.length d) + 1))
      with (String.length (d ++ "/")) by (rewrite string_length_app; simpl; lia).
    replace (Z.to_nat (Z.of_nat (String.length d + S (String.length f))
                        - Z.of_nat (String.length d) - 1))
      with (String.length f) by lia.
    replace ((d ++ String "/" f) ++ ".json") with ((d ++ "/") ++ f ++ ".json")
      by (rewrite !string_app_assoc; reflexivity).
    rewrite substring_middle.
    destruct (all_chars (Ascii.eqb ".") f); [reflexivity|].
    cbn [fst]. rewrite Nat2Z.id.
    replace ((d ++ "/") ++ f ++ ".json") with ((d ++ String "/" f) ++ ".json")
      by (rewrite !string_app_assoc; reflexivity).
    replace (String.length d + S (String.length f))%nat
      with (String.length (d ++ String "/" f))
      by (rewrite string_length_app; reflexivity).
    apply substring_0_app.
Qed.

(** The names of the online models are the names of the files of
    [config/api_config] that end in ".json", without that ending;
    "Custom.json" is left out, and so no model is called "Custom".  A
    file name in which nothing or only dots precede the ending, such as
    ".json", is a model under its whole name, since [splitext] sees no
    extension in it.  There are no other online models. *)
Theorem online_models_names (listing : list string) (m : string) :
  (In m (online_models listing) <->
   exists g,
     In (g ++ ".json") listing /\ g <> "Custom"
     /\ m = if all_chars (Ascii.eqb ".") (Path.basename g)
            then g ++ ".json" else g)
  /\ (In m (online_models listing) -> m <> "Custom").
Proof.
  assert (Hiff : In m (online_models listing) <->
                 exists g,
                   In (g ++ ".json") listing /\ g <> "Custom"
                   /\ m = if all_chars (Ascii.eqb ".") (Path.basename g)
                          then g ++ ".json" else g).
  { unfold online_models. split.
    - intro H. apply in_map_iff in H as (f & Hm & Hf).
      apply filter_In in Hf as [Hin Hf]. apply andb_true_iff in Hf as [He Hc].
      destruct (endswith_inv f ".json" He) as [g ->].
      exists g. split; [exact Hin|]. split.
      + intros ->. discriminate Hc.
      + now rewrite <- Hm, splitext_json.
    - intros (g & Hin & Hne & ->). apply in_map_iff.
      exists (g ++ ".json"). split; [apply splitext_json|].
      apply filter_In. split; [exact Hin|]. apply andb_true_iff. split.
      + unfold App.endswith. rewrite string_length_app. cbn [String.length].
        apply andb_true_iff. split; [apply Nat.leb_le; lia|].
        replace (String.length g + 5 - 5)%nat with (String.length g) by lia.
        rewrite string_drop_app. reflexivity.
      + apply negb_true_iff. apply String.eqb_neq. intro H. apply Hne.
        apply (app_inv_tail_string g "Custom" ".json"). exact H. }
  split; [exact Hiff|].
  intro H. apply Hiff in H as (g & _ & Hne & ->).
  destruct (all_chars (Ascii.eqb ".") (Path.basename g)); [|exact Hne].
  intro H. pose proof (f_equal String.length H) as Hl.
  rewrite string_length_app in Hl. simpl in Hl.
  destruct g as [|c0 [|c1 g]]; simpl in Hl; try lia.
  discriminate H.
Qed.

(** Switching to the online models selects the fourth of them:
    [update_model_list_and_api_input] raises [IndexError] exactly when
    the online models are asked for and [config/api_config] holds fewer
    than four files that end in ".json" beside "Custom.json". *)
Theorem update_model_list_needs_four_online_models
    (local_models listing : list string) (use_online : bool) :
  update_model_list_and_api_input local_models (online_models listing) use_online
  = None
  <-> use_online = true
      /\ (length (filter (fun f => (App.endswith f ".json"
                                     && negb (String.eqb f "Custom.json"))%bool)
                    listing) < 4)%nat.
Proof.
  unfold update_model_list_and_api_input.
  destruct use_online.
  - destruct (nth_error (online_models listing) 3) as [m|] eqn:E.
    + split; [discriminate|]. intros [_ H]. exfalso.
      assert (Hl : (3 < length (online_models listing))%nat)
        by (apply nth_error_Some; congruence).
      unfold online_models in Hl. rewrite length_map in Hl. lia.
    + split; [|reflexivity]. intros _. split; [reflexivity|].
      apply nth_error_None in E. unfold online_models in E.
      rewrite length_map in E. lia.
  - split; [discriminate | intros [H _]; discriminate H].
Qed.

(** ** Runs of the application *)

Lemma process_output_path_witness :
  "result/Report.final_translated.DOCX"
  = "result/" ++ Path.basename "/tmp/gradio/Report.final" ++ "_translated"
    ++ ".DOCX"
  /\ Path.lacks "/" (Path.basename "/tmp/gradio/Report.final") = true.
Proof.
  apply (process_output_path (Demo.collaborators false) Office.stages
           Office.word_translator "/tmp/gradio/Report.final" ".DOCX" true
           Office.two_units
           (snd (process (Demo.collaborators false) Office.stages
                   Office.word_translator "/tmp/gradio/Report.final" ".DOCX" true
                   Office.two_units))
           "result/Report.final_translated.DOCX" []).
  vm_compute. reflexivity.
Defined.

Lemma translate_file_output_name_witness :
  exists stem ext,
    Path.basename Office.upload = stem ++ ext
    /\ translator_class_for (App.lower ext) <> None
    /\ value (shown "result/Report.final_translated.DOCX")
       = Some ("result/" ++ stem ++ "_translated" ++ ext).
Proof.
  apply (translate_file_output_name (Demo.collaborators false) Office.stages
           Office.LANGUAGE_MAP 100%nat Office.upload "demo" "English" "Deutsch"
           false "" 768 Office.two_units
           (snd (translate_file (Demo.collaborators false) Office.stages
                   Office.LANGUAGE_MAP 100%nat (Some Office.upload) "demo"
                   "English" "Deutsch" false "" 768 Office.two_units))
           (shown "result/Report.final_translated.DOCX") Translation_complete).
  - vm_compute. reflexivity.
  - reflexivity.
Defined.

Lemma translate_file_first_call_error_witness :
  exists s',
    translate_file (Demo.collaborators false) Office.stages Office.LANGUAGE_MAP
      100%nat (Some Office.upload) "demo" "English" "Deutsch" false "" 768
      Office.backend_down
    = (Ret (hidden, Error_message UnboundLocalError), s')
    /\ world (run s')
       = fst (Demo.invoker (world (run Office.backend_down))
                (Demo.mapping [("1", "one"); ("2", "two")]) "DEFAULT"
                Demo.settings).
Proof.
  pose (s0 := snd (__init__ Office.stages WordTranslator Office.upload "demo" false ""
                     "en" "de" 768 None Office.backend_down)).
  pose (s1 := snd (process_prepare Office.stages Office.word_translator true
                     (snd (pipeline (report_progress true Zero
                                       "Initializing translation..." false) s0)))).
  apply (translate_file_first_call_error (Demo.collaborators false) Office.stages
           Office.LANGUAGE_MAP 100%nat Office.upload "demo" "English" "Deutsch"
           false "" 768 Office.backend_down s0 s1 WordTranslator
           Office.word_translator "temp/src.json"
           (Demo.mapping [("1", "one"); ("2", "two")]) 0%nat [] _ RuntimeError).
  - reflexivity.
  - vm_compute. reflexivity.
  - vm_compute. reflexivity.
  - vm_compute. reflexivity.
  - vm_compute. reflexivity.
  - vm_compute. reflexivity.
  - reflexivity.
Defined.

Lemma online_models_names_witness :
  In "OpenAI" (online_models Office.api_config)
  /\ "OpenAI" <> "Custom"
  /\ ~ In "Custom" (online_models Office.api_config).
Proof.
  assert (H : In "OpenAI" (online_models Office.api_config)).
  { apply (proj1 (online_models_names Office.api_config "OpenAI")).
    exists "OpenAI". split; [vm_compute; tauto|]. split; [discriminate|].
    reflexivity. }
  split; [exact H|]. split.
  - exact (proj2 (online_models_names Office.api_config "OpenAI") H).
  - intro Hc.
    exact (proj2 (online_models_names Office.api_config "Custom") Hc eq_refl).
Defined.

(** ** A run without failures *)

Section CleanRun.

Context {World Progress : Type}.
Variable cfg : config.
Variable K : Collaborators World Progress.

Hypothesis backend_answers :
  forall w segment previous,
    exists w' text,
      translate_text K w segment previous cfg = (w', Ret (Some text))
      /\ text <> "".
Hypothesis recorder_accepts :
  forall w q segment t,
    exists w' b, process_translation_results K w q segment t = (w', q, Ret b).
Hypothesis cleaner_returns :
  forall t, exists cleaned, clean_json K t = Ret cleaned.

Lemma clean_primary_attempt (segment : string) (n : nat) (t : option pytext)
    (e : env (World * nat) Progress) :
  exists t' e',
    primary_attempt cfg (counting K) segment n t e = (Ret (t', None), e')
    /\ calls e' = S (calls e)
    /\ failed_json e' = failed_json e.
Proof.
  destruct (backend_answers (fst (world e)) segment (previous_text e))
    as (w1 & text & Ht & Hne).
  destruct (recorder_accepts w1 (failed_json e) segment (Some text))
    as (w2 & b & Hr).
  destruct (cleaner_returns (Some text)) as (cleaned & Hc).
  assert (Htruthy : text_truthy (Some text) = true).
  { simpl. destruct (String.eqb_spec text ""); [contradiction | reflexivity]. }
  unfold primary_attempt.
  unfold bind at 1. unfold call_translate_text. cbn [translate_text counting].
  rewrite Ht. unfold try_except.
  unfold bind at 1, lift. unfold bind at 1. unfold primary_try.
  unfold bind at 1. rewrite Htruthy. unfold ret at 1.
  unfold bind at 1. unfold call_process_translation_results.
  cbn [process_translation_results counting world failed_json set_world fst snd].
  rewrite Hr.
  unfold bind at 1, lift. cbn [clean_json counting]. rewrite Hc.
  destruct (4 <=? length (splitlines cleaned))%nat;
    unfold bind, update, log, append_combined, ret;
    (do 2 eexists; split; [reflexivity | split; reflexivity]).
Qed.

Lemma clean_primary_pass (cb : bool) (segments : list (string * Progress)) :
  forall (t : option pytext) (e : env (World * nat) Progress),
  exists e',
    primary_pass cfg (counting K) cb segments t e = (Ret tt, e')
    /\ calls e' = (calls e + length segments)%nat
    /\ failed_json e' = failed_json e.
Proof.
  induction segments as [|[segment progress] segments IH]; intros t e;
    cbn [primary_pass length].
  - exists e. unfold ret. repeat split. lia.
  - destruct (clean_primary_attempt segment 0 t e) as (t' & e1 & Ha & Hc1 & Hq1).
    unfold bind at 1. cbn [primary_retries]. unfold bind at 1. rewrite Ha.
    unfold ret at 1.
    assert (Hp : exists e2,
               report_progress cb (Fraction progress)
                 "Translating...Please wait." true e1 = (Ret tt, e2)
               /\ calls e2 = calls e1 /\ failed_json e2 = failed_json e1).
    { unfold report_progress. destruct cb.
      - eexists. unfold bind, update, log. split; [reflexivity|]. split; reflexivity.
      - eexists. unfold ret. split; [reflexivity|]. split; reflexivity. }
    destruct Hp as (e2 & Hp & Hc2 & Hq2).
    unfold bind at 1. rewrite Hp.
    destruct (IH t' e2) as (e3 & H3 & Hc3 & Hq3).
    exists e3. split; [exact H3|]. split; [lia | congruence].
Qed.

(** When the backend answers every request with a text that is not
    empty, the Result Recorder accepts every output without writing
    FAILED_JSON_PATH and [clean_json] returns, a run of
    [translate_content] that starts without a queue file, on a translator
    whose flag is set, returns after exactly one call of [translate_text]
    per segment: the queue file is still absent, one round of the batch
    retry has started, found nothing to retry and cleared the flag, and
    the line-by-line tier has not run. *)
Theorem clean_run_costs_one_call_per_segment (cb : bool)
    (segments : list (string * Progress)) (e : env (World * nat) Progress) :
  stream_segment_json K (fst (world e)) (failed_json e) SRC_JSON_PATH cfg
    (previous_text e) = Ret (Some segments) ->
  failed_json e = None ->
  failed_status e = true ->
  exists e',
    translate_content cfg (counting K) cb e = (Ret tt, e')
    /\ calls e' = (calls e + length segments)%nat
    /\ failed_json e' = None
    /\ failed_status e' = false
    /\ rounds_started e' = (rounds_started e + 1)%nat
    /\ line_tiers_started e' = line_tiers_started e.
Proof.
  intros Hs Hq Hf.
  destruct (clean_primary_pass cb segments None (primary_start e))
    as (e1 & Hp & Hc1 & Hq1).
  pose proof (flag_primary_pass cfg (counting K) cb segments None (primary_start e))
    as Hf1.
  pose proof (silent_primary_pass cfg (counting K) _ is_round_start_tiers cb
                segments None (primary_start e)) as Hr1.
  pose proof (silent_primary_pass cfg (counting K) _ is_line_tier_start_tiers cb
                segments None (primary_start e)) as Hl1.
  rewrite Hp in Hf1, Hr1, Hl1. cbn [snd] in Hf1, Hr1, Hl1.
  change (failed_status (primary_start e)) with (failed_status e) in Hf1.
  change (failed_json (primary_start e)) with (failed_json e) in Hq1.
  change (calls (primary_start e)) with (calls e) in Hc1.
  rewrite Hf in Hf1. rewrite Hq in Hq1.
  unfold translate_content.
  unfold bind at 1, log, update. unfold bind at 1, call_stream_segment_json.
  cbn [world failed_json previous_text add_log stream_segment_json counting].
  rewrite Hs.
  unfold bind at 1, log, update. unfold bind at 1, update.
  fold (primary_start e). unfold bind at 1. rewrite Hp.
  unfold recovery_tiers. unfold bind at 1. cbn [batch_rounds].
  unfold bind at 1, get. rewrite Hf1. cbn [negb].
  unfold bind at 1. unfold retranslate_failed_content.
  unfold bind at 1, log, update. unfold bind at 1, get.
  cbn [failed_json add_log]. rewrite Hq1.
  unfold bind at 1, log, update. unfold ret at 1.
  unfold bind at 1, update. unfold bind at 1, get.
  cbn [failed_status set_failed_status negb]. unfold ret at 1.
  unfold bind at 1, get. cbn [failed_status set_failed_status]. unfold ret.
  eexists. split; [reflexivity|].
  split; [exact Hc1|]. split; [exact Hq1|]. split; [reflexivity|].
  unfold rounds_started, line_tiers_started, count_records in *. simpl in *.
  split; lia.
Qed.

End CleanRun.

Lemma clean_run_costs_one_call_per_segment_witness :
  exists e',
    translate_content Demo.settings (counting Obliging.collaborators) true
      Obliging.three_segments = (Ret tt, e')
    /\ calls e' = (calls Obliging.three_segments + 3)%nat
    /\ failed_json e' = None
    /\ failed_status e' = false
    /\ rounds_started e' = (rounds_started Obliging.three_segments + 1)%nat
    /\ line_tiers_started e' = line_tiers_started Obliging.three_segments.
Proof.
  apply (clean_run_costs_one_call_per_segment Demo.settings Obliging.collaborators)
    with (segments := Demo.document [[("1", "one")]; [("2", "two")]; [("3", "three")]]).
  - intros w segment previous. do 2 eexists. split; [reflexivity | discriminate].
  - intros w q segment t. do 2 eexists. reflexivity.
  - intros [s|]; eexists; reflexivity.
  - reflexivity.
  - reflexivity.
  - reflexivity.
Defined.
